(** * PGTSX: Progol portfolio generator (src/pages/index.tsx)

    A shallow embedding of the three classes of the computation core,
    [MatchClassifier], [PortfolioGenerator] and [PortfolioValidator], and the
    properties of the written specification that concern them.

    Conventions of the embedding.
    - A JavaScript number is an exact rational ([Q]); the rounding of
      binary floating point is not modelled.  The one division whose divisor
      can be zero, the renormalisation of the calibrated probabilities,
      returns a [numero], whose [NoFinito] stands for the NaN or the infinity
      that JavaScript yields there.  The properties stated over [Q] are
      comparisons, bounds and counts, which the rounding keeps; an equation
      between the results of different computations is stated over exact
      arithmetic and, where the rounding decides it, over the kernel's
      binary64 numbers as well ([Binary64]).
    - An array is a [list]; [a[i]] is the lookup [a !! i] and the assignment
      [a[i] = x] inside the bounds is [<[i:=x]> a].
    - Reading a property of [undefined] throws: the functions that index one
      array with the positions of another return a [resultado_js].
    - [Math.random()] reads the next sample of an explicit source
      [azar : nat -> Q], with the number of samples drawn so far as state.
    - The messages of the validator, template strings in the source, are the
      data the template is filled with ([Mensaje]).
    - The messages of the whole report, with those of the checks of the global
      distribution and of the draws per ticket, are an [Aviso]; the report is
      an [Informe].
    - The user interface, the sample data and the export are not embedded: no
      property below depends on them. *)

From Stdlib Require Import QArith Qabs Qminmax Qpower Qfield Qround Lia Lqa List Bool Arith String.
From Stdlib Require PrimFloat.
From stdpp Require Import base list sorting.
Import ListNotations.

Local Open Scope Q_scope.

(** ** Numbers *)

(** [a > b] and [a >= b] of the source, on finite numbers. *)
Definition mayor (a b : Q) : bool := negb (Qle_bool a b).
Definition mayor_igual (a b : Q) : bool := Qle_bool b a.
Definition menor (a b : Q) : bool := mayor b a.

(** The value of a division: a finite quotient, or the NaN or infinity of a
    zero divisor. *)
Inductive numero : Type :=
| Finito (q : Q)
| NoFinito.

Definition dividir (a b : Q) : numero :=
  if Qeq_bool b 0 then NoFinito else Finito (a / b).

(** [x || 0] on a field that holds a number or is missing. *)
Definition o_cero (x : option Q) : Q :=
  match x with Some q => q | None => 0 end.

(** ** Exceptions *)

(** [TypeError] is what reading a property of [undefined] throws.
    [InvalidProbabilities] is the error the specification names for the
    calibration; the source has no [throw] statement. *)
Inductive excepcion : Type :=
| TypeError
| InvalidProbabilities.

Inductive resultado_js (A : Type) : Type :=
| Devuelve (a : A)
| Lanza (e : excepcion).
Arguments Devuelve {A} a.
Arguments Lanza {A} e.

#[global] Instance resultado_js_ret : MRet resultado_js := @Devuelve.
#[global] Instance resultado_js_bind : MBind resultado_js :=
  fun A B (k : A -> resultado_js B) (r : resultado_js A) =>
    match r with
    | Devuelve a => k a
    | Lanza e => Lanza e
    end.

(** ** Stable sort

    [Array.prototype.sort] with a comparator is stable.  [antes a b] holds
    when the comparator does not put [b] before [a], that is when
    [comparator(a, b) <= 0]. *)
Section Ordenar.
Context {A : Type} (antes : A -> A -> bool).

Fixpoint insertar (x : A) (l : list A) : list A :=
  match l with
  | [] => [x]
  | y :: l' => if antes x y then x :: l else y :: insertar x l'
  end.

Definition ordenar (l : list A) : list A := fold_right insertar [] l.
End Ordenar.

(** ** PROGOL_CONFIG *)
Module PROGOL_CONFIG.
Definition EMPATES_MIN : nat := 4.
Definition EMPATES_MAX : nat := 6.
Definition CONCENTRACION_MAX_GENERAL : Q := 0.70.
Definition CONCENTRACION_MAX_INICIAL : Q := 0.60.
Definition k1_forma : Q := 0.15.
Definition k2_lesiones : Q := 0.10.
Definition k3_contexto : Q := 0.20.
Definition umbral_diferencia : Q := 0.08.
Definition boost_empate : Q := 0.06.
End PROGOL_CONFIG.
Import PROGOL_CONFIG.

(** ** Data model *)

(** The three outcomes, in the order of the keys of the source's object
    literals: local win, draw (empate), visitor win. *)
Inductive Resultado : Type := L | E | V.

Inductive Clasificacion : Type := Ancla | Divisor | TendenciaEmpate | Neutro.

Definition Resultado_eqb (a b : Resultado) : bool :=
  match a, b with
  | L, L | E, E | V, V => true
  | _, _ => false
  end.

Definition Clasificacion_eqb (a b : Clasificacion) : bool :=
  match a, b with
  | Ancla, Ancla | Divisor, Divisor
  | TendenciaEmpate, TendenciaEmpate | Neutro, Neutro => true
  | _, _ => false
  end.

(** The probability triple carried by raw and by classified matches. *)
Record Probs : Type := {
  prob_local : Q;
  prob_empate : Q;
  prob_visitante : Q
}.

Record Equipos : Type := {
  local : string;
  visitante : string
}.

(** A raw match.  [forma_diferencia] and [lesiones_impact] may be missing. *)
Record Partido : Type := {
  equipos : Equipos;
  probs : Probs;
  es_final : bool;
  forma_diferencia : option Q;
  lesiones_impact : option Q
}.

(** What [aplicarCalibracionBayesiana] returns. *)
Record Calibracion : Type := {
  cal_local : numero;
  cal_empate : numero;
  cal_visitante : numero
}.

(** An element of [partidosClasificados]. *)
Record PartidoClasificado : Type := {
  id : nat;
  pc_equipos : Equipos;
  pc_probs :> Probs;
  clasificacion : Clasificacion;
  resultadoSugerido : Resultado;
  confianza : Q
}.

Definition prob_de (p : Probs) (r : Resultado) : Q :=
  match r with
  | L => prob_local p
  | E => prob_empate p
  | V => prob_visitante p
  end.

(** ** MatchClassifier *)
Module MatchClassifier.

Definition umbralAncla : Q := 0.60.
Definition umbralDivisorMin : Q := 0.40.
Definition umbralDivisorMax : Q := 0.60.
Definition umbralEmpate : Q := 0.30.

Definition factorAjuste (partido : Partido) : Q :=
  let deltaForma := o_cero (forma_diferencia partido) in
  let lesionesImpact := o_cero (lesiones_impact partido) in
  let contexto := if es_final partido then 1 else 0 in
  1 + k1_forma * deltaForma + k2_lesiones * lesionesImpact + k3_contexto * contexto.

(** The three probabilities before the renormalisation. *)
Definition ajustadas (partido : Partido) : Q * Q * Q :=
  let f := factorAjuste partido in
  let probLocal := prob_local (probs partido) * f in
  let probEmpate := prob_empate (probs partido) in
  let probVisitante := prob_visitante (probs partido) / Qmax f 0.1 in
  let probEmpate :=
    if menor (Qabs (probLocal - probVisitante)) umbral_diferencia
       && mayor probEmpate (Qmax probLocal probVisitante)
    then Qmin (probEmpate + boost_empate) 0.95
    else probEmpate in
  (probLocal, probEmpate, probVisitante).

Definition total (partido : Partido) : Q :=
  let '(probLocal, probEmpate, probVisitante) := ajustadas partido in
  probLocal + probEmpate + probVisitante.

Definition aplicarCalibracionBayesiana (partido : Partido)
  : resultado_js Calibracion :=
  let '(probLocal, probEmpate, probVisitante) := ajustadas partido in
  let total := probLocal + probEmpate + probVisitante in
  Devuelve {| cal_local := dividir probLocal total;
              cal_empate := dividir probEmpate total;
              cal_visitante := dividir probVisitante total |}.

(** [Math.max(...probs)] on the three-element array. *)
Definition maxProb (partido : Probs) : Q :=
  Qmax (Qmax (prob_local partido) (prob_empate partido)) (prob_visitante partido).

Definition clasificarPartido (partido : Probs) : Clasificacion :=
  if mayor (maxProb partido) umbralAncla then Ancla
  else if mayor (prob_empate partido) umbralEmpate
          && mayor_igual (prob_empate partido)
                (Qmax (prob_local partido) (prob_visitante partido))
  then TendenciaEmpate
  else if mayor_igual (maxProb partido) umbralDivisorMin
          && menor (maxProb partido) umbralDivisorMax
  then Divisor
  else Neutro.

(** [Object.keys(probs).reduce((a, b) => probs[a] > probs[b] ? a : b)]:
    without an initial value the first key, [L], starts the accumulator and
    the callback runs on [E], then on [V]. *)
Definition getResultadoSugerido (partido : Probs) : Resultado :=
  fold_left
    (fun a b => if mayor (prob_de partido a) (prob_de partido b) then a else b)
    [E; V] L.

(** [probs.sort((a, b) => b - a)] then [probs[0] - probs[1]]. *)
Definition calcularConfianza (partido : Probs) : Q :=
  match ordenar (fun a b => Qle_bool (b - a) 0)
          [prob_local partido; prob_empate partido; prob_visitante partido] with
  | p0 :: p1 :: _ => p0 - p1
  | _ => 0
  end.

(** The calibrated record as the later stages read it.  A probability that
    is not finite is outside what the comparisons below model: the source
    goes on to classify such a record, with every comparison on NaN false,
    and the embedding has no record for it ([None]). *)
Definition finita (c : Calibracion) : option Probs :=
  match cal_local c, cal_empate c, cal_visitante c with
  | Finito l, Finito e, Finito v =>
      Some {| prob_local := l; prob_empate := e; prob_visitante := v |}
  | _, _, _ => None
  end.

(** One step of the [map] of [classifyMatches]. *)
Definition clasificarUno (i : nat) (partido : Partido)
  : resultado_js (option PartidoClasificado) :=
  partidoCalirado ← aplicarCalibracionBayesiana partido;
  Devuelve
    (match finita partidoCalirado with
     | Some pr =>
         Some {| id := i;
                 pc_equipos := equipos partido;
                 pc_probs := pr;
                 clasificacion := clasificarPartido pr;
                 resultadoSugerido := getResultadoSugerido pr;
                 confianza := calcularConfianza pr |}
     | None => None
     end).

Fixpoint classifyMatches_desde (i : nat) (partidos : list Partido)
  : resultado_js (option (list PartidoClasificado)) :=
  match partidos with
  | [] => Devuelve (Some [])
  | partido :: resto =>
      c ← clasificarUno i partido;
      cs ← classifyMatches_desde (S i) resto;
      Devuelve (match c, cs with
                | Some c, Some cs => Some (c :: cs)
                | _, _ => None
                end)
  end.

Definition classifyMatches (partidos : list Partido)
  : resultado_js (option (list PartidoClasificado)) :=
  classifyMatches_desde 0 partidos.

End MatchClassifier.

(** ** PortfolioGenerator *)

(** A ticket: one outcome per match. *)
Abbreviation Quiniela := (list Resultado).

(** [quiniela.filter(r => r === 'E').length] *)
Definition empates (quiniela : Quiniela) : nat :=
  length (filter (fun r => Resultado_eqb r E = true) quiniela).

(** An entry of [candidatos] and of [candidatosEmpate]. *)
Record Candidato : Type := {
  index : nat;
  prob : Q
}.

(** An element of [partidosDivisor]: the match and its position. *)
Record PartidoDivisor : Type := {
  pd_partido : PartidoClasificado;
  pd_index : nat
}.

Module PortfolioGenerator.
Import MatchClassifier.

(** The loop of [crearQuinielaBase], from the counter [empatesActuales]. *)
Fixpoint crearQuinielaBase_desde (empatesActuales : nat)
    (partidosClasificados : list PartidoClasificado) : Quiniela :=
  match partidosClasificados with
  | [] => []
  | partido :: resto =>
      let '(resultado, empatesActuales) :=
        if Clasificacion_eqb (clasificacion partido) Ancla
        then (resultadoSugerido partido, empatesActuales)
        else if Clasificacion_eqb (clasificacion partido) TendenciaEmpate
                && (empatesActuales <? EMPATES_MAX)%nat
        then (E, S empatesActuales)
        else (resultadoSugerido partido, empatesActuales) in
      let empatesActuales :=
        if Resultado_eqb resultado E then S empatesActuales
        else empatesActuales in
      resultado :: crearQuinielaBase_desde empatesActuales resto
  end.

Definition crearQuinielaBase (partidosClasificados : list PartidoClasificado)
  : Quiniela :=
  crearQuinielaBase_desde 0 partidosClasificados.

(** [probs.sort((a, b) => b.prob - a.prob)] then [probs[1].resultado]. *)
Definition getResultadoAlternativo (partido : Probs) : Resultado :=
  let probs := [(L, prob_local partido); (E, prob_empate partido);
                (V, prob_visitante partido)] in
  match ordenar (fun a b => Qle_bool (snd b - snd a) 0) probs with
  | _ :: segundo :: _ => fst segundo
  | _ => L
  end.

(** The first loop of the add path of [ajustarEmpates], from position [i]:
    the slots that are not a draw and whose match has [prob_empate > 0.20].
    [partidosClasificados[i]] is read only when the slot is not a draw. *)
Fixpoint candidatosFaltantes (partidosClasificados : list PartidoClasificado)
    (i : nat) (quiniela : Quiniela) : resultado_js (list Candidato) :=
  match quiniela with
  | [] => Devuelve []
  | r :: resto =>
      if Resultado_eqb r E
      then candidatosFaltantes partidosClasificados (S i) resto
      else match (partidosClasificados !! i : option PartidoClasificado) with
           | None => Lanza TypeError
           | Some partido =>
               cs ← candidatosFaltantes partidosClasificados (S i) resto;
               Devuelve (if mayor (prob_empate partido) 0.20
                         then {| index := i; prob := prob_empate partido |} :: cs
                         else cs)
           end
  end.

(** The first loop of the remove path: every draw slot. *)
Fixpoint candidatosEmpate (partidosClasificados : list PartidoClasificado)
    (i : nat) (quiniela : Quiniela) : resultado_js (list Candidato) :=
  match quiniela with
  | [] => Devuelve []
  | r :: resto =>
      if Resultado_eqb r E
      then match (partidosClasificados !! i : option PartidoClasificado) with
           | None => Lanza TypeError
           | Some partido =>
               cs ← candidatosEmpate partidosClasificados (S i) resto;
               Devuelve ({| index := i; prob := prob_empate partido |} :: cs)
           end
      else candidatosEmpate partidosClasificados (S i) resto
  end.

(** [for (i = 0; i < Math.min(n, candidatos.length); i++)
      quinielaAjustada[candidatos[i].index] = 'E'] *)
Definition ponerEmpates (n : nat) (candidatos : list Candidato)
    (quiniela : Quiniela) : Quiniela :=
  fold_left (fun q c => <[index c := E]> q)
    (take (Nat.min n (length candidatos)) candidatos) quiniela.

(** [for (i = 0; i < Math.min(n, candidatosEmpate.length); i++)
      quinielaAjustada[idx] = partidosClasificados[idx].resultadoSugerido] *)
Definition quitarEmpates (partidosClasificados : list PartidoClasificado)
    (n : nat) (candidatos : list Candidato) (quiniela : Quiniela)
  : resultado_js Quiniela :=
  fold_left
    (fun (acc : resultado_js Quiniela) c =>
       q ← acc;
       match (partidosClasificados !! index c : option PartidoClasificado) with
       | None => Lanza TypeError
       | Some partido => Devuelve (<[index c := resultadoSugerido partido]> q)
       end)
    (take (Nat.min n (length candidatos)) candidatos) (Devuelve quiniela).

Definition ajustarEmpates (quiniela : Quiniela)
    (partidosClasificados : list PartidoClasificado) : resultado_js Quiniela :=
  let empatesActuales := empates quiniela in
  let quinielaAjustada := quiniela in
  if (empatesActuales <? EMPATES_MIN)%nat then
    let empatesNecesarios := (EMPATES_MIN - empatesActuales)%nat in
    candidatos ← candidatosFaltantes partidosClasificados 0 quinielaAjustada;
    let candidatos :=
      ordenar (fun a b => Qle_bool (prob b - prob a) 0) candidatos in
    Devuelve (ponerEmpates empatesNecesarios candidatos quinielaAjustada)
  else if (EMPATES_MAX <? empatesActuales)%nat then
    let empatesExceso := (empatesActuales - EMPATES_MAX)%nat in
    candidatosE ← candidatosEmpate partidosClasificados 0 quinielaAjustada;
    let candidatosE :=
      ordenar (fun a b => Qle_bool (prob a - prob b) 0) candidatosE in
    quitarEmpates partidosClasificados empatesExceso candidatosE quinielaAjustada
  else Devuelve quinielaAjustada.

(** [partidosDivisor[parId % partidosDivisor.length]?.index || 0]: with an
    empty array the remainder is NaN, the element [undefined] and the
    pivot 0. *)
Definition partidoPrincipal (partidosDivisor : list PartidoDivisor)
    (parId : nat) : nat :=
  match partidosDivisor !! (parId mod length partidosDivisor)%nat with
  | Some d => pd_index d
  | None => 0%nat
  end.

(** The loop of [crearParSatelites] from position [i], after [k] samples
    of [azar]: the two tickets before the draw adjustment and the number of
    samples drawn. *)
Fixpoint parSatelites_desde (principal : nat) (azar : nat -> Q) (k i : nat)
    (partidosClasificados : list PartidoClasificado)
  : Quiniela * Quiniela * nat :=
  match partidosClasificados with
  | [] => ([], [], k)
  | partido :: resto =>
      if (i =? principal)%nat then
        let '(qa, qb, k') := parSatelites_desde principal azar k (S i) resto in
        (resultadoSugerido partido :: qa,
         getResultadoAlternativo partido :: qb, k')
      else if Clasificacion_eqb (clasificacion partido) Ancla then
        let resultado := resultadoSugerido partido in
        let '(qa, qb, k') := parSatelites_desde principal azar k (S i) resto in
        (resultado :: qa, resultado :: qb, k')
      else if menor (azar k) 0.3 then
        let '(qa, qb, k') := parSatelites_desde principal azar (S k) (S i) resto in
        (resultadoSugerido partido :: qa,
         getResultadoAlternativo partido :: qb, k')
      else
        let resultado := resultadoSugerido partido in
        let '(qa, qb, k') := parSatelites_desde principal azar (S k) (S i) resto in
        (resultado :: qa, resultado :: qb, k')
  end.

(** [quinielaA] and [quinielaB] as they stand after the loop. *)
Definition parSinAjustar (partidosClasificados : list PartidoClasificado)
    (partidosDivisor : list PartidoDivisor) (parId : nat) (azar : nat -> Q)
  : Quiniela * Quiniela :=
  fst (parSatelites_desde (partidoPrincipal partidosDivisor parId) azar 0 0
         partidosClasificados).

(** The [resultados] of [satA] and [satB].  The identifiers and the metrics
    computed afterwards from [resultados] are left out. *)
Definition crearParSatelites (partidosClasificados : list PartidoClasificado)
    (partidosDivisor : list PartidoDivisor) (parId : nat) (azar : nat -> Q)
  : resultado_js (Quiniela * Quiniela) :=
  let '(quinielaA, quinielaB) :=
    parSinAjustar partidosClasificados partidosDivisor parId azar in
  satA ← ajustarEmpates quinielaA partidosClasificados;
  satB ← ajustarEmpates quinielaB partidosClasificados;
  Devuelve (satA, satB).

(** [partidosClasificados.map((p, i) => ({ ...p, index: i }))
      .filter(p => p.clasificacion === 'Divisor')] *)
Definition partidosDivisorDe (partidosClasificados : list PartidoClasificado)
  : list PartidoDivisor :=
  filter (fun d => Clasificacion_eqb (clasificacion (pd_partido d)) Divisor = true)
    (imap (fun i p => {| pd_partido := p; pd_index := i |}) partidosClasificados).

End PortfolioGenerator.

(** ** PortfolioValidator *)

Inductive Tipo : Type := Core | Satelite.

(** A ticket object of the portfolio, with the fields the validator reads and
    its kind.  [prob_11_plus] holds a number, for which [q.prob_11_plus || 0]
    is the field itself. *)
Record QuinielaObj : Type := {
  tipo : Tipo;
  resultados : Quiniela;
  prob_11_plus : Q
}.

(** What the template of a concentration message is filled with:
    [`Partido ${partidoIdx + 1}: ${(maxConcentracion * 100).toFixed(0)}% en
    '${resultadoConcentrado}' (límite: ${(limiteAplicable * 100).toFixed(0)}%)`]. *)
Record Concentracion : Type := {
  partido_numero : nat;
  maxConcentracion : Q;
  resultadoConcentrado : Resultado;
  limiteAplicable : Q
}.

Inductive Mensaje : Type :=
| ConcentracionPartido (c : Concentracion)
  (** one entry of [concentracionesProblematicas], pushed as it is *)
| MultiplesViolaciones (cs : list Concentracion)
  (** [`Múltiples violaciones de concentración: ${cs.join(', ')}`] *).

(** The entries of [validacion.metricas] that [calcularMetricas] writes. *)
Record Metricas : Type := {
  prob_11_plus_promedio : option Q;
  prob_11_plus_max : option Q;
  prob_11_plus_min : option Q;
  prob_portafolio_11_plus : option Q;
  costo_total : option Q;
  eficiencia : option Q
}.

Record Validacion : Type := {
  es_valido : bool;
  warnings : list Mensaje;
  errores : list Mensaje;
  metricas : Metricas
}.

Module PortfolioValidator.

Definition metricas_vacias : Metricas :=
  {| prob_11_plus_promedio := None; prob_11_plus_max := None;
     prob_11_plus_min := None; prob_portafolio_11_plus := None;
     costo_total := None; eficiencia := None |}.

(** [{ es_valido: true, warnings: [], errores: [], metricas: {} }] *)
Definition validacion_inicial : Validacion :=
  {| es_valido := true; warnings := []; errores := [];
     metricas := metricas_vacias |}.

(** The object [conteos], keys [L], [E], [V] in this order. *)
Record Conteos : Type := { cL : nat; cE : nat; cV : nat }.

Definition conteo_de (c : Conteos) (r : Resultado) : nat :=
  match r with L => cL c | E => cE c | V => cV c end.

Definition incrementar (c : Conteos) (r : Resultado) : Conteos :=
  match r with
  | L => {| cL := S (cL c); cE := cE c; cV := cV c |}
  | E => {| cL := cL c; cE := S (cE c); cV := cV c |}
  | V => {| cL := cL c; cE := cE c; cV := S (cV c) |}
  end.

(** The inner loop over the tickets, for the slot [partidoIdx]. *)
Definition contar (quinielas : list QuinielaObj) (partidoIdx : nat) : Conteos :=
  fold_left
    (fun conteos quiniela =>
       match resultados quiniela !! partidoIdx with
       | Some r => incrementar conteos r
       | None => conteos
       end)
    quinielas {| cL := 0; cE := 0; cV := 0 |}.

Definition de_nat (n : nat) : Q := inject_Z (Z.of_nat n).

(** One iteration of the loop over the 14 slots: the entry pushed on
    [concentracionesProblematicas], if any. *)
Definition concentracionDe (quinielas : list QuinielaObj) (partidoIdx : nat)
  : option Concentracion :=
  let numQuinielas := length quinielas in
  let conteos := contar quinielas partidoIdx in
  let maxConc :=
    de_nat (Nat.max (Nat.max (cL conteos) (cE conteos)) (cV conteos))
    / de_nat numQuinielas in
  let limite :=
    if (partidoIdx <? 3)%nat then CONCENTRACION_MAX_INICIAL
    else CONCENTRACION_MAX_GENERAL in
  if mayor maxConc limite then
    let concentrado :=
      fold_left
        (fun a b => if (conteo_de conteos b <? conteo_de conteos a)%nat
                    then a else b)
        [E; V] L in
    Some {| partido_numero := partidoIdx + 1;
            maxConcentracion := maxConc;
            resultadoConcentrado := concentrado;
            limiteAplicable := limite |}
  else None.

Definition concentracionesProblematicas (quinielas : list QuinielaObj)
  : list Concentracion :=
  omap (concentracionDe quinielas) (seq 0 14).

Definition validarConcentracion (quinielas : list QuinielaObj)
    (validacion : Validacion) : Validacion :=
  if (length quinielas =? 0)%nat then validacion
  else
    let problematicas := concentracionesProblematicas quinielas in
    if (0 <? length problematicas)%nat then
      if (3 <? length problematicas)%nat then
        {| es_valido := es_valido validacion;
           warnings := warnings validacion;
           errores := errores validacion
                      ++ [MultiplesViolaciones (take 3 problematicas)];
           metricas := metricas validacion |}
      else
        {| es_valido := es_valido validacion;
           warnings := warnings validacion
                       ++ map ConcentracionPartido problematicas;
           errores := errores validacion;
           metricas := metricas validacion |}
    else validacion.

(** [probs11Plus.reduce((acc, prob) => acc * (1 - prob), 1)] *)
Definition ningunAcierto (probs11Plus : list Q) : Q :=
  fold_left (fun acc prob => acc * (1 - prob)) probs11Plus 1.

Definition calcularMetricas (quinielas : list QuinielaObj)
    (validacion : Validacion) : Validacion :=
  match map prob_11_plus quinielas with
  | [] => validacion
  | p :: ps =>
      let probs11Plus := p :: ps in
      let probPortafolio := 1 - ningunAcierto probs11Plus in
      let costoTotal := de_nat (length quinielas) * 15 in
      {| es_valido := es_valido validacion;
         warnings := warnings validacion;
         errores := errores validacion;
         metricas :=
           {| prob_11_plus_promedio :=
                Some (fold_left Qplus probs11Plus 0
                      / de_nat (length probs11Plus));
              prob_11_plus_max := Some (fold_left Qmax ps p);
              prob_11_plus_min := Some (fold_left Qmin ps p);
              prob_portafolio_11_plus := Some probPortafolio;
              costo_total := Some costoTotal;
              eficiencia := Some (probPortafolio / (costoTotal / 1000)) |} |}
  end.

End PortfolioValidator.

(** ** PortfolioGenerator: the methods that draw samples and the ticket objects

    A method that calls [Math.random()] takes the source [azar] and the number
    [k] of samples drawn before the call, and returns the number drawn after
    it. *)

(** The shares of the three outcomes in a ticket. *)
Record Distribucion : Type := {
  dist_L : numero;
  dist_E : numero;
  dist_V : numero
}.

(** What the template of an identifier is filled with: [`Core-${n}`],
    [`Sat-${n}A`], [`Sat-${n}B`] and [`Sat-${n}`]. *)
Inductive IdQuiniela : Type :=
| IdCore (n : nat)
| IdSatA (n : nat)
| IdSatB (n : nat)
| IdSat (n : nat).

(** A ticket object as the generator builds it. *)
Record QuinielaGenerada : Type := {
  gen_id : IdQuiniela;
  gen_quiniela : QuinielaObj;
  gen_empates : nat;
  distribucion : Distribucion;
  par_id : option nat
}.

Module Generacion.
Import MatchClassifier PortfolioGenerator.

(** [[shuffled[i], shuffled[j]] = [shuffled[j], shuffled[i]]]: the right-hand
    side is read first, then [shuffled[i]] and [shuffled[j]] are written in
    this order.  Both positions are inside the bounds for a sample in [0, 1);
    otherwise the list is left as it is. *)
Definition intercambiar {A} (i j : nat) (shuffled : list A) : list A :=
  match shuffled !! i, shuffled !! j with
  | Some a, Some b => <[j:=a]> (<[i:=b]> shuffled)
  | _, _ => shuffled
  end.

(** [Math.floor(Math.random() * (i + 1))] *)
Definition indiceAleatorio (muestra : Q) (i : nat) : nat :=
  Z.to_nat (Qfloor (muestra * inject_Z (Z.of_nat (i + 1)))).

(** [for (let i = ...; i > 0; i--)] of [shuffleArray], from [i] down. *)
Fixpoint shuffle_desde {A} (azar : nat -> Q) (i k : nat) (shuffled : list A)
  : list A * nat :=
  match i with
  | 0%nat => (shuffled, k)
  | S i' =>
      let j := indiceAleatorio (azar k) i in
      shuffle_desde azar i' (S k) (intercambiar i j shuffled)
  end.

Definition shuffleArray {A} (array : list A) (azar : nat -> Q) (k : nat)
  : list A * nat :=
  shuffle_desde azar (length array - 1) k array.

(** The positions of the matches that are not Ancla, from position [i]. *)
Fixpoint noAnclas (i : nat) (partidosClasificados : list PartidoClasificado)
  : list nat :=
  match partidosClasificados with
  | [] => []
  | partido :: resto =>
      if Clasificacion_eqb (clasificacion partido) Ancla
      then noAnclas (S i) resto
      else i :: noAnclas (S i) resto
  end.

(** [quinielaVariada[idx] = this.getResultadoAlternativo(partidosClasificados[idx])]
    for each [idx] of [indicesCambio].  The ticket has a slot for each match in
    every call of the source, so that the assignment is inside the bounds. *)
Definition cambiar (partidosClasificados : list PartidoClasificado)
    (indicesCambio : list nat) (quiniela : Quiniela) : Quiniela :=
  fold_left
    (fun q idx =>
       match (partidosClasificados !! idx : option PartidoClasificado) with
       | Some partido => <[idx := getResultadoAlternativo partido]> q
       | None => q
       end) indicesCambio quiniela.

Definition aplicarVariacion (quiniela : Quiniela)
    (partidosClasificados : list PartidoClasificado) (variacion : nat)
    (azar : nat -> Q) (k : nat) : Quiniela * nat :=
  let candidatos := noAnclas 0 partidosClasificados in
  let numCambios := Nat.min (2 + variacion) (length candidatos) in
  let '(shuffled, k') := shuffleArray candidatos azar k in
  let indicesCambio := take numCambios shuffled in
  (cambiar partidosClasificados indicesCambio quiniela, k').

(** [calcularDistribucion]: the divisions by the length of the ticket. *)
Definition cuenta (r : Resultado) (quiniela : Quiniela) : nat :=
  length (filter (fun x => Resultado_eqb x r = true) quiniela).

Definition calcularDistribucion (quiniela : Quiniela) : Distribucion :=
  let total := inject_Z (Z.of_nat (length quiniela)) in
  {| dist_L := dividir (inject_Z (Z.of_nat (cuenta L quiniela))) total;
     dist_E := dividir (inject_Z (Z.of_nat (cuenta E quiniela))) total;
     dist_V := dividir (inject_Z (Z.of_nat (cuenta V quiniela))) total |}.

(** One simulation of [calcularProb11Plus], from slot [i]: the number of hits
    and the samples drawn.  [partidosClasificados[i]] is read, and its
    probability, before the sample is drawn. *)
Fixpoint aciertosDesde (partidosClasificados : list PartidoClasificado)
    (azar : nat -> Q) (i k : nat) (quiniela : Quiniela)
  : resultado_js (nat * nat) :=
  match quiniela with
  | [] => Devuelve (0%nat, k)
  | resultado :: resto =>
      match (partidosClasificados !! i : option PartidoClasificado) with
      | None => Lanza TypeError
      | Some partido =>
          let prob := prob_de partido resultado in
          ak ← aciertosDesde partidosClasificados azar (S i) (S k) resto;
          Devuelve ((if menor (azar k) prob then S ak.1 else ak.1), ak.2)
      end
  end.

(** [sims] simulations: how many reach 11 hits. *)
Fixpoint simulaciones (sims : nat)
    (partidosClasificados : list PartidoClasificado) (azar : nat -> Q) (k : nat)
    (quiniela : Quiniela) : resultado_js (nat * nat) :=
  match sims with
  | 0%nat => Devuelve (0%nat, k)
  | S sims' =>
      ak ← aciertosDesde partidosClasificados azar 0 k quiniela;
      ck ← simulaciones sims' partidosClasificados azar ak.2 quiniela;
      Devuelve ((if (11 <=? ak.1)%nat then S ck.1 else ck.1), ck.2)
  end.

Definition numSimulaciones : nat := 1000.

Definition calcularProb11Plus (quiniela : Quiniela)
    (partidosClasificados : list PartidoClasificado) (azar : nat -> Q) (k : nat)
  : resultado_js (Q * nat) :=
  ck ← simulaciones numSimulaciones partidosClasificados azar k quiniela;
  Devuelve (inject_Z (Z.of_nat ck.1) / inject_Z (Z.of_nat numSimulaciones), ck.2).

(** The object literal shared by the three ticket builders: the adjusted
    ticket, its draws, its estimate and its shares. *)
Definition construir (ident : IdQuiniela) (t : Tipo) (par : option nat)
    (quiniela : Quiniela) (partidosClasificados : list PartidoClasificado)
    (azar : nat -> Q) (k : nat) : resultado_js (QuinielaGenerada * nat) :=
  pk ← calcularProb11Plus quiniela partidosClasificados azar k;
  Devuelve ({| gen_id := ident;
               gen_quiniela := {| tipo := t; resultados := quiniela;
                                  prob_11_plus := pk.1 |};
               gen_empates := empates quiniela;
               distribucion := calcularDistribucion quiniela;
               par_id := par |}, pk.2).

(** The loop of [generateCoreQuinielas] from [i], with [faltan] tickets to
    build. *)
Fixpoint generarCoreDesde (faltan i : nat)
    (partidosClasificados : list PartidoClasificado) (azar : nat -> Q) (k : nat)
  : resultado_js (list QuinielaGenerada * nat) :=
  match faltan with
  | 0%nat => Devuelve ([], k)
  | S faltan' =>
      let quiniela := crearQuinielaBase partidosClasificados in
      let '(quiniela, k1) :=
        if (0 <? i)%nat
        then aplicarVariacion quiniela partidosClasificados i azar k
        else (quiniela, k) in
      quiniela ← ajustarEmpates quiniela partidosClasificados;
      qk ← construir (IdCore (i + 1)) Core None quiniela partidosClasificados
             azar k1;
      rk ← generarCoreDesde faltan' (S i) partidosClasificados azar qk.2;
      Devuelve (qk.1 :: rk.1, rk.2)
  end.

Definition generateCoreQuinielas (partidosClasificados : list PartidoClasificado)
    (azar : nat -> Q) (k : nat) : resultado_js (list QuinielaGenerada * nat) :=
  generarCoreDesde 4 0 partidosClasificados azar k.

(** The loop of [crearSateliteIndividual] from position [i]. *)
Fixpoint variarDesde (azar : nat -> Q) (i k : nat)
    (partidosClasificados : list PartidoClasificado) (quiniela : Quiniela)
  : Quiniela * nat :=
  match partidosClasificados with
  | [] => (quiniela, k)
  | partido :: resto =>
      if negb (Clasificacion_eqb (clasificacion partido) Ancla)
      then if menor (azar k) 0.4
           then variarDesde azar (S i) (S k) resto
                  (<[i := getResultadoAlternativo partido]> quiniela)
           else variarDesde azar (S i) (S k) resto quiniela
      else variarDesde azar (S i) k resto quiniela
  end.

Definition crearSateliteIndividual
    (partidosClasificados : list PartidoClasificado) (sateliteId : nat)
    (azar : nat -> Q) (k : nat) : resultado_js (QuinielaGenerada * nat) :=
  let quiniela := crearQuinielaBase partidosClasificados in
  let '(quiniela, k1) := variarDesde azar 0 k partidosClasificados quiniela in
  quiniela ← ajustarEmpates quiniela partidosClasificados;
  construir (IdSat (sateliteId + 1)) Satelite None quiniela
    partidosClasificados azar k1.

(** [crearParSatelites] with the objects it returns: the two adjusted tickets
    of [PortfolioGenerator.crearParSatelites], read from the sample [k] on,
    then the metrics of [satA] and of [satB]. *)
Definition crearParSatelitesObj (partidosClasificados : list PartidoClasificado)
    (partidosDivisor : list PartidoDivisor) (parId : nat)
    (azar : nat -> Q) (k : nat)
  : resultado_js (QuinielaGenerada * QuinielaGenerada * nat) :=
  let azar_k := fun n => azar (k + n)%nat in
  ab ← crearParSatelites partidosClasificados partidosDivisor parId azar_k;
  let k1 := (k + (parSatelites_desde (partidoPrincipal partidosDivisor parId)
                    azar_k 0 0 partidosClasificados).2)%nat in
  ak ← construir (IdSatA (parId * 2 + 1)) Satelite (Some parId) ab.1
         partidosClasificados azar k1;
  bk ← construir (IdSatB (parId * 2 + 1)) Satelite (Some parId) ab.2
         partidosClasificados azar ak.2;
  Devuelve (ak.1, bk.1, bk.2).

(** The loop over the pairs of [generateSatelliteQuinielas], from pair [par]. *)
Fixpoint paresDesde (faltan par : nat)
    (partidosClasificados : list PartidoClasificado)
    (partidosDivisor : list PartidoDivisor) (azar : nat -> Q) (k : nat)
  : resultado_js (list QuinielaGenerada * nat) :=
  match faltan with
  | 0%nat => Devuelve ([], k)
  | S faltan' =>
      abk ← crearParSatelitesObj partidosClasificados partidosDivisor par azar k;
      rk ← paresDesde faltan' (S par) partidosClasificados partidosDivisor
             azar abk.2;
      Devuelve (abk.1.1 :: abk.1.2 :: rk.1, rk.2)
  end.

(** [quinielasCore] is not read by the source. *)
Definition generateSatelliteQuinielas
    (partidosClasificados : list PartidoClasificado)
    (quinielasCore : list QuinielaGenerada) (numSatelites : nat)
    (azar : nat -> Q) (k : nat) : resultado_js (list QuinielaGenerada * nat) :=
  let numPares := (numSatelites / 2)%nat in
  let partidosDivisor := partidosDivisorDe partidosClasificados in
  sk ← paresDesde numPares 0 partidosClasificados partidosDivisor azar k;
  if (numSatelites mod 2 =? 1)%nat then
    ek ← crearSateliteIndividual partidosClasificados (length sk.1) azar sk.2;
    Devuelve (sk.1 ++ [ek.1], ek.2)
  else Devuelve sk.

End Generacion.

(** ** PortfolioValidator: the whole report

    The report of [validatePortfolio] with the messages and the metrics of all
    four checks.  [Validacion] above is the part of it that the concentration
    check and [calcularMetricas] read and write. *)

Inductive Limite : Type := Minimo | Maximo.

(** What the template of an entry of [quinielasProblematicas] is filled with:
    [`Q-${i + 1}: ${empates} empates (mínimo ${EMPATES_MIN})`], or the same
    with [máximo] and [EMPATES_MAX]. *)
Record FueraDeRango : Type := {
  fr_numero : nat;
  fr_empates : nat;
  fr_limite : Limite
}.

Inductive Aviso : Type :=
| SinQuinielas
  (** ["No hay quinielas en el portafolio"] *)
| DistribucionFuera (resultado : Resultado) (proporcion : Q) (lado : Limite)
    (grave : bool)
  (** [`Distribución ${resultado}: ...`]: under the minimum or over the
      maximum, and by more than 0.03 ([muy por debajo], [muy por encima]) or
      not ([ligeramente bajo], [ligeramente alto]) *)
| EmpatesFuera (f : FueraDeRango)
  (** one entry of [quinielasProblematicas], pushed as it is *)
| MuchasFuera (fs : list FueraDeRango)
  (** [`Muchas quinielas fuera del rango de empates: ${fs.join(', ')}`] *)
| DeConcentracion (m : Mensaje)
  (** a message of the concentration check *)
| DemasiadasAdvertencias
  (** ["Demasiadas advertencias en la validación"] *).

(** [[Math.min(...xs), Math.max(...xs)]]; of no number it is
    [[Infinity, -Infinity]]. *)
Inductive Rango : Type :=
| RangoDe (minimo maximo : nat)
| RangoVacio.

Record MetricasInforme : Type := {
  distribucion_global : option (numero * numero * numero);
  empates_promedio : option numero;
  empates_rango : option Rango;
  otras_metricas : Metricas
}.

Record Informe : Type := {
  inf_es_valido : bool;
  inf_warnings : list Aviso;
  inf_errores : list Aviso;
  inf_metricas : MetricasInforme
}.

Module Informes.
Import PortfolioValidator.

Definition RANGOS_HISTORICOS (resultado : Resultado) : Q * Q :=
  match resultado with
  | L => (0.35, 0.41)
  | E => (0.25, 0.33)
  | V => (0.30, 0.36)
  end.

(** [{ es_valido: true, warnings: [], errores: [], metricas: {} }] *)
Definition informe_inicial : Informe :=
  {| inf_es_valido := true; inf_warnings := []; inf_errores := [];
     inf_metricas := {| distribucion_global := None; empates_promedio := None;
                        empates_rango := None;
                        otras_metricas := metricas_vacias |} |}.

Definition conError (a : Aviso) (validacion : Informe) : Informe :=
  {| inf_es_valido := inf_es_valido validacion;
     inf_warnings := inf_warnings validacion;
     inf_errores := inf_errores validacion ++ [a];
     inf_metricas := inf_metricas validacion |}.

Definition conWarnings (ws : list Aviso) (validacion : Informe) : Informe :=
  {| inf_es_valido := inf_es_valido validacion;
     inf_warnings := inf_warnings validacion ++ ws;
     inf_errores := inf_errores validacion;
     inf_metricas := inf_metricas validacion |}.

(** The two nested loops of [validarDistribucionGlobal]: [conteos[resultado]++]
    for each outcome of each ticket. *)
Definition contarTodos (quinielas : list QuinielaObj) : Conteos :=
  fold_left (fun conteos quiniela => fold_left incrementar (resultados quiniela) conteos)
    quinielas {| cL := 0; cE := 0; cV := 0 |}.

(** One iteration of the loop over [Object.entries(distribucionGlobal)].  A
    share that is not finite is the NaN of a portfolio without tickets, for
    which both comparisons are false.  The comparisons are on exact values: for
    a share at exactly 0.03 from its bound the rounded difference of the
    source can fall on the other side of the threshold. *)
Definition revisarProporcion (resultado : Resultado) (proporcion : numero)
    (validacion : Informe) : Informe :=
  match proporcion with
  | NoFinito => validacion
  | Finito proporcion =>
      let '(minVal, maxVal) := RANGOS_HISTORICOS resultado in
      if menor proporcion minVal then
        let diferencia := minVal - proporcion in
        if mayor diferencia 0.03
        then conError (DistribucionFuera resultado proporcion Minimo true)
               validacion
        else conWarnings [DistribucionFuera resultado proporcion Minimo false]
               validacion
      else if mayor proporcion maxVal then
        let diferencia := proporcion - maxVal in
        if mayor diferencia 0.03
        then conError (DistribucionFuera resultado proporcion Maximo true)
               validacion
        else conWarnings [DistribucionFuera resultado proporcion Maximo false]
               validacion
      else validacion
  end.

Definition validarDistribucionGlobal (quinielas : list QuinielaObj)
    (validacion : Informe) : Informe :=
  let totalPredicciones := de_nat (length quinielas) * 14 in
  let conteos := contarTodos quinielas in
  let dL := dividir (de_nat (cL conteos)) totalPredicciones in
  let dE := dividir (de_nat (cE conteos)) totalPredicciones in
  let dV := dividir (de_nat (cV conteos)) totalPredicciones in
  let validacion :=
    {| inf_es_valido := inf_es_valido validacion;
       inf_warnings := inf_warnings validacion;
       inf_errores := inf_errores validacion;
       inf_metricas :=
         {| distribucion_global := Some (dL, dE, dV);
            empates_promedio := empates_promedio (inf_metricas validacion);
            empates_rango := empates_rango (inf_metricas validacion);
            otras_metricas := otras_metricas (inf_metricas validacion) |} |} in
  revisarProporcion V dV
    (revisarProporcion E dE (revisarProporcion L dL validacion)).

(** The entries of [quinielasProblematicas], from the ticket at position
    [i]. *)
Fixpoint problematicasDesde (i : nat) (quinielas : list QuinielaObj)
  : list FueraDeRango :=
  match quinielas with
  | [] => []
  | quiniela :: resto =>
      let e := empates (resultados quiniela) in
      if (e <? EMPATES_MIN)%nat then
        {| fr_numero := i + 1; fr_empates := e; fr_limite := Minimo |}
        :: problematicasDesde (S i) resto
      else if (EMPATES_MAX <? e)%nat then
        {| fr_numero := i + 1; fr_empates := e; fr_limite := Maximo |}
        :: problematicasDesde (S i) resto
      else problematicasDesde (S i) resto
  end.

Definition rangoDe (empatesPorQuiniela : list nat) : Rango :=
  match empatesPorQuiniela with
  | [] => RangoVacio
  | x :: xs => RangoDe (fold_left Nat.min xs x) (fold_left Nat.max xs x)
  end.

Definition validarEmpatesIndividuales (quinielas : list QuinielaObj)
    (validacion : Informe) : Informe :=
  let empatesPorQuiniela := map (fun q => empates (resultados q)) quinielas in
  let quinielasProblematicas := problematicasDesde 0 quinielas in
  let validacion :=
    {| inf_es_valido := inf_es_valido validacion;
       inf_warnings := inf_warnings validacion;
       inf_errores := inf_errores validacion;
       inf_metricas :=
         {| distribucion_global := distribucion_global (inf_metricas validacion);
            empates_promedio :=
              Some (dividir (de_nat (fold_left Nat.add empatesPorQuiniela 0%nat))
                      (de_nat (length empatesPorQuiniela)));
            empates_rango := Some (rangoDe empatesPorQuiniela);
            otras_metricas := otras_metricas (inf_metricas validacion) |} |} in
  if (0 <? length quinielasProblematicas)%nat then
    if mayor (de_nat (length quinielasProblematicas))
         (de_nat (length quinielas) * 0.1)
    then conError (MuchasFuera (take 5 quinielasProblematicas)) validacion
    else conWarnings (EmpatesFuera <$> quinielasProblematicas) validacion
  else validacion.

(** The part of the report that the concentration check and
    [calcularMetricas] work on. *)
Definition parteDe (validacion : Informe) : Validacion :=
  {| es_valido := inf_es_valido validacion;
     warnings := [];
     errores := [];
     metricas := otras_metricas (inf_metricas validacion) |}.

(** [validarConcentracion] on the whole report: the messages it pushes come
    after those that the report holds. *)
Definition validarConcentracionInforme (quinielas : list QuinielaObj)
    (validacion : Informe) : Informe :=
  let v := validarConcentracion quinielas (parteDe validacion) in
  {| inf_es_valido := es_valido v;
     inf_warnings := inf_warnings validacion ++ (DeConcentracion <$> warnings v);
     inf_errores := inf_errores validacion ++ (DeConcentracion <$> errores v);
     inf_metricas := inf_metricas validacion |}.

(** [calcularMetricas] on the whole report. *)
Definition calcularMetricasInforme (quinielas : list QuinielaObj)
    (validacion : Informe) : Informe :=
  let v := calcularMetricas quinielas (parteDe validacion) in
  {| inf_es_valido := es_valido v;
     inf_warnings := inf_warnings validacion;
     inf_errores := inf_errores validacion;
     inf_metricas :=
       {| distribucion_global := distribucion_global (inf_metricas validacion);
          empates_promedio := empates_promedio (inf_metricas validacion);
          empates_rango := empates_rango (inf_metricas validacion);
          otras_metricas := metricas v |} |}.

(** [validatePortfolio] on an array; [!quinielas] is false for it. *)
Definition validatePortfolio (quinielas : list QuinielaObj) : Informe :=
  let validacion := informe_inicial in
  if (length quinielas =? 0)%nat then
    {| inf_es_valido := false;
       inf_warnings := inf_warnings validacion;
       inf_errores := inf_errores validacion ++ [SinQuinielas];
       inf_metricas := inf_metricas validacion |}
  else
    let validacion := validarDistribucionGlobal quinielas validacion in
    let validacion := validarEmpatesIndividuales quinielas validacion in
    let validacion := validarConcentracionInforme quinielas validacion in
    let validacion := calcularMetricasInforme quinielas validacion in
    if (0 <? length (inf_errores validacion))%nat then
      {| inf_es_valido := false;
         inf_warnings := inf_warnings validacion;
         inf_errores := inf_errores validacion;
         inf_metricas := inf_metricas validacion |}
    else if (3 <? length (inf_warnings validacion))%nat then
      {| inf_es_valido := false;
         inf_warnings := inf_warnings validacion;
         inf_errores := inf_errores validacion ++ [DemasiadasAdvertencias];
         inf_metricas := inf_metricas validacion |}
    else validacion.

End Informes.

(** ** Binary64

    The metric of the portfolio over the kernel's binary64 numbers, operation
    for operation as the source evaluates it.  The estimates that
    [calcularProb11Plus] returns are the quotients of a count by 1000. *)
Module Binary64.
Import PrimFloat.
Local Open Scope float_scope.

(** A count as a JavaScript number. *)
Fixpoint de_nat (n : nat) : float :=
  match n with
  | 0%nat => 0
  | S n' => de_nat n' + 1
  end.


(** [probs11Plus.reduce((acc, prob) => acc * (1 - prob), 1)] *)
Definition ningunAcierto (probs11Plus : list float) : float :=
  fold_left (fun acc prob => acc * (1 - prob)) probs11Plus 1.

(** [1 - probs11Plus.reduce((acc, prob) => acc * (1 - prob), 1)] *)
Definition probPortafolio (probs11Plus : list float) : float :=
  1 - ningunAcierto probs11Plus.



End Binary64.

(** * Vocabulary of the properties *)

(** The position of a key in [Object.keys(probs)]. *)
Definition posicion (r : Resultado) : nat :=
  match r with L => 0 | E => 1 | V => 2 end.

(** [r] carries the largest of the three probabilities of [p]. *)
Definition es_maximo (p : Probs) (r : Resultado) : Prop :=
  forall r', prob_de p r' <= prob_de p r.

(** The draw-leaning test of the classifier, in the words of the
    specification: the draw exceeds the threshold and is at least each of
    the other two probabilities. *)
Definition tiende_empate (p : Probs) : Prop :=
  0.30 < prob_empate p /\
  prob_local p <= prob_empate p /\ prob_visitante p <= prob_empate p.

(** The sum of the three raw probabilities of a match. *)
Definition suma (p : Probs) : Q := prob_local p + prob_empate p + prob_visitante p.

(** The draw count is within the admitted range. *)
Definition en_rango (quiniela : Quiniela) : Prop :=
  (EMPATES_MIN <= empates quiniela /\ empates quiniela <= EMPATES_MAX)%nat.

(** One outcome is strictly more probable than the other two. *)
Definition maximo_unico (p : Probs) : Prop :=
  exists r, forall r', r' <> r -> prob_de p r' < prob_de p r.

(** The base ticket in the words of the specification: a TendenciaEmpate match
    is forced to a draw when the draws among the slots filled so far,
    [previos], are fewer than EMPATES_MAX. *)
Fixpoint base_especificada (previos : Quiniela)
    (partidosClasificados : list PartidoClasificado) : Quiniela :=
  match partidosClasificados with
  | [] => []
  | partido :: resto =>
      let resultado :=
        if Clasificacion_eqb (clasificacion partido) Ancla
        then resultadoSugerido partido
        else if Clasificacion_eqb (clasificacion partido) TendenciaEmpate
                && (empates previos <? EMPATES_MAX)%nat
        then E
        else resultadoSugerido partido in
      resultado :: base_especificada (previos ++ [resultado]) resto
  end.



(** The portfolio-level metric that [calcularMetricas] stores. *)
Definition probPortafolio (quinielas : list QuinielaObj) (validacion : Validacion)
  : option Q :=
  prob_portafolio_11_plus
    (metricas (PortfolioValidator.calcularMetricas quinielas validacion)).

(** A slot that the add path of the draw adjustment may turn into a draw: it
    is not a draw and its match has a calibrated draw probability above
    0.20. *)
Definition candidato_a_empate (r : Resultado) (p : PartidoClasificado) : bool :=
  negb (Resultado_eqb r E) && mayor (prob_empate p) 0.20.

(** How many such slots a ticket has. *)
Definition disponibles (quiniela : Quiniela)
    (partidosClasificados : list PartidoClasificado) : nat :=
  length (filter (fun rp => candidato_a_empate rp.1 rp.2 = true)
            (zip quiniela partidosClasificados)).

(** The add path of the draw adjustment of [quiniela] leaves a slot of outcome
    [r] and match [p] as it is: draws are not missing, or the slot holds a
    draw, or the draw probability of its match is at most 0.20. *)
Definition sin_agregar (quiniela : Quiniela) (r : Resultado)
    (p : PartidoClasificado) : Prop :=
  (empates quiniela < EMPATES_MIN)%nat -> r = E \/ prob_empate p <= 0.20.

(** The remove path leaves the slot as it is: draws are not in excess, or the
    slot holds no draw, or the suggested outcome of its match is the draw. *)
Definition sin_quitar (quiniela : Quiniela) (r : Resultado)
    (p : PartidoClasificado) : Prop :=
  (EMPATES_MAX < empates quiniela)%nat -> r <> E \/ resultadoSugerido p = E.

(** The draw adjustment of [quiniela] leaves the slot as it is. *)
Definition fijo (quiniela : Quiniela) (r : Resultado) (p : PartidoClasificado)
  : Prop :=
  sin_agregar quiniela r p /\ sin_quitar quiniela r p.

(** The positions of the Divisor matches, in increasing order, from
    position [i]. *)
Fixpoint posicionesDivisor (i : nat) (partidosClasificados : list PartidoClasificado)
  : list nat :=
  match partidosClasificados with
  | [] => []
  | partido :: resto =>
      if Clasificacion_eqb (clasificacion partido) Divisor
      then i :: posicionesDivisor (S i) resto
      else posicionesDivisor (S i) resto
  end.

(** Exactly two outcomes share the largest probability. *)
Definition dos_maximos (p : Probs) : Prop :=
  exists r1 r2 r3,
    r1 <> r2 /\ prob_de p r1 == prob_de p r2 /\ prob_de p r3 < prob_de p r1.

(** The slots of a ticket that hold a draw although the suggested outcome of
    their match is not the draw. *)
Definition forzados (quiniela : Quiniela)
    (partidosClasificados : list PartidoClasificado) : nat :=
  length (filter (fun rp => Resultado_eqb rp.1 E
                            && negb (Resultado_eqb (resultadoSugerido rp.2) E)
                            = true)
            (zip quiniela partidosClasificados)).

(** Every sample of the source is one that [Math.random()] can return. *)
Definition muestras_validas (azar : nat -> Q) : Prop :=
  forall k, 0 <= azar k /\ azar k < 1.

(** The number of slots at which two tickets differ. *)
Fixpoint cambios (q q' : Quiniela) : nat :=
  match q, q' with
  | a :: q, b :: q' => ((if Resultado_eqb a b then 0 else 1) + cambios q q')%nat
  | _, _ => 0%nat
  end.

(** A ticket object of kind [t] with [n] slots whose derived fields agree with
    its outcomes and whose estimate is a frequency. *)
Definition boleto_de (t : Tipo) (n : nat) (g : QuinielaGenerada) : Prop :=
  tipo (gen_quiniela g) = t /\
  length (resultados (gen_quiniela g)) = n /\
  gen_empates g = empates (resultados (gen_quiniela g)) /\
  distribucion g = Generacion.calcularDistribucion (resultados (gen_quiniela g)) /\
  0 <= prob_11_plus (gen_quiniela g) <= 1.

Section VocabularioInforme.
Import PortfolioValidator Informes.

(** What a check does to the report: it keeps the flag and appends
    messages. *)
Definition agrega (antes despues : Informe) (ws es : list Aviso) : Prop :=
  inf_es_valido despues = inf_es_valido antes /\
  inf_warnings despues = inf_warnings antes ++ ws /\
  inf_errores despues = inf_errores antes ++ es.

(** The message of one share, if any. *)
Definition avisoDe (resultado : Resultado) (proporcion : numero)
  : list Aviso * list Aviso :=
  match proporcion with
  | NoFinito => ([], [])
  | Finito p =>
      if menor p (RANGOS_HISTORICOS resultado).1 then
        if mayor ((RANGOS_HISTORICOS resultado).1 - p) 0.03
        then ([], [DistribucionFuera resultado p Minimo true])
        else ([DistribucionFuera resultado p Minimo false], [])
      else if mayor p (RANGOS_HISTORICOS resultado).2 then
        if mayor (p - (RANGOS_HISTORICOS resultado).2) 0.03
        then ([], [DistribucionFuera resultado p Maximo true])
        else ([DistribucionFuera resultado p Maximo false], [])
      else ([], [])
  end.

(** The shares that [validarDistribucionGlobal] computes. *)
Definition proporcionGlobal (quinielas : list QuinielaObj) (r : Resultado)
  : numero :=
  dividir (de_nat (conteo_de (contarTodos quinielas) r))
    (de_nat (length quinielas) * 14).

Definition avisosDistribucion (quinielas : list QuinielaObj)
  : list Aviso * list Aviso :=
  let a := fun r => avisoDe r (proporcionGlobal quinielas r) in
  ((a L).1 ++ (a E).1 ++ (a V).1, (a L).2 ++ (a E).2 ++ (a V).2).

(** A ticket whose number of draws is outside the range of the
    configuration. *)
Definition fuera_de_rango (q : QuinielaObj) : bool :=
  (empates (resultados q) <? EMPATES_MIN)%nat
  || (EMPATES_MAX <? empates (resultados q))%nat.

(** The share of an outcome among [14] predictions per ticket. *)
Definition proporcionDe (quinielas : list QuinielaObj) (r : Resultado) : Q :=
  de_nat (conteo_de (contarTodos quinielas) r) / (de_nat (length quinielas) * 14).

(** The number of slots of all the tickets. *)
Definition casillas (quinielas : list QuinielaObj) : nat :=
  list_sum (map (fun q => length (resultados q)) quinielas).

(** The report after the four checks, before the verdict. *)
Definition revisado (quinielas : list QuinielaObj) : Informe :=
  calcularMetricasInforme quinielas
    (validarConcentracionInforme quinielas
       (validarEmpatesIndividuales quinielas
          (validarDistribucionGlobal quinielas informe_inicial))).

End VocabularioInforme.

(** * Inputs used by the examples below *)

Definition partidoCrudo (l e v : Q) : Partido :=
  {| equipos := {| local := "Local"; visitante := "Visitante" |};
     probs := {| prob_local := l; prob_empate := e; prob_visitante := v |};
     es_final := false;
     forma_diferencia := Some 0;
     lesiones_impact := Some 0 |}.

(** The classified matches of a [classifyMatches] call that returned them. *)
Definition clasificados (partidos : list Partido) : list PartidoClasificado :=
  match MatchClassifier.classifyMatches partidos with
  | Devuelve (Some l) => l
  | _ => []
  end.

(** Local and draw tie for the maximum. *)
Definition probs_empate_LE : Probs :=
  {| prob_local := 0.4; prob_empate := 0.4; prob_visitante := 0.2 |}.

(** A raw match whose three probabilities are zero. *)
Definition partido_ceros : Partido := partidoCrudo 0 0 0.

Definition partido_parejo : Partido := partidoCrudo 0.3 0.4 0.3.

(** Fourteen matches that calibrate to (0.2, 0.4, 0.4): each is classified
    TendenciaEmpate and its suggested outcome is the visitor. *)
Definition partidos_empate_visitante : list PartidoClasificado :=
  clasificados (repeat (partidoCrudo 0.2 0.4 0.4) 14).

(** Fourteen matches whose draw is the single most probable outcome. *)
Definition partidos_parejos : list PartidoClasificado :=
  clasificados (repeat partido_parejo 14).

(** A ticket with four draws. *)
Definition quiniela_cuatro_empates : Quiniela :=
  [L; E; V; E; L; E; V; E; L; L; V; L; V; L].

(** A ticket object with the given outcomes. *)
Definition boleto (r : Quiniela) : QuinielaObj :=
  {| tipo := Core; resultados := r; prob_11_plus := 0.1 |}.

(** Twenty tickets that all pick the local win on the first slot; on each
    other slot ten pick the local win and ten the draw. *)
Definition portafolio_local_primero : list QuinielaObj :=
  repeat (boleto (L :: repeat L 13)) 10 ++ repeat (boleto (L :: repeat E 13)) 10.

(** A source of samples under which no optional divergence is taken. *)
Definition azar_medio : nat -> Q := fun _ => 0.5.

Definition partido_divisor : Partido := partidoCrudo 0.45 0.30 0.25.
Definition partido_ancla : Partido := partidoCrudo 0.7 0.25 0.05.

(** Three Divisor matches, three matches that tend to a draw and eight Ancla
    matches. *)
Definition partidos_mixtos : list PartidoClasificado :=
  clasificados (repeat partido_divisor 3 ++ repeat partido_parejo 3
                ++ repeat partido_ancla 8).

(** A portfolio of one ticket that picks the local win fourteen times. *)
Definition portafolio_un_boleto : list QuinielaObj := [boleto (repeat L 14)].

(** Ten copies of a ticket of fourteen slots that holds five draws. *)
Definition portafolio_historico : list QuinielaObj :=
  repeat (boleto [L; E; V; L; E; V; L; E; V; L; E; V; L; E]) 10.

(** One Divisor match, the pivot, followed by thirteen Ancla matches whose
    draw is less probable than the pivot's. *)
Definition partidos_pivote_y_anclas : list PartidoClasificado :=
  clasificados (partido_divisor :: repeat partido_ancla 13).

(** The same with Ancla matches whose draw is more probable than the
    pivot's. *)
Definition partidos_pivote_y_anclas_empatadoras : list PartidoClasificado :=
  clasificados (partido_divisor :: repeat (partidoCrudo 0.62 0.35 0.03) 13).

(** A Divisor pivot whose local and visitor probabilities tie for the maximum,
    five draws and eight Ancla matches. *)
Definition partidos_pivote_empatado : list PartidoClasificado :=
  clasificados (partidoCrudo 0.45 0.10 0.45
                :: repeat partido_parejo 5 ++ repeat partido_ancla 8).

(** No Divisor match: an Ancla match first, five draws and eight Ancla
    matches. *)
Definition partidos_sin_divisor : list PartidoClasificado :=
  clasificados (partido_ancla :: repeat partido_parejo 5 ++ repeat partido_ancla 8).

(** An Ancla match whose draw probability is below 0.20. *)
Definition partido_ancla_firme : Partido := partidoCrudo 0.8 0.15 0.05.

(** A Divisor pivot whose suggested and alternative outcomes are not the draw
    and whose draw probability is above 0.20, and thirteen Ancla matches of a
    draw probability below 0.20. *)
Definition partidos_pivote_sin_empate : list PartidoClasificado :=
  clasificados (partidoCrudo 0.45 0.25 0.30 :: repeat partido_ancla_firme 13).

(** No Divisor match: a match whose suggested outcome is the draw first, and
    thirteen Ancla matches of a draw probability below 0.20. *)
Definition partidos_pivote_sugiere_empate : list PartidoClasificado :=
  clasificados (partido_parejo :: repeat partido_ancla_firme 13).

(** A Divisor pivot whose alternative outcome is the draw, seven matches that
    tend to a draw and six Ancla matches. *)
Definition partidos_pivote_revertido : list PartidoClasificado :=
  clasificados (partido_divisor :: repeat partido_parejo 7 ++ repeat partido_ancla 6).

(** A Divisor pivot with a single most probable outcome, five draws and eight
    Ancla matches. *)
Definition partidos_pivote_claro : list PartidoClasificado :=
  clasificados (partido_divisor :: repeat partido_parejo 5 ++ repeat partido_ancla 8).

(** * Properties *)

(** ** Comparisons *)

Lemma mayor_spec (a b : Q) : reflect (b < a) (mayor a b).
Proof.
  unfold mayor. destruct (Qle_bool a b) eqn:H; constructor.
  - intros ?. apply Qle_bool_iff in H. lra.
  - assert (Hab : ~ a <= b) by (rewrite <- Qle_bool_iff; congruence). lra.
Qed.

Lemma mayor_igual_spec (a b : Q) : reflect (b <= a) (mayor_igual a b).
Proof.
  unfold mayor_igual. destruct (Qle_bool b a) eqn:H; constructor.
  - now apply Qle_bool_iff.
  - rewrite <- Qle_bool_iff. congruence.
Qed.

Lemma menor_spec (a b : Q) : reflect (a < b) (menor a b).
Proof. apply mayor_spec. Qed.

(** Decide every comparison of the goal and keep the order facts. *)
Ltac comparar :=
  repeat match goal with
    | |- context [mayor ?a ?b] => destruct (mayor_spec a b)
    | |- context [mayor_igual ?a ?b] => destruct (mayor_igual_spec a b)
    | |- context [menor ?a ?b] => destruct (menor_spec a b)
    end.

Lemma dividir_finito (a b : Q) : ~ b == 0 -> dividir a b = Finito (a / b).
Proof.
  intros H. unfold dividir. destruct (Qeq_bool b 0) eqn:Hb; [|reflexivity].
  apply Qeq_bool_iff in Hb. contradiction.
Qed.

Lemma dividir_cero (a b : Q) : b == 0 -> dividir a b = NoFinito.
Proof.
  intros H. unfold dividir. apply Qeq_bool_iff in H. now rewrite H.
Qed.

(** ** MatchClassifier *)
Section Clasificador.
Import MatchClassifier.

(** [maxProb] is the largest of the three probabilities. *)
Lemma maxProb_cota (p : Probs) (r : Resultado) : prob_de p r <= maxProb p.
Proof.
  unfold maxProb.
  pose proof (Q.le_max_l (Qmax (prob_local p) (prob_empate p)) (prob_visitante p)).
  pose proof (Q.le_max_r (Qmax (prob_local p) (prob_empate p)) (prob_visitante p)).
  pose proof (Q.le_max_l (prob_local p) (prob_empate p)).
  pose proof (Q.le_max_r (prob_local p) (prob_empate p)).
  destruct r; simpl; lra.
Qed.

Lemma maxProb_alcanzado (p : Probs) : exists r, prob_de p r == maxProb p.
Proof.
  unfold maxProb.
  destruct (Q.max_dec (Qmax (prob_local p) (prob_empate p)) (prob_visitante p)) as [H|H];
    [destruct (Q.max_dec (prob_local p) (prob_empate p)) as [H'|H']|].
  - exists L. simpl. now rewrite H, H'.
  - exists E. simpl. now rewrite H, H'.
  - exists V. simpl. now rewrite H.
Qed.

(** C1, counterexample.  Local and draw share the maximum 0.4 and the
    suggested outcome is the draw, the later of the two; so it is for the
    raw match (0.4, 0.4, 0.2) once classified. *)
Lemma getResultadoSugerido_empate_devuelve_posterior :
  es_maximo probs_empate_LE L /\ es_maximo probs_empate_LE E /\
  getResultadoSugerido probs_empate_LE = E /\
  resultadoSugerido <$> clasificados [partidoCrudo 0.4 0.4 0.2] = [E].
Proof.
  repeat split; try (intros []; simpl; lra).
Qed.

(** C1, as the code has it.  The suggested outcome carries the largest
    calibrated probability, and among the outcomes that share the largest
    probability it is the last one in the order L, E, V. *)
Theorem getResultadoSugerido_ultimo_maximo (p : Probs) :
  es_maximo p (getResultadoSugerido p) /\
  forall r, es_maximo p r -> (posicion r <= posicion (getResultadoSugerido p))%nat.
Proof.
  unfold getResultadoSugerido, es_maximo. simpl.
  destruct (mayor_spec (prob_local p) (prob_empate p)); simpl;
    match goal with
    | |- context [mayor ?a ?b] => destruct (mayor_spec a b)
    end; simpl; split;
    try (intros []; simpl; lra);
    intros r Hr; pose proof (Hr L); pose proof (Hr E); pose proof (Hr V);
    destruct r; simpl in *; try lia; exfalso; lra.
Qed.

Lemma clasificarPartido_maxProb (p : Probs) :
  (clasificarPartido p = Ancla <-> 0.60 < maxProb p) /\
  (clasificarPartido p = TendenciaEmpate <->
     ~ 0.60 < maxProb p /\ tiende_empate p) /\
  (clasificarPartido p = Divisor <->
     ~ 0.60 < maxProb p /\ ~ tiende_empate p /\
     0.40 <= maxProb p /\ maxProb p < 0.60) /\
  (clasificarPartido p = Neutro <->
     ~ 0.60 < maxProb p /\ ~ tiende_empate p /\
     ~ (0.40 <= maxProb p /\ maxProb p < 0.60)).
Proof.
  unfold clasificarPartido, tiende_empate, umbralAncla, umbralEmpate,
    umbralDivisorMin, umbralDivisorMax.
  pose proof (Q.max_lub_iff (prob_local p) (prob_visitante p) (prob_empate p)) as Hm.
  comparar; simpl; repeat split; try congruence; try tauto; intros; tauto.
Qed.

(** C8.  Let [r] be an outcome that carries the largest of the three
    probabilities.  The category is decided in this order: Ancla when the
    probability of [r] exceeds 0.60; otherwise TendenciaEmpate when the draw
    exceeds 0.30 and is at least both other probabilities; otherwise Divisor
    when the probability of [r] is in [0.40, 0.60); otherwise Neutro. *)
Theorem clasificarPartido_orden (p : Probs) (r : Resultado) :
  es_maximo p r ->
  (clasificarPartido p = Ancla <-> 0.60 < prob_de p r) /\
  (clasificarPartido p = TendenciaEmpate <->
     ~ 0.60 < prob_de p r /\ tiende_empate p) /\
  (clasificarPartido p = Divisor <->
     ~ 0.60 < prob_de p r /\ ~ tiende_empate p /\
     0.40 <= prob_de p r /\ prob_de p r < 0.60) /\
  (clasificarPartido p = Neutro <->
     ~ 0.60 < prob_de p r /\ ~ tiende_empate p /\
     ~ (0.40 <= prob_de p r /\ prob_de p r < 0.60)).
Proof.
  intros Hr.
  assert (Heq : maxProb p == prob_de p r).
  { destruct (maxProb_alcanzado p) as [r0 Hr0].
    pose proof (maxProb_cota p r). pose proof (Hr r0). lra. }
  destruct (clasificarPartido_maxProb p) as (HA & HT & HD & HN).
  rewrite HA, HT, HD, HN.
  assert (H60 : 0.60 < maxProb p <-> 0.60 < prob_de p r) by (split; lra).
  assert (H40 : 0.40 <= maxProb p <-> 0.40 <= prob_de p r) by (split; lra).
  assert (Hlt : maxProb p < 0.60 <-> prob_de p r < 0.60) by (split; lra).
  tauto.
Qed.

Lemma clasificarPartido_orden_testigo :
  es_maximo probs_empate_LE E /\
  (clasificarPartido probs_empate_LE = Ancla <-> 0.60 < prob_de probs_empate_LE E) /\
  (clasificarPartido probs_empate_LE = TendenciaEmpate <->
     ~ 0.60 < prob_de probs_empate_LE E /\ tiende_empate probs_empate_LE) /\
  (clasificarPartido probs_empate_LE = Divisor <->
     ~ 0.60 < prob_de probs_empate_LE E /\ ~ tiende_empate probs_empate_LE /\
     0.40 <= prob_de probs_empate_LE E /\ prob_de probs_empate_LE E < 0.60) /\
  (clasificarPartido probs_empate_LE = Neutro <->
     ~ 0.60 < prob_de probs_empate_LE E /\ ~ tiende_empate probs_empate_LE /\
     ~ (0.40 <= prob_de probs_empate_LE E /\ prob_de probs_empate_LE E < 0.60)).
Proof.
  assert (H : es_maximo probs_empate_LE E) by (intros []; simpl; lra).
  split; [exact H|].
  exact (clasificarPartido_orden probs_empate_LE E H).
Defined.

(** C6, counterexample.  The raw probabilities of [partido_ceros] sum to
    zero and the calibration returns a record, of three values that are
    not numbers, instead of failing. *)
Lemma calibracion_de_ceros_no_falla :
  suma (probs partido_ceros) <= 0 /\
  aplicarCalibracionBayesiana partido_ceros =
    Devuelve {| cal_local := NoFinito; cal_empate := NoFinito;
                cal_visitante := NoFinito |}.
Proof. split; [unfold suma; simpl; lra | reflexivity]. Qed.

Lemma ajustadas_de_ceros (partido : Partido) :
  prob_local (probs partido) == 0 -> prob_empate (probs partido) == 0 ->
  prob_visitante (probs partido) == 0 ->
  total partido == 0.
Proof.
  intros Hl He Hv. unfold total, ajustadas.
  set (f := factorAjuste partido).
  assert (Ha : prob_local (probs partido) * f == 0) by (rewrite Hl; ring).
  assert (Hb : prob_visitante (probs partido) / Qmax f 0.1 == 0).
  { rewrite Hv. unfold Qdiv. ring. }
  match goal with
  | |- context [mayor ?a ?b] => destruct (mayor_spec a b) as [Hgt|_]
  end.
  - exfalso.
    pose proof (Q.le_max_l (prob_local (probs partido) * f)
                  (prob_visitante (probs partido) / Qmax f 0.1)).
    lra.
  - rewrite andb_false_r. lra.
Qed.

(** C6, as the code has it.  A match whose raw probabilities have a
    non-positive sum is not rejected: the calibration returns a record and
    raises nothing.  When moreover no raw probability is negative, the three
    are zero and the three returned values are not finite numbers. *)
Theorem calibracion_sin_rechazo (partido : Partido) :
  suma (probs partido) <= 0 ->
  exists c, aplicarCalibracionBayesiana partido = Devuelve c /\
    (0 <= prob_local (probs partido) -> 0 <= prob_empate (probs partido) ->
     0 <= prob_visitante (probs partido) ->
     c = {| cal_local := NoFinito; cal_empate := NoFinito;
            cal_visitante := NoFinito |}).
Proof.
  intros Hs. unfold suma in Hs.
  unfold aplicarCalibracionBayesiana.
  pose proof (ajustadas_de_ceros partido) as Ht. unfold total in Ht.
  destruct (ajustadas partido) as [[a b] c]. eexists. split; [reflexivity|].
  intros Hl He Hv.
  assert (Hz : a + b + c == 0) by (apply Ht; lra).
  now rewrite !dividir_cero.
Qed.

Lemma calibracion_sin_rechazo_testigo :
  suma (probs partido_ceros) <= 0 /\
  exists c, aplicarCalibracionBayesiana partido_ceros = Devuelve c /\
    (0 <= prob_local (probs partido_ceros) ->
     0 <= prob_empate (probs partido_ceros) ->
     0 <= prob_visitante (probs partido_ceros) ->
     c = {| cal_local := NoFinito; cal_empate := NoFinito;
            cal_visitante := NoFinito |}).
Proof.
  split.
  - unfold suma; simpl; lra.
  - apply (calibracion_sin_rechazo partido_ceros). unfold suma; simpl; lra.
Defined.



End Clasificador.

(** ** PortfolioGenerator *)
Section Generador.
Import MatchClassifier PortfolioGenerator.

Lemma Clasificacion_eqb_spec (a b : Clasificacion) :
  reflect (a = b) (Clasificacion_eqb a b).
Proof. destruct a, b; constructor; congruence. Qed.

(** Neither path of the adjustment is entered between the two limits. *)
Lemma ajustarEmpates_entre_limites (quiniela : Quiniela)
    (partidosClasificados : list PartidoClasificado) :
  (EMPATES_MIN <= empates quiniela)%nat ->
  (empates quiniela <= EMPATES_MAX)%nat ->
  ajustarEmpates quiniela partidosClasificados = Devuelve quiniela.
Proof.
  intros Hmin Hmax. unfold ajustarEmpates.
  rewrite (proj2 (Nat.ltb_ge _ _) Hmin), (proj2 (Nat.ltb_ge _ _) Hmax).
  reflexivity.
Qed.

(** C10.  A ticket whose draw count is already between EMPATES_MIN and
    EMPATES_MAX is returned as it is, slot for slot. *)
Theorem ajustarEmpates_identidad (quiniela : Quiniela)
    (partidosClasificados : list PartidoClasificado) :
  en_rango quiniela ->
  ajustarEmpates quiniela partidosClasificados = Devuelve quiniela.
Proof.
  intros [Hmin Hmax]. unfold ajustarEmpates.
  destruct (Nat.ltb_spec (empates quiniela) EMPATES_MIN); [lia|].
  destruct (Nat.ltb_spec EMPATES_MAX (empates quiniela)); [lia|].
  reflexivity.
Qed.

Lemma ajustarEmpates_identidad_testigo :
  en_rango quiniela_cuatro_empates /\
  ajustarEmpates quiniela_cuatro_empates partidos_parejos =
    Devuelve quiniela_cuatro_empates.
Proof.
  split.
  - unfold en_rango. vm_compute. lia.
  - apply (ajustarEmpates_identidad quiniela_cuatro_empates partidos_parejos).
    unfold en_rango. vm_compute. lia.
Defined.

(** What holds of the base ticket on every input: a match that is not
    TendenciaEmpate takes its suggested outcome, and a TendenciaEmpate match
    takes the draw or its suggested outcome. *)
Lemma crearQuinielaBase_desde_posicion (ps : list PartidoClasificado) :
  forall n i (p : PartidoClasificado), ps !! i = Some p ->
    (clasificacion p <> TendenciaEmpate ->
     crearQuinielaBase_desde n ps !! i = Some (resultadoSugerido p)) /\
    (crearQuinielaBase_desde n ps !! i = Some E \/
     crearQuinielaBase_desde n ps !! i = Some (resultadoSugerido p)).
Proof.
  induction ps as [|a ps IH]; intros n i p Hi; [destruct i; discriminate|].
  cbn [crearQuinielaBase_desde].
  destruct i as [|i].
  - inversion Hi; subst a.
    destruct (Clasificacion_eqb_spec (clasificacion p) Ancla) as [Ha|Ha];
      [simpl; auto|].
    destruct (Clasificacion_eqb_spec (clasificacion p) TendenciaEmpate) as [Ht|Ht];
      [|simpl; auto].
    destruct (n <? EMPATES_MAX)%nat; simpl; split; auto; contradiction.
  - simpl in Hi.
    destruct (Clasificacion_eqb (clasificacion a) Ancla); [apply IH; exact Hi|].
    destruct (Clasificacion_eqb (clasificacion a) TendenciaEmpate
              && (n <? EMPATES_MAX)%nat); apply IH; exact Hi.
Qed.

(** C3, the code at a failing input.  The fourteen matches are all
    TendenciaEmpate with the visitor as suggested outcome.  After three
    forced draws the counter [empatesActuales] stands at six, each forced
    draw having been counted twice, and the fourth match takes its suggested
    outcome although only three draws precede it; the ticket with the draws
    counted once has six forced draws. *)
Theorem crearQuinielaBase_cuenta_doble :
  classifyMatches (repeat (partidoCrudo 0.2 0.4 0.4) 14)
  = Devuelve (Some partidos_empate_visitante) /\
  length partidos_empate_visitante = 14%nat /\
  Forall (fun p => clasificacion p = TendenciaEmpate /\ resultadoSugerido p = V)
    partidos_empate_visitante /\
  crearQuinielaBase partidos_empate_visitante =
    [E; E; E; V; V; V; V; V; V; V; V; V; V; V] /\
  empates (take 3 (crearQuinielaBase partidos_empate_visitante)) = 3%nat /\
  base_especificada [] partidos_empate_visitante =
    [E; E; E; E; E; E; V; V; V; V; V; V; V; V].
Proof.
  repeat split.
  vm_compute. repeat (constructor; [split; reflexivity|]). constructor.
Qed.

(** C2, the code at a failing input.  The fourteen matches have the draw as
    suggested outcome and the base ticket built from them holds fourteen
    draws.  The excess is eight and there are fourteen draw slots, yet each
    reverted slot receives its suggested outcome, a draw again, and the
    ticket comes back with fourteen draws. *)
Theorem ajustarEmpates_exceso_sin_reducir :
  classifyMatches (repeat partido_parejo 14) = Devuelve (Some partidos_parejos) /\
  length partidos_parejos = 14%nat /\
  Forall (fun p => resultadoSugerido p = E) partidos_parejos /\
  crearQuinielaBase partidos_parejos = repeat E 14 /\
  ajustarEmpates (repeat E 14) partidos_parejos = Devuelve (repeat E 14) /\
  empates (repeat E 14) = 14%nat.
Proof.
  repeat split.
  vm_compute. repeat (constructor; [reflexivity|]). constructor.
Qed.

Lemma Qle_bool_spec (a b : Q) : reflect (a <= b) (Qle_bool a b).
Proof.
  destruct (Qle_bool a b) eqn:H; constructor.
  - now apply Qle_bool_iff.
  - rewrite <- Qle_bool_iff. congruence.
Qed.

(** With a single most probable outcome, the second entry of the sorted
    array is not the outcome that [getResultadoSugerido] returns. *)
Lemma alternativo_distinto_del_sugerido (p : Probs) :
  maximo_unico p -> getResultadoAlternativo p <> getResultadoSugerido p.
Proof.
  intros [r Hr].
  assert (Hl : L <> r -> prob_local p < prob_de p r) by apply (Hr L).
  assert (He : E <> r -> prob_empate p < prob_de p r) by apply (Hr E).
  assert (Hv : V <> r -> prob_visitante p < prob_de p r) by apply (Hr V).
  clear Hr.
  unfold getResultadoAlternativo, getResultadoSugerido, ordenar.
  cbn [fold_right fold_left insertar snd fst prob_de].
  destruct (mayor_spec (prob_local p) (prob_empate p));
    cbn [prob_de];
    repeat (match goal with
            | |- context [Qle_bool ?a ?b] => destruct (Qle_bool_spec a b)
            | |- context [mayor ?a ?b] => destruct (mayor_spec a b)
            end; cbn [insertar snd fst]);
    try discriminate;
    destruct r; cbn [prob_de] in *;
    try specialize (Hl ltac:(discriminate));
    try specialize (He ltac:(discriminate));
    try specialize (Hv ltac:(discriminate));
    intros _; lra.
Qed.

(** What the loop of [crearParSatelites] writes at each position. *)
Lemma parSatelites_desde_posicion (principal : nat) (azar : nat -> Q)
    (ps : list PartidoClasificado) :
  forall k i qa qb k',
    parSatelites_desde principal azar k i ps = (qa, qb, k') ->
    forall j (p : PartidoClasificado), ps !! j = Some p ->
      qa !! j = Some (resultadoSugerido p) /\
      ((i + j)%nat = principal -> qb !! j = Some (getResultadoAlternativo p)) /\
      ((i + j)%nat <> principal -> clasificacion p = Ancla ->
       qb !! j = Some (resultadoSugerido p)).
Proof.
  induction ps as [|a ps IH]; intros k i qa qb k' Hpar j p Hj; [destruct j; discriminate|].
  cbn [parSatelites_desde] in Hpar.
  destruct (Nat.eqb_spec i principal) as [Hi|Hi].
  - destruct (parSatelites_desde principal azar k (S i) ps) as [[qa' qb'] k''] eqn:Hrec.
    inversion Hpar; subst qa qb k'; clear Hpar.
    destruct j as [|j]; simpl in *.
    + inversion Hj; subst a. repeat split; trivial. intros; lia.
    + replace (i + S j)%nat with (S i + j)%nat by lia. eapply IH; eauto.
  - destruct (Clasificacion_eqb_spec (clasificacion a) Ancla) as [Ha|Ha].
    + destruct (parSatelites_desde principal azar k (S i) ps) as [[qa' qb'] k''] eqn:Hrec.
      inversion Hpar; subst qa qb k'; clear Hpar.
      destruct j as [|j]; simpl in *.
      * inversion Hj; subst a. repeat split; trivial. intros; lia.
      * replace (i + S j)%nat with (S i + j)%nat by lia. eapply IH; eauto.
    + destruct (menor (azar k) 0.3);
        destruct (parSatelites_desde principal azar (S k) (S i) ps) as [[qa' qb'] k''] eqn:Hrec;
        inversion Hpar; subst qa qb k'; clear Hpar;
        (destruct j as [|j]; simpl in *;
         [inversion Hj; subst a; repeat split; trivial; intros; (lia || contradiction)
         |replace (i + S j)%nat with (S i + j)%nat by lia; eapply IH; eauto]).
Qed.

(** C4, counterexamples.  In each the pivot is the first match and no optional
    divergence is drawn.
    - The pivot, a Divisor match, and thirteen Ancla matches: the draw
      adjustment turns the pivot slot of both tickets into a draw.
    - The same with Ancla matches of a more probable draw: the adjustment turns
      the fifth slot, an Ancla match, into a draw in ticket A only.
    - A pivot whose local and visitor probabilities tie for the maximum: the
      suggested and the alternative outcome are both the visitor, and the
      tickets, which the adjustment leaves as they are, are equal.
    - No Divisor match and an Ancla match first: the pivot falls back to it,
      and the tickets, which the adjustment leaves as they are, differ at this
      Ancla slot.
    - A pivot whose alternative outcome is the draw and seven matches that
      tend to a draw: ticket B leaves the loop with eight draws, and the
      adjustment reverts its pivot slot, the least probable of its draws, to
      the suggested outcome that ticket A holds there.
    - A pivot that holds the local win in ticket A and the visitor win in
      ticket B, the only match of a draw probability above 0.20: the
      adjustment turns the pivot slot of both tickets into a draw.
    - No Divisor match and a first match whose suggested outcome is the draw:
      the pivot falls back to it, ticket A holds the draw there, and the
      adjustment turns the pivot slot of ticket B into a draw. *)
Lemma crearParSatelites_contraejemplos :
  (partidoPrincipal (partidosDivisorDe partidos_pivote_y_anclas) 0 = 0%nat /\
   crearParSatelites partidos_pivote_y_anclas
     (partidosDivisorDe partidos_pivote_y_anclas) 0 azar_medio
   = Devuelve ([E; E; E; E; L; L; L; L; L; L; L; L; L; L],
               [E; E; E; E; L; L; L; L; L; L; L; L; L; L])) /\
  (clasificacion <$> partidos_pivote_y_anclas_empatadoras !! 4%nat = Some Ancla /\
   crearParSatelites partidos_pivote_y_anclas_empatadoras
     (partidosDivisorDe partidos_pivote_y_anclas_empatadoras) 0 azar_medio
   = Devuelve ([L; E; E; E; E; L; L; L; L; L; L; L; L; L],
               [E; E; E; E; L; L; L; L; L; L; L; L; L; L])) /\
  (partidoPrincipal (partidosDivisorDe partidos_pivote_empatado) 0 = 0%nat /\
   clasificacion <$> partidos_pivote_empatado !! 0%nat = Some Divisor /\
   crearParSatelites partidos_pivote_empatado
     (partidosDivisorDe partidos_pivote_empatado) 0 azar_medio
   = Devuelve ([V; E; E; E; E; E; L; L; L; L; L; L; L; L],
               [V; E; E; E; E; E; L; L; L; L; L; L; L; L])) /\
  (partidoPrincipal (partidosDivisorDe partidos_sin_divisor) 0 = 0%nat /\
   clasificacion <$> partidos_sin_divisor !! 0%nat = Some Ancla /\
   crearParSatelites partidos_sin_divisor
     (partidosDivisorDe partidos_sin_divisor) 0 azar_medio
   = Devuelve ([L; E; E; E; E; E; L; L; L; L; L; L; L; L],
               [E; E; E; E; E; E; L; L; L; L; L; L; L; L])) /\
  (partidoPrincipal (partidosDivisorDe partidos_pivote_revertido) 0 = 0%nat /\
   parSinAjustar partidos_pivote_revertido
     (partidosDivisorDe partidos_pivote_revertido) 0 azar_medio
   = ([L; E; E; E; E; E; E; E; L; L; L; L; L; L],
      [E; E; E; E; E; E; E; E; L; L; L; L; L; L]) /\
   crearParSatelites partidos_pivote_revertido
     (partidosDivisorDe partidos_pivote_revertido) 0 azar_medio
   = Devuelve ([L; E; E; E; E; E; E; E; L; L; L; L; L; L],
               [L; E; E; E; E; E; E; E; L; L; L; L; L; L])) /\
  (partidoPrincipal (partidosDivisorDe partidos_pivote_sin_empate) 0 = 0%nat /\
   parSinAjustar partidos_pivote_sin_empate
     (partidosDivisorDe partidos_pivote_sin_empate) 0 azar_medio
   = ([L; L; L; L; L; L; L; L; L; L; L; L; L; L],
      [V; L; L; L; L; L; L; L; L; L; L; L; L; L]) /\
   crearParSatelites partidos_pivote_sin_empate
     (partidosDivisorDe partidos_pivote_sin_empate) 0 azar_medio
   = Devuelve ([E; L; L; L; L; L; L; L; L; L; L; L; L; L],
               [E; L; L; L; L; L; L; L; L; L; L; L; L; L])) /\
  (partidoPrincipal (partidosDivisorDe partidos_pivote_sugiere_empate) 0 = 0%nat /\
   parSinAjustar partidos_pivote_sugiere_empate
     (partidosDivisorDe partidos_pivote_sugiere_empate) 0 azar_medio
   = ([E; L; L; L; L; L; L; L; L; L; L; L; L; L],
      [L; L; L; L; L; L; L; L; L; L; L; L; L; L]) /\
   crearParSatelites partidos_pivote_sugiere_empate
     (partidosDivisorDe partidos_pivote_sugiere_empate) 0 azar_medio
   = Devuelve ([E; L; L; L; L; L; L; L; L; L; L; L; L; L],
               [E; L; L; L; L; L; L; L; L; L; L; L; L; L])).
Proof. repeat split. Qed.

End Generador.

(** ** The draw adjustment, path by path *)
Section AjusteEmpates.
Import MatchClassifier PortfolioGenerator.

Lemma insertar_perm {A} (antes : A -> A -> bool) (x : A) (l : list A) :
  insertar antes x l ≡ₚ x :: l.
Proof.
  induction l as [|y l IH]; simpl; [reflexivity|].
  destruct (antes x y); [reflexivity|].
  rewrite IH. apply Permutation_swap.
Qed.

Lemma ordenar_perm {A} (antes : A -> A -> bool) (l : list A) :
  ordenar antes l ≡ₚ l.
Proof.
  induction l as [|x l IH]; simpl; [reflexivity|].
  rewrite insertar_perm. now rewrite IH.
Qed.

Lemma Resultado_eqb_spec (a b : Resultado) : reflect (a = b) (Resultado_eqb a b).
Proof. destruct a, b; constructor; congruence. Qed.

Lemma empates_cons (r : Resultado) (q : Quiniela) :
  empates (r :: q) = ((if Resultado_eqb r E then 1 else 0) + empates q)%nat.
Proof.
  unfold empates. rewrite filter_cons.
  destruct (decide (Resultado_eqb r E = true)) as [H|H].
  - now rewrite H.
  - destruct (Resultado_eqb r E); [congruence|reflexivity].
Qed.

(** Writing [x] over [r] moves the draw count by the difference of the two. *)
Lemma empates_insert (q : Quiniela) (i : nat) (r x : Resultado) :
  q !! i = Some r ->
  (empates (<[i:=x]> q) + (if Resultado_eqb r E then 1 else 0)
   = empates q + (if Resultado_eqb x E then 1 else 0))%nat.
Proof.
  revert i. induction q as [|y q IH]; intros i Hi; [destruct i; discriminate|].
  destruct i as [|i]; simpl in *.
  - inversion Hi; subst y. rewrite !empates_cons. lia.
  - rewrite !empates_cons. specialize (IH i Hi). lia.
Qed.

(** Turning distinct slots that are not draws into draws adds one draw per
    slot. *)
Lemma poner_cuenta (cs : list Candidato) :
  forall q : Quiniela,
    NoDup (index <$> cs) ->
    Forall (fun c => exists r, q !! index c = Some r /\ r <> E) cs ->
    empates (fold_left (fun q c => <[index c := E]> q) cs q)
    = (empates q + length cs)%nat.
Proof.
  induction cs as [|c cs IH]; intros q Hnd Hall; simpl; [lia|].
  inversion Hnd as [|? ? Hnotin Hnd']; subst.
  inversion Hall as [|? ? (r & Hr & HrE) Hall']; subst.
  rewrite IH; trivial.
  - pose proof (empates_insert q (index c) r E Hr) as Hins.
    destruct (Resultado_eqb_spec r E); [contradiction|]. simpl in Hins. lia.
  - apply Forall_forall. intros c' Hc'.
    rewrite Forall_forall in Hall'. destruct (Hall' c' Hc') as (r' & Hr' & HrE').
    exists r'. split; [|exact HrE'].
    rewrite list_lookup_insert_ne; [exact Hr'|].
    intros Heq. apply Hnotin. rewrite Heq. apply list_elem_of_fmap_2. exact Hc'.
Qed.

(** The candidates of the add path: the lookups succeed when every slot has
    its match; the candidates stand on distinct slots that are not draws, and
    there are as many as [disponibles] counts. *)
Lemma candidatosFaltantes_ok (ps : list PartidoClasificado) (q : Quiniela) :
  forall i, (i + length q <= length ps)%nat ->
    exists cs,
      candidatosFaltantes ps i q = Devuelve cs /\
      Forall (fun c => (i <= index c)%nat /\
                       exists r, q !! (index c - i)%nat = Some r /\ r <> E) cs /\
      NoDup (index <$> cs) /\
      length cs = disponibles q (drop i ps).
Proof.
  induction q as [|r q IH]; intros i Hlen.
  - exists []. repeat split; constructor.
  - simpl in Hlen. destruct (IH (S i)) as (cs & Hcs & Hall & Hnd & Hcount); [lia|].
    destruct (lookup_lt_is_Some_2 ps i) as [p Hp]; [lia|].
    assert (Hall' : Forall (fun c => (i <= index c)%nat /\
                     exists r0, (r :: q) !! (index c - i)%nat = Some r0 /\ r0 <> E) cs).
    { eapply Forall_impl; [exact Hall|]. intros c (Hle & r0 & Hr0 & HE).
      split; [lia|]. exists r0. split; [|exact HE].
      replace (index c - i)%nat with (S (index c - S i)) by lia. exact Hr0. }
    unfold disponibles in *. rewrite (drop_S ps p i Hp). cbn [zip zip_with].
    rewrite filter_cons. cbn [candidatosFaltantes fst snd].
    destruct (Resultado_eqb_spec r E) as [Hr|Hr].
    + exists cs. rewrite decide_False; [auto|].
      unfold candidato_a_empate. rewrite Hr. intros ?; discriminate.
    + rewrite Hp, Hcs. cbn [mbind resultado_js_bind].
      destruct (mayor (prob_empate p) 0.20) eqn:Hm.
      * rewrite decide_True
          by (unfold candidato_a_empate; rewrite Hm; now destruct r).
        eexists. split; [reflexivity|]. repeat split.
        -- constructor; [|exact Hall'].
           cbn [index]. split; [lia|]. exists r.
           rewrite Nat.sub_diag. split; [reflexivity|exact Hr].
        -- rewrite fmap_cons. cbn [index]. constructor; [|exact Hnd].
           intros Hin. apply list_elem_of_fmap in Hin as (c & Hc & Hin).
           rewrite Forall_forall in Hall. destruct (Hall c Hin) as [Hle _]. lia.
        -- cbn [length]. now rewrite Hcount.
      * exists cs. rewrite decide_False; [auto|].
        unfold candidato_a_empate. rewrite Hm, andb_false_r. intros ?; discriminate.
Qed.

(** The add path of the adjustment.  When every slot has its match, the ticket holds fewer than
    EMPATES_MIN draws and the slots that are not draws and whose match has a
    draw probability above 0.20 are at least as many as the missing draws,
    the adjusted ticket holds exactly EMPATES_MIN draws. *)
Theorem ajustarEmpates_agrega (quiniela : Quiniela)
    (partidosClasificados : list PartidoClasificado) :
  (length quiniela <= length partidosClasificados)%nat ->
  (empates quiniela < EMPATES_MIN)%nat ->
  (EMPATES_MIN - empates quiniela <= disponibles quiniela partidosClasificados)%nat ->
  exists ajustada,
    ajustarEmpates quiniela partidosClasificados = Devuelve ajustada /\
    empates ajustada = EMPATES_MIN.
Proof.
  intros Hlen Hmin Hdisp. unfold ajustarEmpates.
  destruct (Nat.ltb_spec (empates quiniela) EMPATES_MIN); [|lia].
  destruct (candidatosFaltantes_ok partidosClasificados quiniela 0)
    as (cs & Hcs & Hall & Hnd & Hcount); [simpl; lia|].
  rewrite Hcs. cbn [mbind resultado_js_bind]. eexists. split; [reflexivity|].
  set (orden := ordenar _ cs).
  assert (Hperm : orden ≡ₚ cs) by apply ordenar_perm.
  unfold ponerEmpates.
  rewrite drop_0 in Hcount.
  assert (Hn : Nat.min (EMPATES_MIN - empates quiniela) (length orden)
               = (EMPATES_MIN - empates quiniela)%nat).
  { rewrite (Permutation_length Hperm). lia. }
  rewrite Hn, poner_cuenta.
  - rewrite length_take, (Permutation_length Hperm). lia.
  - rewrite fmap_take. eapply sublist_NoDup; [|apply sublist_take].
    now rewrite Hperm.
  - apply Forall_take. rewrite Hperm.
    eapply Forall_impl; [exact Hall|]. intros c (_ & r & Hr & HE).
    exists r. rewrite Nat.sub_0_r in Hr. auto.
Qed.

(** The candidates of the remove path: every draw slot, once. *)
Lemma candidatosEmpate_ok (ps : list PartidoClasificado) (q : Quiniela) :
  forall i, (i + length q <= length ps)%nat ->
    exists cs,
      candidatosEmpate ps i q = Devuelve cs /\
      Forall (fun c => (i <= index c)%nat /\
                       q !! (index c - i)%nat = Some E) cs /\
      NoDup (index <$> cs) /\
      length cs = empates q.
Proof.
  induction q as [|r q IH]; intros i Hlen.
  - exists []. repeat split; constructor.
  - simpl in Hlen. destruct (IH (S i)) as (cs & Hcs & Hall & Hnd & Hcount); [lia|].
    destruct (lookup_lt_is_Some_2 ps i) as [p Hp]; [lia|].
    assert (Hall' : Forall (fun c => (i <= index c)%nat /\
                     (r :: q) !! (index c - i)%nat = Some E) cs).
    { eapply Forall_impl; [exact Hall|]. intros c (Hle & HE).
      split; [lia|].
      replace (index c - i)%nat with (S (index c - S i)) by lia. exact HE. }
    rewrite empates_cons. cbn [candidatosEmpate].
    destruct (Resultado_eqb_spec r E) as [Hr|Hr].
    + rewrite Hp, Hcs. cbn [mbind resultado_js_bind].
      eexists. split; [reflexivity|]. repeat split.
      * constructor; [|exact Hall'].
        cbn [index]. split; [lia|]. rewrite Nat.sub_diag. now subst r.
      * rewrite fmap_cons. cbn [index]. constructor; [|exact Hnd].
        intros Hin. apply list_elem_of_fmap in Hin as (c & Hc & Hin).
        rewrite Forall_forall in Hall. destruct (Hall c Hin) as [Hle _]. lia.
      * cbn [length]. now rewrite Hcount.
    + exists cs. auto.
Qed.

(** Reverting distinct draw slots to suggested outcomes that are not draws
    removes one draw per slot. *)
Lemma quitar_cuenta (ps : list PartidoClasificado) (cs : list Candidato) :
  forall q : Quiniela,
    NoDup (index <$> cs) ->
    Forall (fun c => q !! index c = Some E /\
                     exists p : PartidoClasificado,
                       ps !! index c = Some p /\ resultadoSugerido p <> E) cs ->
    exists q',
      fold_left
        (fun (acc : resultado_js Quiniela) c =>
           q ← acc;
           match (ps !! index c : option PartidoClasificado) with
           | None => Lanza TypeError
           | Some partido => Devuelve (<[index c := resultadoSugerido partido]> q)
           end) cs (Devuelve q) = Devuelve q' /\
      (empates q' + length cs = empates q)%nat.
Proof.
  induction cs as [|c cs IH]; intros q Hnd Hall; cbn [fold_left].
  - exists q. split; [reflexivity|]. simpl. lia.
  - rewrite fmap_cons in Hnd. inversion Hnd as [|? ? Hnotin Hnd']; subst.
    inversion Hall as [|? ? (HqE & p & Hp & Hsug) Hall']; subst.
    cbn [mbind resultado_js_bind]. rewrite Hp.
    destruct (IH (<[index c := resultadoSugerido p]> q)) as (q' & Hq' & Hcount);
      trivial.
    + apply Forall_forall. intros c' Hc'.
      rewrite Forall_forall in Hall'. destruct (Hall' c' Hc') as (HE' & Hp').
      split; [|exact Hp'].
      rewrite list_lookup_insert_ne; [exact HE'|].
      intros Heq. apply Hnotin. rewrite Heq. apply list_elem_of_fmap_2. exact Hc'.
    + exists q'. split; [exact Hq'|].
      pose proof (empates_insert q (index c) E (resultadoSugerido p) HqE) as Hins.
      destruct (Resultado_eqb_spec (resultadoSugerido p) E); [contradiction|].
      simpl in Hins. cbn [length]. lia.
Qed.

(** The remove path of the adjustment.  When every slot has its match, the ticket holds more
    than EMPATES_MAX draws and no draw slot belongs to a match whose suggested
    outcome is the draw, the adjusted ticket holds exactly EMPATES_MAX
    draws. *)
Theorem ajustarEmpates_quita (quiniela : Quiniela)
    (partidosClasificados : list PartidoClasificado) :
  (length quiniela <= length partidosClasificados)%nat ->
  (EMPATES_MAX < empates quiniela)%nat ->
  (forall i (p : PartidoClasificado),
      quiniela !! i = Some E -> partidosClasificados !! i = Some p ->
      resultadoSugerido p <> E) ->
  exists ajustada,
    ajustarEmpates quiniela partidosClasificados = Devuelve ajustada /\
    empates ajustada = EMPATES_MAX.
Proof.
  intros Hlen Hmax Hsug. unfold ajustarEmpates.
  destruct (Nat.ltb_spec (empates quiniela) EMPATES_MIN);
    [unfold EMPATES_MIN, EMPATES_MAX in *; lia|].
  destruct (Nat.ltb_spec EMPATES_MAX (empates quiniela)); [|lia].
  destruct (candidatosEmpate_ok partidosClasificados quiniela 0)
    as (cs & Hcs & Hall & Hnd & Hcount); [simpl; lia|].
  rewrite Hcs. cbn [mbind resultado_js_bind].
  set (orden := ordenar _ cs).
  assert (Hperm : orden ≡ₚ cs) by apply ordenar_perm.
  unfold quitarEmpates.
  assert (Hn : Nat.min (empates quiniela - EMPATES_MAX) (length orden)
               = (empates quiniela - EMPATES_MAX)%nat).
  { rewrite (Permutation_length Hperm). lia. }
  rewrite Hn.
  destruct (quitar_cuenta partidosClasificados
              (take (empates quiniela - EMPATES_MAX) orden) quiniela)
    as (q' & Hq' & Hcuenta).
  - rewrite fmap_take. eapply sublist_NoDup; [|apply sublist_take].
    now rewrite Hperm.
  - apply Forall_take. rewrite Hperm.
    eapply Forall_impl; [exact Hall|]. intros c (_ & HE).
    rewrite Nat.sub_0_r in HE. split; [exact HE|].
    destruct (lookup_lt_is_Some_2 partidosClasificados (index c)) as [p Hp].
    { apply lookup_lt_Some in HE. lia. }
    exists p. split; [exact Hp|]. eapply Hsug; eauto.
  - exists q'. split; [exact Hq'|].
    rewrite length_take, (Permutation_length Hperm) in Hcuenta. lia.
Qed.

End AjusteEmpates.

(** ** PortfolioValidator *)
Section Validador.
Import PortfolioValidator.




Lemma probPortafolio_no_vacio (q : QuinielaObj) (qs : list QuinielaObj)
    (validacion : Validacion) :
  probPortafolio (q :: qs) validacion
  = Some (1 - ningunAcierto (map prob_11_plus (q :: qs))).
Proof. reflexivity. Qed.





Lemma omap_cons {A B} (f : A -> option B) (x : A) (l : list A) :
  omap f (x :: l)
  = match f x with Some y => y :: omap f l | None => omap f l end.
Proof. reflexivity. Qed.

Lemma contar_todos_L (quinielas : list QuinielaObj) (c : Conteos) :
  Forall (fun q => resultados q !! 0%nat = Some L) quinielas ->
  fold_left
    (fun conteos quiniela =>
       match resultados quiniela !! 0%nat with
       | Some r => incrementar conteos r
       | None => conteos
       end) quinielas c
  = {| cL := cL c + length quinielas; cE := cE c; cV := cV c |}.
Proof.
  intros H. revert c. induction H as [|q qs Hq _ IH]; intros c; simpl.
  - destruct c; simpl. f_equal. lia.
  - rewrite Hq, IH. simpl. f_equal. lia.
Qed.

Lemma portafolio_local_primero_L :
  Forall (fun q => resultados q !! 0%nat = Some L) portafolio_local_primero.
Proof.
  unfold portafolio_local_primero. simpl repeat. simpl app.
  repeat (constructor; [reflexivity|]). constructor.
Qed.

(** C5, counterexample.  Each of the twenty tickets picks the local win on the
    first slot and no other slot is concentrated: the violation of the first
    slot is pushed on the warnings and the error list stays empty. *)
Lemma validarConcentracion_un_partido_advierte :
  length portafolio_local_primero = 20%nat /\
  Forall (fun q => resultados q !! 0%nat = Some L) portafolio_local_primero /\
  errores (validarConcentracion portafolio_local_primero validacion_inicial) = [] /\
  warnings (validarConcentracion portafolio_local_primero validacion_inicial)
  = [ConcentracionPartido
       {| partido_numero := 1; maxConcentracion := de_nat 20 / de_nat 20;
          resultadoConcentrado := L; limiteAplicable := 0.60 |}].
Proof.
  split; [reflexivity|]. split; [|split; reflexivity].
  exact portafolio_local_primero_L.
Qed.

(** C5, as the code has it.  In a portfolio of twenty tickets that all pick
    the local win on the first slot, the first entry of the concentration
    violations is that of slot 1, with concentration 1 on L against the limit
    0.60.  It is recorded among the warnings when at most three slots violate
    their limit, and inside the single aggregated error, which quotes the first
    three violations, when more than three do. *)
Theorem validarConcentracion_primer_partido (quinielas : list QuinielaObj)
    (validacion : Validacion) :
  length quinielas = 20%nat ->
  Forall (fun q => resultados q !! 0%nat = Some L) quinielas ->
  exists c resto,
    concentracionesProblematicas quinielas = c :: resto /\
    partido_numero c = 1%nat /\ maxConcentracion c == 1 /\
    resultadoConcentrado c = L /\ limiteAplicable c == 0.60 /\
    limiteAplicable c < maxConcentracion c /\
    ((length resto < 3)%nat ->
       warnings (validarConcentracion quinielas validacion)
       = warnings validacion
         ++ ConcentracionPartido c :: map ConcentracionPartido resto /\
       errores (validarConcentracion quinielas validacion) = errores validacion) /\
    ((3 <= length resto)%nat ->
       errores (validarConcentracion quinielas validacion)
       = errores validacion ++ [MultiplesViolaciones (c :: take 2 resto)] /\
       warnings (validarConcentracion quinielas validacion) = warnings validacion).
Proof.
  intros Hlen Htodos.
  set (c := {| partido_numero := 1;
               maxConcentracion := de_nat 20 / de_nat 20;
               resultadoConcentrado := L;
               limiteAplicable := 0.60 |}).
  assert (Hc : concentracionDe quinielas 0 = Some c).
  { unfold concentracionDe, contar. rewrite (contar_todos_L _ _ Htodos), Hlen.
    reflexivity. }
  set (resto := omap (concentracionDe quinielas) (seq 1 13)).
  assert (Hp : concentracionesProblematicas quinielas = c :: resto).
  { unfold concentracionesProblematicas.
    change (seq 0 14) with (0%nat :: seq 1 13).
    rewrite omap_cons, Hc. reflexivity. }
  exists c, resto. split; [exact Hp|].
  split; [reflexivity|]. split; [now vm_compute|].
  split; [reflexivity|]. split; [now vm_compute|].
  split; [now vm_compute|].
  split; intros Hr; unfold validarConcentracion; rewrite Hp, Hlen; cbn [length];
    destruct (Nat.ltb_spec 3 (S (length resto))); try lia; split; reflexivity.
Qed.

Lemma validarConcentracion_primer_partido_testigo :
  length portafolio_local_primero = 20%nat /\
  Forall (fun q => resultados q !! 0%nat = Some L) portafolio_local_primero /\
  exists c resto,
    concentracionesProblematicas portafolio_local_primero = c :: resto /\
    partido_numero c = 1%nat /\ maxConcentracion c == 1 /\
    resultadoConcentrado c = L /\ limiteAplicable c == 0.60 /\
    limiteAplicable c < maxConcentracion c /\
    ((length resto < 3)%nat ->
       warnings (validarConcentracion portafolio_local_primero validacion_inicial)
       = warnings validacion_inicial
         ++ ConcentracionPartido c :: map ConcentracionPartido resto /\
       errores (validarConcentracion portafolio_local_primero validacion_inicial)
       = errores validacion_inicial) /\
    ((3 <= length resto)%nat ->
       errores (validarConcentracion portafolio_local_primero validacion_inicial)
       = errores validacion_inicial ++ [MultiplesViolaciones (c :: take 2 resto)] /\
       warnings (validarConcentracion portafolio_local_primero validacion_inicial)
       = warnings validacion_inicial).
Proof.
  split; [reflexivity|]. split; [exact portafolio_local_primero_L|].
  apply (validarConcentracion_primer_partido portafolio_local_primero
           validacion_inicial).
  - reflexivity.
  - exact portafolio_local_primero_L.
Defined.

End Validador.

(** * Further properties of the code *)

(** ** MatchClassifier: confidence, alternative and calibration *)
Section ClasificadorMas.
Import MatchClassifier PortfolioGenerator.

(** Decide the comparisons of the two sorts of three entries and of the
    reduction of [getResultadoSugerido]. *)
Ltac ordenar_tres :=
  repeat (match goal with
          | |- context [Qle_bool ?a ?b] => destruct (Qle_bool_spec a b)
          | |- context [mayor ?a ?b] => destruct (mayor_spec a b)
          end; cbn [insertar snd fst prob_de]).

(** The suggested outcome is the last of the most probable outcomes. *)
Lemma getResultadoSugerido_ultimo_maximo_aux (p : Probs) :
  es_maximo p (getResultadoSugerido p) /\
  forall r, es_maximo p r -> (posicion r <= posicion (getResultadoSugerido p))%nat.
Proof.
  unfold getResultadoSugerido, es_maximo. simpl.
  destruct (mayor_spec (prob_local p) (prob_empate p)); simpl;
    match goal with
    | |- context [mayor ?a ?b] => destruct (mayor_spec a b)
    end; simpl; split;
    try (intros []; simpl; lra);
    intros r Hr; pose proof (Hr L); pose proof (Hr E); pose proof (Hr V);
    destruct r; simpl in *; try lia; exfalso; lra.
Qed.

Lemma maxProb_casos (p : Probs) :
  (maxProb p == prob_local p \/ maxProb p == prob_empate p
   \/ maxProb p == prob_visitante p) /\
  prob_local p <= maxProb p /\ prob_empate p <= maxProb p /\
  prob_visitante p <= maxProb p.
Proof.
  pose proof (maxProb_cota p L). pose proof (maxProb_cota p E).
  pose proof (maxProb_cota p V).
  repeat split; trivial.
  destruct (maxProb_alcanzado p) as [[] Hr]; simpl in Hr; symmetry in Hr; auto.
Qed.

(** The confidence is never negative, and it is the gap between the largest
    probability and the probability of the alternative outcome. *)
Theorem calcularConfianza_brecha (p : Probs) :
  0 <= calcularConfianza p /\
  calcularConfianza p == maxProb p - prob_de p (getResultadoAlternativo p).
Proof.
  destruct (maxProb_casos p) as (Hm & Hl & He & Hv).
  unfold calcularConfianza, getResultadoAlternativo, ordenar.
  cbn [fold_right insertar snd fst].
  ordenar_tres; split; lra.
Qed.

(** The alternative outcome is the second of the three: one of the other two
    outcomes is at least as probable and the other at most as probable. *)
Theorem getResultadoAlternativo_segundo (p : Probs) :
  exists r1 r2,
    r1 <> getResultadoAlternativo p /\ r2 <> getResultadoAlternativo p /\
    r1 <> r2 /\
    prob_de p r2 <= prob_de p (getResultadoAlternativo p) /\
    prob_de p (getResultadoAlternativo p) <= prob_de p r1.
Proof.
  unfold getResultadoAlternativo, ordenar.
  cbn [fold_right insertar snd fst].
  ordenar_tres;
    first [ exists L, E; repeat split; try discriminate; simpl; lra
          | exists L, V; repeat split; try discriminate; simpl; lra
          | exists E, L; repeat split; try discriminate; simpl; lra
          | exists E, V; repeat split; try discriminate; simpl; lra
          | exists V, L; repeat split; try discriminate; simpl; lra
          | exists V, E; repeat split; try discriminate; simpl; lra ].
Qed.

(** The alternative outcome coincides with the suggested outcome exactly when
    two outcomes, and not the three, share the largest probability. *)
Theorem alternativo_igual_sugerido_sii (p : Probs) :
  getResultadoAlternativo p = getResultadoSugerido p <-> dos_maximos p.
Proof.
  destruct (getResultadoSugerido_ultimo_maximo_aux p) as [Hmax Hult].
  split.
  - intros Heq. revert Heq Hmax Hult.
    unfold getResultadoAlternativo, getResultadoSugerido, ordenar, es_maximo.
    cbn [fold_right fold_left insertar snd fst prob_de].
    destruct (mayor_spec (prob_local p) (prob_empate p)); cbn [prob_de];
      ordenar_tres; intros Heq Hmax _; try discriminate;
      pose proof (Hmax L) as HL; pose proof (Hmax E) as HE;
      pose proof (Hmax V) as HV; simpl in HL, HE, HV;
      first [ exists L, E, V; repeat split; try discriminate; simpl; lra
            | exists L, V, E; repeat split; try discriminate; simpl; lra
            | exists E, V, L; repeat split; try discriminate; simpl; lra ].
  - intros (r1 & r2 & r3 & Hne & Heq & Hlt). revert Hmax.
    unfold getResultadoAlternativo, getResultadoSugerido, ordenar, es_maximo.
    cbn [fold_right fold_left insertar snd fst prob_de].
    destruct (mayor_spec (prob_local p) (prob_empate p)); cbn [prob_de];
      ordenar_tres; intros Hmax; try reflexivity; exfalso;
      pose proof (Hmax L) as HL; pose proof (Hmax E) as HE;
      pose proof (Hmax V) as HV; simpl in HL, HE, HV;
      destruct r1, r2, r3; simpl in *; try congruence; lra.
Qed.

(** A match classified TendenciaEmpate is never suggested as a local win: its
    suggested outcome is the draw when the visitor is strictly less probable
    than the draw, and the visitor when the two tie. *)
Theorem tendenciaEmpate_sugerido (p : Probs) :
  clasificarPartido p = TendenciaEmpate ->
  (prob_visitante p < prob_empate p /\ getResultadoSugerido p = E) \/
  (prob_visitante p == prob_empate p /\ getResultadoSugerido p = V).
Proof.
  unfold clasificarPartido, getResultadoSugerido.
  cbn [fold_left prob_de].
  pose proof (Q.max_lub_iff (prob_local p) (prob_visitante p) (prob_empate p)) as Hm.
  destruct (mayor_spec (maxProb p) umbralAncla); [discriminate|].
  destruct (mayor_spec (prob_empate p) umbralEmpate); cbn [andb];
    [|destruct (mayor_igual (maxProb p) umbralDivisorMin
               && menor (maxProb p) umbralDivisorMax); discriminate].
  destruct (mayor_igual_spec (prob_empate p)
              (Qmax (prob_local p) (prob_visitante p))) as [Hge|Hge];
    [|destruct (mayor_igual (maxProb p) umbralDivisorMin
               && menor (maxProb p) umbralDivisorMax); discriminate].
  intros _. apply Hm in Hge. destruct Hge as [Hl Hv].
  destruct (mayor_spec (prob_local p) (prob_empate p)); [lra|].
  cbn [prob_de].
  destruct (mayor_spec (prob_empate p) (prob_visitante p)); [left|right];
    split; trivial; lra.
Qed.

Lemma tendenciaEmpate_sugerido_testigo :
  clasificarPartido
    {| prob_local := 0.2; prob_empate := 0.4; prob_visitante := 0.4 |}
  = TendenciaEmpate /\
  ((0.4 < 0.4 /\
    getResultadoSugerido
      {| prob_local := 0.2; prob_empate := 0.4; prob_visitante := 0.4 |} = E) \/
   (0.4 == 0.4 /\
    getResultadoSugerido
      {| prob_local := 0.2; prob_empate := 0.4; prob_visitante := 0.4 |} = V)).
Proof.
  split; [reflexivity|].
  apply (tendenciaEmpate_sugerido
           {| prob_local := 0.2; prob_empate := 0.4; prob_visitante := 0.4 |}).
  reflexivity.
Defined.

Lemma cociente_en_unidad (a t : Q) : 0 <= a -> a <= t -> 0 < t -> 0 <= a / t <= 1.
Proof.
  intros Ha Hat Ht. split.
  - apply Qle_shift_div_l; [exact Ht|]. lra.
  - apply Qle_shift_div_r; [exact Ht|]. lra.
Qed.

(** When no raw probability is negative, the adjustment factor is not negative
    and the adjusted total is positive, each calibrated probability is a
    finite number between 0 and 1. *)
Theorem calibracion_en_unidad (partido : Partido) :
  0 <= prob_local (probs partido) -> 0 <= prob_empate (probs partido) ->
  0 <= prob_visitante (probs partido) ->
  0 <= factorAjuste partido -> 0 < total partido ->
  exists l e v,
    aplicarCalibracionBayesiana partido
    = Devuelve {| cal_local := Finito l; cal_empate := Finito e;
                  cal_visitante := Finito v |} /\
    (0 <= l /\ l <= 1) /\ (0 <= e /\ e <= 1) /\ (0 <= v /\ v <= 1).
Proof.
  intros Hl He Hv Hf.
  assert (Hpos : let '(a, b, c) := ajustadas partido in
                 0 <= a /\ 0 <= b /\ 0 <= c).
  { unfold ajustadas.
    assert (Ha : 0 <= prob_local (probs partido) * factorAjuste partido)
      by now apply Qmult_le_0_compat.
    assert (Hc : 0 <= prob_visitante (probs partido)
                      / Qmax (factorAjuste partido) 0.1).
    { pose proof (Q.le_max_r (factorAjuste partido) 0.1).
      apply Qle_shift_div_l; lra. }
    match goal with
    | |- context [if ?c then _ else _] => destruct c
    end; repeat split; trivial.
    apply Q.min_glb; unfold boost_empate; lra. }
  unfold total, aplicarCalibracionBayesiana.
  destruct (ajustadas partido) as [[a b] c]. destruct Hpos as (Ha & Hb & Hc).
  intros Ht.
  assert (Hnz : ~ a + b + c == 0) by lra.
  exists (a / (a + b + c)), (b / (a + b + c)), (c / (a + b + c)).
  rewrite !dividir_finito by assumption.
  split; [reflexivity|].
  repeat split; apply cociente_en_unidad; lra.
Qed.

Lemma calibracion_en_unidad_testigo :
  0 <= prob_local (probs partido_parejo) /\
  0 <= prob_empate (probs partido_parejo) /\
  0 <= prob_visitante (probs partido_parejo) /\
  0 <= factorAjuste partido_parejo /\ 0 < total partido_parejo /\
  exists l e v,
    aplicarCalibracionBayesiana partido_parejo
    = Devuelve {| cal_local := Finito l; cal_empate := Finito e;
                  cal_visitante := Finito v |} /\
    (0 <= l /\ l <= 1) /\ (0 <= e /\ e <= 1) /\ (0 <= v /\ v <= 1).
Proof.
  assert (H1 : 0 <= prob_local (probs partido_parejo)) by (simpl; lra).
  assert (H2 : 0 <= prob_empate (probs partido_parejo)) by (simpl; lra).
  assert (H3 : 0 <= prob_visitante (probs partido_parejo)) by (simpl; lra).
  assert (H4 : 0 <= factorAjuste partido_parejo) by (vm_compute; discriminate).
  assert (H5 : 0 < total partido_parejo) by reflexivity.
  repeat (split; [assumption|]).
  exact (calibracion_en_unidad partido_parejo H1 H2 H3 H4 H5).
Defined.

Lemma calibracion_devuelve (partido : Partido) :
  exists cal, aplicarCalibracionBayesiana partido = Devuelve cal.
Proof.
  unfold aplicarCalibracionBayesiana.
  destruct (ajustadas partido) as [[a b] c]. eexists. reflexivity.
Qed.

Lemma classifyMatches_desde_coherente (partidos : list Partido) :
  forall i cs,
    classifyMatches_desde i partidos = Devuelve (Some cs) ->
    id <$> cs = seq i (length partidos) /\
    pc_equipos <$> cs = equipos <$> partidos /\
    Forall (fun c : PartidoClasificado =>
              clasificacion c = clasificarPartido c /\
              resultadoSugerido c = getResultadoSugerido c /\
              confianza c = calcularConfianza c) cs.
Proof.
  induction partidos as [|partido resto IH]; intros i cs H;
    cbn [classifyMatches_desde] in H.
  - inversion H; subst. repeat split; constructor.
  - unfold clasificarUno in H.
    destruct (calibracion_devuelve partido) as [cal Hcal]. rewrite Hcal in H.
    cbn [mbind resultado_js_bind] in H.
    destruct (classifyMatches_desde (S i) resto) as [[cs'|]|e] eqn:Hrest;
      cbn [mbind resultado_js_bind] in H;
      destruct (finita cal) as [pr|]; try discriminate.
    inversion H; subst; clear H.
    destruct (IH _ _ Hrest) as (Hid & Heq & Hall).
    rewrite !fmap_cons, Hid, Heq. cbn [id pc_equipos length seq].
    repeat split. constructor; [|exact Hall].
    cbn [clasificacion resultadoSugerido confianza pc_probs]. repeat split.
Qed.

Lemma classifyMatches_desde_devuelve (partidos : list Partido) :
  Forall (fun partido => ~ total partido == 0) partidos ->
  forall i, exists cs, classifyMatches_desde i partidos = Devuelve (Some cs).
Proof.
  induction 1 as [|partido resto Ht _ IH]; intros i; [now exists []|].
  cbn [classifyMatches_desde]. unfold clasificarUno, aplicarCalibracionBayesiana.
  unfold total in Ht. destruct (ajustadas partido) as [[a b] c].
  rewrite !dividir_finito by exact Ht. cbn [mbind resultado_js_bind finita
    cal_local cal_empate cal_visitante].
  destruct (IH (S i)) as [cs Hcs]. rewrite Hcs. cbn [mbind resultado_js_bind].
  eexists. reflexivity.
Qed.

(** What the fields of a record say about its own probabilities. *)
Lemma registro_coherente (p : Probs) :
  es_maximo p (getResultadoSugerido p) /\
  (clasificarPartido p = Ancla <-> 0.60 < prob_de p (getResultadoSugerido p)) /\
  (clasificarPartido p = TendenciaEmpate -> getResultadoSugerido p <> L) /\
  0 <= calcularConfianza p.
Proof.
  destruct (getResultadoSugerido_ultimo_maximo_aux p) as [Hmax _].
  destruct (clasificarPartido_maxProb p) as (HA & HT & _).
  assert (Heq : maxProb p == prob_de p (getResultadoSugerido p)).
  { destruct (maxProb_alcanzado p) as [r0 Hr0].
    pose proof (maxProb_cota p (getResultadoSugerido p)).
    pose proof (Hmax r0). lra. }
  split; [exact Hmax|]. split; [|split].
  - rewrite HA. split; lra.
  - intros Ht. apply HT in Ht as [_ (_ & Hl & _)].
    unfold getResultadoSugerido. cbn [fold_left prob_de].
    destruct (mayor_spec (prob_local p) (prob_empate p)); [lra|].
    cbn [prob_de]. destruct (mayor (prob_empate p) (prob_visitante p));
      discriminate.
  - unfold calcularConfianza, ordenar. cbn [fold_right insertar snd fst].
    ordenar_tres; lra.
Qed.

(** When no adjusted total is zero, [classifyMatches] returns one record per
    match, in the order of the input, numbered from 0 and with the teams of its
    match.  In each record the suggested outcome carries the largest of the
    record's calibrated probabilities, the category is Ancla exactly when that
    probability exceeds 0.60, a TendenciaEmpate record is not suggested as a
    local win, and the confidence is not negative. *)
Theorem classifyMatches_coherente (partidos : list Partido) :
  Forall (fun partido => ~ total partido == 0) partidos ->
  exists cs,
    classifyMatches partidos = Devuelve (Some cs) /\
    length cs = length partidos /\
    id <$> cs = seq 0 (length partidos) /\
    pc_equipos <$> cs = equipos <$> partidos /\
    Forall (fun c : PartidoClasificado =>
              es_maximo c (resultadoSugerido c) /\
              (clasificacion c = Ancla <-> 0.60 < prob_de c (resultadoSugerido c)) /\
              (clasificacion c = TendenciaEmpate -> resultadoSugerido c <> L) /\
              0 <= confianza c) cs.
Proof.
  intros Ht. unfold classifyMatches.
  destruct (classifyMatches_desde_devuelve partidos Ht 0) as [cs Hcs].
  exists cs. split; [exact Hcs|].
  destruct (classifyMatches_desde_coherente _ _ _ Hcs) as (Hid & Heq & Hall).
  split; [rewrite <- (length_fmap id cs), Hid; apply length_seq|].
  split; [exact Hid|]. split; [exact Heq|].
  eapply Forall_impl; [exact Hall|].
  intros c (Hc & Hs & Hconf). cbn beta. rewrite Hc, Hs, Hconf.
  apply registro_coherente.
Qed.

Lemma classifyMatches_coherente_testigo :
  Forall (fun partido => ~ total partido == 0) [partido_parejo; partido_divisor] /\
  exists cs,
    classifyMatches [partido_parejo; partido_divisor] = Devuelve (Some cs) /\
    length cs = length [partido_parejo; partido_divisor] /\
    id <$> cs = seq 0 (length [partido_parejo; partido_divisor]) /\
    pc_equipos <$> cs = equipos <$> [partido_parejo; partido_divisor] /\
    Forall (fun c : PartidoClasificado =>
              es_maximo c (resultadoSugerido c) /\
              (clasificacion c = Ancla <-> 0.60 < prob_de c (resultadoSugerido c)) /\
              (clasificacion c = TendenciaEmpate -> resultadoSugerido c <> L) /\
              0 <= confianza c) cs.
Proof.
  assert (H : Forall (fun partido => ~ total partido == 0)
                [partido_parejo; partido_divisor]).
  { repeat constructor; intros H; vm_compute in H; discriminate. }
  split; [exact H|].
  exact (classifyMatches_coherente [partido_parejo; partido_divisor] H).
Defined.

End ClasificadorMas.

(** ** PortfolioGenerator: the base ticket and the draw adjustment *)
Section GeneradorMas.
Import MatchClassifier PortfolioGenerator.

Lemma crearQuinielaBase_desde_length (ps : list PartidoClasificado) :
  forall n, length (crearQuinielaBase_desde n ps) = length ps.
Proof.
  induction ps as [|p ps IH]; intros n; [reflexivity|].
  cbn [crearQuinielaBase_desde].
  destruct (Clasificacion_eqb (clasificacion p) Ancla);
    [|destruct (Clasificacion_eqb (clasificacion p) TendenciaEmpate
                && (n <? EMPATES_MAX)%nat)];
    cbn [length]; now rewrite IH.
Qed.

(** The base ticket has one slot per match; a match that is not
    TendenciaEmpate takes its suggested outcome and a TendenciaEmpate match
    takes the draw or its suggested outcome. *)
Theorem crearQuinielaBase_forma (ps : list PartidoClasificado) :
  length (crearQuinielaBase ps) = length ps /\
  forall i (p : PartidoClasificado), ps !! i = Some p ->
    (clasificacion p <> TendenciaEmpate ->
     crearQuinielaBase ps !! i = Some (resultadoSugerido p)) /\
    (crearQuinielaBase ps !! i = Some E \/
     crearQuinielaBase ps !! i = Some (resultadoSugerido p)).
Proof.
  split; [apply crearQuinielaBase_desde_length|].
  intros i p Hp. now apply crearQuinielaBase_desde_posicion.
Qed.

Lemma forzados_cons (r : Resultado) (q : Quiniela) (p : PartidoClasificado)
    (ps : list PartidoClasificado) :
  forzados (r :: q) (p :: ps)
  = ((if Resultado_eqb r E && negb (Resultado_eqb (resultadoSugerido p) E)
      then 1 else 0) + forzados q ps)%nat.
Proof.
  unfold forzados. cbn [zip zip_with]. rewrite filter_cons. cbn [fst snd].
  destruct (decide _) as [H|H].
  - now rewrite H.
  - destruct (Resultado_eqb r E && negb (Resultado_eqb (resultadoSugerido p) E));
      [congruence|reflexivity].
Qed.

(** Every draw forced against the suggestion moves the counter of
    [crearQuinielaBase] by two, and none is forced from six on. *)
Lemma forzados_desde (ps : list PartidoClasificado) :
  forall n, (2 * forzados (crearQuinielaBase_desde n ps) ps <= 7 - n)%nat.
Proof.
  induction ps as [|p ps IH]; intros n; [cbn; lia|].
  cbn [crearQuinielaBase_desde].
  destruct (Clasificacion_eqb (clasificacion p) Ancla).
  - rewrite forzados_cons.
    destruct (Resultado_eqb (resultadoSugerido p) E); cbn [andb negb];
      [specialize (IH (S n))|specialize (IH n)]; lia.
  - destruct (Clasificacion_eqb (clasificacion p) TendenciaEmpate); cbn [andb].
    + destruct (Nat.ltb_spec n EMPATES_MAX) as [Hn|Hn].
      * rewrite forzados_cons. cbn [Resultado_eqb andb].
        specialize (IH (S (S n))). unfold EMPATES_MAX in Hn.
        destruct (negb (Resultado_eqb (resultadoSugerido p) E)); lia.
      * rewrite forzados_cons.
        destruct (Resultado_eqb (resultadoSugerido p) E); cbn [andb negb];
          [specialize (IH (S n))|specialize (IH n)]; lia.
    + rewrite forzados_cons.
      destruct (Resultado_eqb (resultadoSugerido p) E); cbn [andb negb];
        [specialize (IH (S n))|specialize (IH n)]; lia.
Qed.

(** In the base ticket at most three slots hold a draw against the suggested
    outcome of their match. *)
Theorem crearQuinielaBase_pocos_forzados (ps : list PartidoClasificado) :
  (forzados (crearQuinielaBase ps) ps <= 3)%nat.
Proof.
  pose proof (forzados_desde ps 0) as H. unfold crearQuinielaBase. lia.
Qed.

End GeneradorMas.

(** ** PortfolioGenerator: what the draw adjustment returns *)
Section AjusteEmpatesMas.
Import MatchClassifier PortfolioGenerator.

Lemma poner_length (cs : list Candidato) :
  forall q : Quiniela,
    length (fold_left (fun q c => <[index c := E]> q) cs q) = length q.
Proof.
  induction cs as [|c cs IH]; intros q; cbn [fold_left]; [reflexivity|].
  now rewrite IH, length_insert.
Qed.

(** Reverting distinct draw slots to the suggested outcomes keeps the length
    and removes at most one draw per slot. *)
Lemma quitar_general (ps : list PartidoClasificado) (cs : list Candidato) :
  forall q : Quiniela,
    NoDup (index <$> cs) ->
    Forall (fun c => q !! index c = Some E /\ is_Some (ps !! index c)) cs ->
    exists q',
      fold_left
        (fun (acc : resultado_js Quiniela) c =>
           q ← acc;
           match (ps !! index c : option PartidoClasificado) with
           | None => Lanza TypeError
           | Some partido => Devuelve (<[index c := resultadoSugerido partido]> q)
           end) cs (Devuelve q) = Devuelve q' /\
      length q' = length q /\
      (empates q' <= empates q)%nat /\
      (empates q <= empates q' + length cs)%nat.
Proof.
  induction cs as [|c cs IH]; intros q Hnd Hall; cbn [fold_left].
  - exists q. repeat split; simpl; lia.
  - rewrite fmap_cons in Hnd. inversion Hnd as [|? ? Hnotin Hnd']; subst.
    inversion Hall as [|? ? (HqE & p & Hp) Hall']; subst.
    cbn [mbind resultado_js_bind]. rewrite Hp.
    destruct (IH (<[index c := resultadoSugerido p]> q))
      as (q' & Hq' & Hlen & Hle & Hge); trivial.
    + apply Forall_forall. intros c' Hc'.
      rewrite Forall_forall in Hall'. destruct (Hall' c' Hc') as (HE' & Hp').
      split; [|exact Hp'].
      rewrite list_lookup_insert_ne; [exact HE'|].
      intros Heq. apply Hnotin. rewrite Heq. apply list_elem_of_fmap_2. exact Hc'.
    + exists q'. split; [exact Hq'|].
      pose proof (empates_insert q (index c) E (resultadoSugerido p) HqE) as Hins.
      rewrite length_insert in Hlen. cbn [Resultado_eqb] in Hins. cbn [length].
      destruct (Resultado_eqb (resultadoSugerido p) E); repeat split; lia.
Qed.

Lemma ajustarEmpates_cotas (quiniela : Quiniela)
    (partidosClasificados : list PartidoClasificado) :
  (length quiniela <= length partidosClasificados)%nat ->
  exists ajustada,
    ajustarEmpates quiniela partidosClasificados = Devuelve ajustada /\
    length ajustada = length quiniela /\
    ((empates quiniela < EMPATES_MIN)%nat ->
     (empates quiniela <= empates ajustada /\ empates ajustada <= EMPATES_MIN)%nat) /\
    ((EMPATES_MAX < empates quiniela)%nat ->
     (EMPATES_MAX <= empates ajustada /\ empates ajustada <= empates quiniela)%nat).
Proof.
  intros Hlen. unfold ajustarEmpates.
  destruct (Nat.ltb_spec (empates quiniela) EMPATES_MIN) as [Hmin|Hmin].
  - destruct (candidatosFaltantes_ok partidosClasificados quiniela 0)
      as (cs & Hcs & Hall & Hnd & _); [simpl; lia|].
    rewrite Hcs. cbn [mbind resultado_js_bind]. eexists. split; [reflexivity|].
    set (orden := ordenar _ cs).
    assert (Hperm : orden ≡ₚ cs) by apply ordenar_perm.
    unfold ponerEmpates. split; [apply poner_length|].
    rewrite poner_cuenta.
    + rewrite length_take. unfold EMPATES_MIN, EMPATES_MAX in *.
      split; intros; lia.
    + rewrite fmap_take. eapply sublist_NoDup; [|apply sublist_take].
      now rewrite Hperm.
    + apply Forall_take. rewrite Hperm.
      eapply Forall_impl; [exact Hall|]. intros c (_ & r & Hr & HE).
      exists r. rewrite Nat.sub_0_r in Hr. auto.
  - destruct (Nat.ltb_spec EMPATES_MAX (empates quiniela)) as [Hmax|Hmax].
    + destruct (candidatosEmpate_ok partidosClasificados quiniela 0)
        as (cs & Hcs & Hall & Hnd & Hcount); [simpl; lia|].
      rewrite Hcs. cbn [mbind resultado_js_bind].
      set (orden := ordenar _ cs).
      assert (Hperm : orden ≡ₚ cs) by apply ordenar_perm.
      unfold quitarEmpates.
      destruct (quitar_general partidosClasificados
                  (take (Nat.min (empates quiniela - EMPATES_MAX) (length orden))
                     orden) quiniela)
        as (q' & Hq' & Hlen' & Hle & Hge).
      * rewrite fmap_take. eapply sublist_NoDup; [|apply sublist_take].
        now rewrite Hperm.
      * apply Forall_take. rewrite Hperm.
        eapply Forall_impl; [exact Hall|]. intros c (_ & HE).
        rewrite Nat.sub_0_r in HE. split; [exact HE|].
        apply lookup_lt_is_Some_2. apply lookup_lt_Some in HE. lia.
      * exists q'. split; [exact Hq'|]. split; [exact Hlen'|].
        rewrite length_take in Hge. split; intros; lia.
    + exists quiniela. repeat split; lia.
Qed.

(** When every slot has its match the adjustment returns a ticket of the same
    length; from fewer than EMPATES_MIN draws the draw count does not decrease
    and does not pass EMPATES_MIN, and from more than EMPATES_MAX draws it does
    not increase and does not fall below EMPATES_MAX. *)
Theorem ajustarEmpates_acotado (quiniela : Quiniela)
    (partidosClasificados : list PartidoClasificado) :
  (length quiniela <= length partidosClasificados)%nat ->
  exists ajustada,
    ajustarEmpates quiniela partidosClasificados = Devuelve ajustada /\
    length ajustada = length quiniela /\
    ((empates quiniela < EMPATES_MIN)%nat ->
     (empates quiniela <= empates ajustada /\ empates ajustada <= EMPATES_MIN)%nat) /\
    ((EMPATES_MAX < empates quiniela)%nat ->
     (EMPATES_MAX <= empates ajustada /\ empates ajustada <= empates quiniela)%nat).
Proof. apply ajustarEmpates_cotas. Qed.

Lemma ajustarEmpates_acotado_testigo :
  (length (repeat E 14) <= length partidos_parejos)%nat /\
  exists ajustada,
    ajustarEmpates (repeat E 14) partidos_parejos = Devuelve ajustada /\
    length ajustada = length (repeat E 14) /\
    ((empates (repeat E 14) < EMPATES_MIN)%nat ->
     (empates (repeat E 14) <= empates ajustada
      /\ empates ajustada <= EMPATES_MIN)%nat) /\
    ((EMPATES_MAX < empates (repeat E 14))%nat ->
     (EMPATES_MAX <= empates ajustada
      /\ empates ajustada <= empates (repeat E 14))%nat).
Proof.
  split.
  - vm_compute. lia.
  - apply (ajustarEmpates_acotado (repeat E 14) partidos_parejos).
    vm_compute. lia.
Defined.

Lemma candidatosFaltantes_lanza (ps : list PartidoClasificado) (q : Quiniela) :
  forall k j r, q !! j = Some r -> r <> E -> (length ps <= k + j)%nat ->
    candidatosFaltantes ps k q = Lanza TypeError.
Proof.
  induction q as [|r0 q IH]; intros k j r Hj Hr Hlen; [destruct j; discriminate|].
  cbn [candidatosFaltantes]. destruct j as [|j]; simpl in Hj.
  - inversion Hj; subst r0.
    destruct (Resultado_eqb_spec r E); [contradiction|].
    rewrite lookup_ge_None_2 by lia. reflexivity.
  - assert (Hrec : candidatosFaltantes ps (S k) q = Lanza TypeError)
      by (eapply IH; eauto; lia).
    destruct (Resultado_eqb r0 E); [exact Hrec|].
    destruct (ps !! k); [|reflexivity]. now rewrite Hrec.
Qed.

Lemma candidatosEmpate_lanza (ps : list PartidoClasificado) (q : Quiniela) :
  forall k j, q !! j = Some E -> (length ps <= k + j)%nat ->
    candidatosEmpate ps k q = Lanza TypeError.
Proof.
  induction q as [|r0 q IH]; intros k j Hj Hlen; [destruct j; discriminate|].
  cbn [candidatosEmpate]. destruct j as [|j]; simpl in Hj.
  - inversion Hj; subst r0. cbn [Resultado_eqb].
    rewrite lookup_ge_None_2 by lia. reflexivity.
  - assert (Hrec : candidatosEmpate ps (S k) q = Lanza TypeError)
      by (eapply IH; eauto; lia).
    destruct (Resultado_eqb r0 E); [|exact Hrec].
    destruct (ps !! k); [|reflexivity]. now rewrite Hrec.
Qed.

(** A ticket that has to be adjusted and holds, beyond the last match, a slot
    that the adjustment reads (a slot that is not a draw when draws are
    missing, a draw when draws are in excess) makes [ajustarEmpates] throw a
    TypeError. *)
Theorem ajustarEmpates_sin_partido (quiniela : Quiniela)
    (partidosClasificados : list PartidoClasificado) (i : nat) (r : Resultado) :
  quiniela !! i = Some r ->
  (length partidosClasificados <= i)%nat ->
  ((empates quiniela < EMPATES_MIN)%nat /\ Resultado_eqb r E = false) \/
  ((EMPATES_MAX < empates quiniela)%nat /\ r = E) ->
  ajustarEmpates quiniela partidosClasificados = Lanza TypeError.
Proof.
  intros Hi Hlen [[Hmin Hr]|[Hmax Hr]]; unfold ajustarEmpates.
  - destruct (Nat.ltb_spec (empates quiniela) EMPATES_MIN); [|lia].
    rewrite (candidatosFaltantes_lanza _ _ 0 i r Hi); [reflexivity| |simpl; lia].
    intros ->. discriminate.
  - destruct (Nat.ltb_spec (empates quiniela) EMPATES_MIN);
      [unfold EMPATES_MIN, EMPATES_MAX in *; lia|].
    destruct (Nat.ltb_spec EMPATES_MAX (empates quiniela)); [|lia].
    subst r. rewrite (candidatosEmpate_lanza _ _ 0 i Hi); [reflexivity|simpl; lia].
Qed.

Lemma ajustarEmpates_sin_partido_testigo :
  [L; V; L] !! 2%nat = Some L /\
  (length (take 2 partidos_parejos) <= 2)%nat /\
  (((empates [L; V; L] < EMPATES_MIN)%nat /\ Resultado_eqb L E = false) \/
   ((EMPATES_MAX < empates [L; V; L])%nat /\ L = E)) /\
  ajustarEmpates [L; V; L] (take 2 partidos_parejos) = Lanza TypeError.
Proof.
  assert (H1 : [L; V; L] !! 2%nat = Some L) by reflexivity.
  assert (H2 : (length (take 2 partidos_parejos) <= 2)%nat) by (vm_compute; lia).
  assert (H3 : ((empates [L; V; L] < EMPATES_MIN)%nat /\ Resultado_eqb L E = false) \/
               ((EMPATES_MAX < empates [L; V; L])%nat /\ L = E)).
  { left. split; [vm_compute; lia|reflexivity]. }
  repeat (split; [assumption|]).
  exact (ajustarEmpates_sin_partido [L; V; L] (take 2 partidos_parejos) 2 L H1 H2 H3).
Defined.

Lemma sugeridos_no_empate :
  forall i (p : PartidoClasificado),
    partidos_pivote_y_anclas !! i = Some p -> resultadoSugerido p <> E.
Proof.
  intros i p Hp. apply list_elem_of_lookup_2 in Hp. revert p Hp.
  apply Forall_forall. vm_compute.
  repeat (constructor; [discriminate|]). constructor.
Qed.

Lemma ajustarEmpates_agrega_testigo :
  (length (repeat L 14) <= length partidos_pivote_y_anclas)%nat /\
  (empates (repeat L 14) < EMPATES_MIN)%nat /\
  (EMPATES_MIN - empates (repeat L 14)
   <= disponibles (repeat L 14) partidos_pivote_y_anclas)%nat /\
  exists ajustada,
    ajustarEmpates (repeat L 14) partidos_pivote_y_anclas = Devuelve ajustada /\
    empates ajustada = EMPATES_MIN.
Proof.
  assert (H1 : (length (repeat L 14) <= length partidos_pivote_y_anclas)%nat)
    by (vm_compute; lia).
  assert (H2 : (empates (repeat L 14) < EMPATES_MIN)%nat) by (vm_compute; lia).
  assert (H3 : (EMPATES_MIN - empates (repeat L 14)
                <= disponibles (repeat L 14) partidos_pivote_y_anclas)%nat)
    by (vm_compute; lia).
  repeat (split; [assumption|]).
  exact (ajustarEmpates_agrega (repeat L 14) partidos_pivote_y_anclas H1 H2 H3).
Defined.

Lemma ajustarEmpates_quita_testigo :
  (length (repeat E 14) <= length partidos_pivote_y_anclas)%nat /\
  (EMPATES_MAX < empates (repeat E 14))%nat /\
  (forall i (p : PartidoClasificado),
      repeat E 14 !! i = Some E -> partidos_pivote_y_anclas !! i = Some p ->
      resultadoSugerido p <> E) /\
  exists ajustada,
    ajustarEmpates (repeat E 14) partidos_pivote_y_anclas = Devuelve ajustada /\
    empates ajustada = EMPATES_MAX.
Proof.
  assert (H1 : (length (repeat E 14) <= length partidos_pivote_y_anclas)%nat)
    by (vm_compute; lia).
  assert (H2 : (EMPATES_MAX < empates (repeat E 14))%nat) by (vm_compute; lia).
  assert (H3 : forall i (p : PartidoClasificado),
             repeat E 14 !! i = Some E -> partidos_pivote_y_anclas !! i = Some p ->
             resultadoSugerido p <> E)
    by (intros i p _; apply sugeridos_no_empate).
  repeat (split; [assumption|]).
  exact (ajustarEmpates_quita (repeat E 14) partidos_pivote_y_anclas H1 H2 H3).
Defined.

(** What the candidates of the add path record. *)
Lemma candidatosFaltantes_datos (ps : list PartidoClasificado) (q : Quiniela) :
  forall k cs, candidatosFaltantes ps k q = Devuelve cs ->
    Forall (fun c => (k <= index c)%nat /\
              exists r (p : PartidoClasificado),
                q !! (index c - k)%nat = Some r /\ Resultado_eqb r E = false /\
                ps !! index c = Some p /\ 0.20 < prob_empate p /\
                prob c = prob_empate p) cs.
Proof.
  induction q as [|r q IH]; intros k cs H; cbn [candidatosFaltantes] in H.
  - inversion H. constructor.
  - assert (Hshift : forall cs', candidatosFaltantes ps (S k) q = Devuelve cs' ->
        Forall (fun c => (k <= index c)%nat /\
              exists r0 (p : PartidoClasificado),
                (r :: q) !! (index c - k)%nat = Some r0 /\
                Resultado_eqb r0 E = false /\
                ps !! index c = Some p /\ 0.20 < prob_empate p /\
                prob c = prob_empate p) cs').
    { intros cs' Hcs'. eapply Forall_impl; [exact (IH _ _ Hcs')|].
      intros c (Hle & r0 & p & Hr0 & HE & Hp & Hgt & Hprob).
      split; [lia|]. exists r0, p.
      replace (index c - k)%nat with (S (index c - S k)) by lia. auto. }
    destruct (Resultado_eqb r E) eqn:Hr; [now apply Hshift|].
    destruct (ps !! k) as [p|] eqn:Hp; [|discriminate].
    destruct (candidatosFaltantes ps (S k) q) as [cs'|e] eqn:Hrec; [|discriminate].
    cbn [mbind resultado_js_bind] in H.
    destruct (mayor_spec (prob_empate p) 0.20) as [Hgt|Hgt];
      inversion H; subst cs; [|now apply Hshift].
    constructor; [|now apply Hshift].
    cbn [index prob]. split; [lia|]. exists r, p.
    rewrite Nat.sub_diag. auto.
Qed.

(** What the candidates of the remove path record. *)
Lemma candidatosEmpate_datos (ps : list PartidoClasificado) (q : Quiniela) :
  forall k cs, candidatosEmpate ps k q = Devuelve cs ->
    Forall (fun c => (k <= index c)%nat /\
              q !! (index c - k)%nat = Some E /\
              exists p : PartidoClasificado,
                ps !! index c = Some p /\ prob c = prob_empate p) cs.
Proof.
  induction q as [|r q IH]; intros k cs H; cbn [candidatosEmpate] in H.
  - inversion H. constructor.
  - assert (Hshift : forall cs', candidatosEmpate ps (S k) q = Devuelve cs' ->
        Forall (fun c => (k <= index c)%nat /\
              (r :: q) !! (index c - k)%nat = Some E /\
              exists p : PartidoClasificado,
                ps !! index c = Some p /\ prob c = prob_empate p) cs').
    { intros cs' Hcs'. eapply Forall_impl; [exact (IH _ _ Hcs')|].
      intros c (Hle & HE & Hp). split; [lia|].
      replace (index c - k)%nat with (S (index c - S k)) by lia. auto. }
    destruct (Resultado_eqb_spec r E) as [Hr|Hr]; [|now apply Hshift].
    destruct (ps !! k) as [p|] eqn:Hp; [|discriminate].
    destruct (candidatosEmpate ps (S k) q) as [cs'|e] eqn:Hrec; [|discriminate].
    cbn [mbind resultado_js_bind] in H. inversion H; subst cs.
    constructor; [|now apply Hshift].
    cbn [index prob]. split; [lia|]. rewrite Nat.sub_diag. subst r.
    split; [reflexivity|]. exists p. auto.
Qed.

Lemma poner_posicion (cs : list Candidato) :
  forall (q : Quiniela) i,
    fold_left (fun q c => <[index c := E]> q) cs q !! i = q !! i \/
    (fold_left (fun q c => <[index c := E]> q) cs q !! i = Some E /\
     i ∈ index <$> cs).
Proof.
  induction cs as [|c cs IH]; intros q i; cbn [fold_left]; [now left|].
  destruct (IH (<[index c := E]> q) i) as [Heq|[HE Hin]].
  - destruct (decide (i = index c)) as [->|Hne].
    + destruct (decide (index c < length q)%nat) as [Hlt|Hge].
      * right. rewrite Heq, list_lookup_insert_eq by exact Hlt.
        split; [reflexivity|]. rewrite fmap_cons. apply list_elem_of_here.
      * left. rewrite Heq. rewrite list_insert_ge by lia. reflexivity.
    + left. rewrite Heq. now rewrite list_lookup_insert_ne.
  - right. split; [exact HE|]. rewrite fmap_cons. now apply list_elem_of_further.
Qed.

Lemma quitar_lanza (ps : list PartidoClasificado) (cs : list Candidato)
    (e : excepcion) :
  fold_left
    (fun (acc : resultado_js Quiniela) c =>
       q ← acc;
       match (ps !! index c : option PartidoClasificado) with
       | None => Lanza TypeError
       | Some partido => Devuelve (<[index c := resultadoSugerido partido]> q)
       end) cs (Lanza e) = Lanza e.
Proof. induction cs as [|c cs IH]; cbn [fold_left]; [reflexivity|exact IH]. Qed.

Lemma quitar_posicion (ps : list PartidoClasificado) (cs : list Candidato) :
  forall (q q' : Quiniela) i,
    fold_left
      (fun (acc : resultado_js Quiniela) c =>
         q ← acc;
         match (ps !! index c : option PartidoClasificado) with
         | None => Lanza TypeError
         | Some partido => Devuelve (<[index c := resultadoSugerido partido]> q)
         end) cs (Devuelve q) = Devuelve q' ->
    q' !! i = q !! i \/
    (i ∈ index <$> cs /\
     exists p : PartidoClasificado,
       ps !! i = Some p /\ q' !! i = Some (resultadoSugerido p)).
Proof.
  induction cs as [|c cs IH]; intros q q' i H; cbn [fold_left] in H.
  - inversion H. now left.
  - cbn [mbind resultado_js_bind] in H.
    destruct (ps !! index c) as [p|] eqn:Hp;
      [|rewrite quitar_lanza in H; discriminate].
    destruct (IH _ _ i H) as [Heq|(Hin & p' & Hp' & Hq')].
    + destruct (decide (i = index c)) as [->|Hne].
      * destruct (decide (index c < length q)%nat) as [Hlt|Hge].
        -- right. split; [rewrite fmap_cons; apply list_elem_of_here|].
           exists p. split; [exact Hp|].
           rewrite Heq. now apply list_lookup_insert_eq.
        -- left. rewrite Heq. rewrite list_insert_ge by lia. reflexivity.
      * left. rewrite Heq. now rewrite list_lookup_insert_ne.
    + right. split; [rewrite fmap_cons; now apply list_elem_of_further|].
      exists p'. auto.
Qed.

(** The adjustment rewrites only the slots it collected: with draws missing, a
    slot either keeps its outcome or was not a draw, belongs to a match whose
    draw probability exceeds 0.20 and becomes a draw; with draws in excess, a
    slot either keeps its outcome or was a draw and receives the suggested
    outcome of its match. *)
Theorem ajustarEmpates_solo_candidatos (quiniela ajustada : Quiniela)
    (partidosClasificados : list PartidoClasificado) :
  ajustarEmpates quiniela partidosClasificados = Devuelve ajustada ->
  forall i,
    ajustada !! i = quiniela !! i \/
    ((empates quiniela < EMPATES_MIN)%nat /\ ajustada !! i = Some E /\
     exists r (p : PartidoClasificado),
       quiniela !! i = Some r /\ Resultado_eqb r E = false /\
       partidosClasificados !! i = Some p /\ 0.20 < prob_empate p) \/
    ((EMPATES_MAX < empates quiniela)%nat /\ quiniela !! i = Some E /\
     exists p : PartidoClasificado,
       partidosClasificados !! i = Some p /\
       ajustada !! i = Some (resultadoSugerido p)).
Proof.
  unfold ajustarEmpates. intros H i.
  destruct (Nat.ltb_spec (empates quiniela) EMPATES_MIN) as [Hmin|Hmin].
  - destruct (candidatosFaltantes partidosClasificados 0 quiniela)
      as [cs|e] eqn:Hcs; [|discriminate].
    cbn [mbind resultado_js_bind] in H. inversion H as [Hq]. clear H.
    unfold ponerEmpates.
    set (orden := ordenar _ cs).
    set (n := Nat.min _ _).
    destruct (poner_posicion (take n orden) quiniela i) as [Heq|[HE Hin]];
      [now left|right; left].
    split; [exact Hmin|]. split; [exact HE|].
    apply list_elem_of_fmap in Hin as (c & -> & Hc).
    apply elem_of_take in Hc as (k & Hc & _).
    apply list_elem_of_lookup_2 in Hc.
    assert (Hd := candidatosFaltantes_datos _ _ _ _ Hcs).
    rewrite <- (ordenar_perm (fun a b => Qle_bool (prob b - prob a) 0) cs) in Hd.
    rewrite Forall_forall in Hd.
    destruct (Hd c Hc) as (_ & r & p & Hr & HrE & Hp & Hgt & _).
    rewrite Nat.sub_0_r in Hr. exists r, p. auto.
  - destruct (Nat.ltb_spec EMPATES_MAX (empates quiniela)) as [Hmax|Hmax];
      [|inversion H; now left].
    destruct (candidatosEmpate partidosClasificados 0 quiniela)
      as [cs|e] eqn:Hcs; [|discriminate].
    cbn [mbind resultado_js_bind] in H. unfold quitarEmpates in H.
    set (orden := ordenar _ cs) in H.
    set (n := Nat.min _ _) in H.
    destruct (quitar_posicion _ _ _ _ i H) as [Heq|(Hin & p & Hp & Hq')];
      [now left|right; right].
    split; [exact Hmax|].
    apply list_elem_of_fmap in Hin as (c & -> & Hc).
    apply elem_of_take in Hc as (k & Hc & _).
    apply list_elem_of_lookup_2 in Hc.
    assert (Hd := candidatosEmpate_datos _ _ _ _ Hcs).
    rewrite <- (ordenar_perm (fun a b => Qle_bool (prob a - prob b) 0) cs) in Hd.
    rewrite Forall_forall in Hd.
    destruct (Hd c Hc) as (_ & HE & _).
    rewrite Nat.sub_0_r in HE. split; [exact HE|]. exists p. auto.
Qed.

Lemma ajustarEmpates_solo_candidatos_testigo :
  ajustarEmpates (repeat L 14) partidos_pivote_y_anclas
  = Devuelve [E; E; E; E; L; L; L; L; L; L; L; L; L; L] /\
  forall i,
    [E; E; E; E; L; L; L; L; L; L; L; L; L; L] !! i = repeat L 14 !! i \/
    ((empates (repeat L 14) < EMPATES_MIN)%nat /\
     [E; E; E; E; L; L; L; L; L; L; L; L; L; L] !! i = Some E /\
     exists r (p : PartidoClasificado),
       repeat L 14 !! i = Some r /\ Resultado_eqb r E = false /\
       partidos_pivote_y_anclas !! i = Some p /\ 0.20 < prob_empate p) \/
    ((EMPATES_MAX < empates (repeat L 14))%nat /\ repeat L 14 !! i = Some E /\
     exists p : PartidoClasificado,
       partidos_pivote_y_anclas !! i = Some p /\
       [E; E; E; E; L; L; L; L; L; L; L; L; L; L] !! i
       = Some (resultadoSugerido p)).
Proof.
  split; [reflexivity|].
  apply (ajustarEmpates_solo_candidatos (repeat L 14)
           [E; E; E; E; L; L; L; L; L; L; L; L; L; L] partidos_pivote_y_anclas).
  reflexivity.
Defined.

(** The slots that the adjustment rewrites, and those it leaves. *)
Lemma ajustarEmpates_posiciones (quiniela ajustada : Quiniela)
    (partidosClasificados : list PartidoClasificado) :
  ajustarEmpates quiniela partidosClasificados = Devuelve ajustada ->
  forall i,
    ajustada !! i = quiniela !! i \/
    ((empates quiniela < EMPATES_MIN)%nat /\ ajustada !! i = Some E /\
     exists r (p : PartidoClasificado),
       quiniela !! i = Some r /\ Resultado_eqb r E = false /\
       partidosClasificados !! i = Some p /\ 0.20 < prob_empate p) \/
    ((EMPATES_MAX < empates quiniela)%nat /\ quiniela !! i = Some E /\
     exists p : PartidoClasificado,
       partidosClasificados !! i = Some p /\
       ajustada !! i = Some (resultadoSugerido p)).
Proof.
  unfold ajustarEmpates. intros H i.
  destruct (Nat.ltb_spec (empates quiniela) EMPATES_MIN) as [Hmin|Hmin].
  - destruct (candidatosFaltantes partidosClasificados 0 quiniela)
      as [cs|e] eqn:Hcs; [|discriminate].
    cbn [mbind resultado_js_bind] in H. inversion H as [Hq]. clear H.
    unfold ponerEmpates.
    set (orden := ordenar _ cs).
    set (n := Nat.min _ _).
    destruct (poner_posicion (take n orden) quiniela i) as [Heq|[HE Hin]];
      [now left|right; left].
    split; [exact Hmin|]. split; [exact HE|].
    apply list_elem_of_fmap in Hin as (c & -> & Hc).
    apply elem_of_take in Hc as (k & Hc & _).
    apply list_elem_of_lookup_2 in Hc.
    assert (Hd := candidatosFaltantes_datos _ _ _ _ Hcs).
    rewrite <- (ordenar_perm (fun a b => Qle_bool (prob b - prob a) 0) cs) in Hd.
    rewrite Forall_forall in Hd.
    destruct (Hd c Hc) as (_ & r & p & Hr & HrE & Hp & Hgt & _).
    rewrite Nat.sub_0_r in Hr. exists r, p. auto.
  - destruct (Nat.ltb_spec EMPATES_MAX (empates quiniela)) as [Hmax|Hmax];
      [|inversion H; now left].
    destruct (candidatosEmpate partidosClasificados 0 quiniela)
      as [cs|e] eqn:Hcs; [|discriminate].
    cbn [mbind resultado_js_bind] in H. unfold quitarEmpates in H.
    set (orden := ordenar _ cs) in H.
    set (n := Nat.min _ _) in H.
    destruct (quitar_posicion _ _ _ _ i H) as [Heq|(Hin & p & Hp & Hq')];
      [now left|right; right].
    split; [exact Hmax|].
    apply list_elem_of_fmap in Hin as (c & -> & Hc).
    apply elem_of_take in Hc as (k & Hc & _).
    apply list_elem_of_lookup_2 in Hc.
    assert (Hd := candidatosEmpate_datos _ _ _ _ Hcs).
    rewrite <- (ordenar_perm (fun a b => Qle_bool (prob a - prob b) 0) cs) in Hd.
    rewrite Forall_forall in Hd.
    destruct (Hd c Hc) as (_ & HE & _).
    rewrite Nat.sub_0_r in HE. split; [exact HE|]. exists p. auto.
Qed.

Lemma ajustarEmpates_fijo (quiniela ajustada : Quiniela)
    (partidosClasificados : list PartidoClasificado) (i : nat) (r : Resultado)
    (p : PartidoClasificado) :
  ajustarEmpates quiniela partidosClasificados = Devuelve ajustada ->
  quiniela !! i = Some r -> partidosClasificados !! i = Some p ->
  fijo quiniela r p -> ajustada !! i = Some r.
Proof.
  intros Haj Hr Hp [Hadd Hrem].
  destruct (ajustarEmpates_posiciones _ _ _ Haj i)
    as [Heq|[(Hmin & _ & r' & p' & Hr' & HrE & Hp' & Hgt)
            |(Hmax & HE & p' & Hp' & Hq)]].
  - now rewrite Heq.
  - exfalso. assert (r' = r) by congruence. assert (p' = p) by congruence.
    subst r' p'. destruct (Hadd Hmin) as [->|Hle]; [discriminate|lra].
  - assert (r = E) by congruence. assert (p' = p) by congruence. subst r p'.
    destruct (Hrem Hmax) as [Hne|Hs]; [contradiction|]. now rewrite Hq, Hs.
Qed.


(** The insertion sort orders by the comparator. *)
Lemma insertar_sorted {A} (antes : A -> A -> bool) (R : relation A) :
  (forall x y, antes x y = true -> R x y) ->
  (forall x y, antes x y = false -> R y x) ->
  Transitive R ->
  forall x l, StronglySorted R l -> StronglySorted R (insertar antes x l).
Proof.
  intros Ht Hf Htrans x l. induction 1 as [|y l Hs IH Hall]; cbn [insertar].
  - repeat constructor.
  - destruct (antes x y) eqn:Hxy.
    + constructor; [now constructor|]. constructor; [now apply Ht|].
      eapply Forall_impl; [exact Hall|]. intros z Hz.
      transitivity y; [now apply Ht|exact Hz].
    + constructor; [exact IH|].
      rewrite insertar_perm. constructor; [now apply Hf|exact Hall].
Qed.

Lemma ordenar_sorted {A} (antes : A -> A -> bool) (R : relation A) :
  (forall x y, antes x y = true -> R x y) ->
  (forall x y, antes x y = false -> R y x) ->
  Transitive R ->
  forall l, StronglySorted R (ordenar antes l).
Proof.
  intros Ht Hf Htrans l. induction l as [|x l IH]; cbn [ordenar fold_right].
  - constructor.
  - now apply insertar_sorted.
Qed.

Lemma orden_descendente (cs : list Candidato) :
  StronglySorted (fun a b => prob b <= prob a)
    (ordenar (fun a b => Qle_bool (prob b - prob a) 0) cs).
Proof.
  apply ordenar_sorted.
  - intros x y H. apply Qle_bool_iff in H. lra.
  - intros x y H. destruct (Qle_bool_spec (prob y - prob x) 0); [discriminate|lra].
  - intros x y z Hxy Hyz. lra.
Qed.

Lemma orden_ascendente (cs : list Candidato) :
  StronglySorted (fun a b => prob a <= prob b)
    (ordenar (fun a b => Qle_bool (prob a - prob b) 0) cs).
Proof.
  apply ordenar_sorted.
  - intros x y H. apply Qle_bool_iff in H. lra.
  - intros x y H. destruct (Qle_bool_spec (prob x - prob y) 0); [discriminate|lra].
  - intros x y z Hxy Hyz. lra.
Qed.

Lemma candidatosFaltantes_completo (ps : list PartidoClasificado) (q : Quiniela) :
  forall k cs j r (p : PartidoClasificado),
    candidatosFaltantes ps k q = Devuelve cs ->
    q !! j = Some r -> Resultado_eqb r E = false ->
    ps !! (k + j)%nat = Some p -> 0.20 < prob_empate p ->
    exists c, c ∈ cs /\ index c = (k + j)%nat /\ prob c = prob_empate p.
Proof.
  induction q as [|r0 q IH]; intros k cs j r p H Hj Hr Hp Hgt;
    [destruct j; discriminate|].
  cbn [candidatosFaltantes] in H.
  destruct j as [|j]; simpl in Hj.
  - inversion Hj; subst r0. rewrite Hr in H. rewrite Nat.add_0_r in Hp.
    rewrite Hp in H.
    destruct (candidatosFaltantes ps (S k) q) as [cs'|e]; [|discriminate].
    cbn [mbind resultado_js_bind] in H.
    destruct (mayor_spec (prob_empate p) 0.20); [|contradiction].
    inversion H. eexists. split; [apply list_elem_of_here|].
    cbn [index prob]. split; [lia|reflexivity].
  - replace (k + S j)%nat with (S k + j)%nat in Hp by lia.
    assert (Hrec : forall cs', candidatosFaltantes ps (S k) q = Devuelve cs' ->
              exists c, c ∈ cs' /\ index c = (k + S j)%nat
                        /\ prob c = prob_empate p).
    { intros cs' Hcs'. destruct (IH _ _ _ _ _ Hcs' Hj Hr Hp Hgt) as (c & ? & ? & ?).
      exists c. repeat split; trivial. lia. }
    destruct (Resultado_eqb r0 E); [now apply Hrec|].
    destruct (ps !! k) as [p0|]; [|discriminate].
    destruct (candidatosFaltantes ps (S k) q) as [cs'|e]; [|discriminate].
    cbn [mbind resultado_js_bind] in H.
    destruct (Hrec cs' eq_refl) as (c & Hc & Hidx & Hprob).
    exists c. split; [|auto].
    destruct (mayor (prob_empate p0) 0.20); inversion H; subst cs;
      [now apply list_elem_of_further|exact Hc].
Qed.

Lemma candidatosEmpate_completo (ps : list PartidoClasificado) (q : Quiniela) :
  forall k cs j (p : PartidoClasificado),
    candidatosEmpate ps k q = Devuelve cs ->
    q !! j = Some E -> ps !! (k + j)%nat = Some p ->
    exists c, c ∈ cs /\ index c = (k + j)%nat /\ prob c = prob_empate p.
Proof.
  induction q as [|r0 q IH]; intros k cs j p H Hj Hp; [destruct j; discriminate|].
  cbn [candidatosEmpate] in H.
  destruct j as [|j]; simpl in Hj.
  - inversion Hj; subst r0. cbn [Resultado_eqb] in H. rewrite Nat.add_0_r in Hp.
    rewrite Hp in H.
    destruct (candidatosEmpate ps (S k) q) as [cs'|e]; [|discriminate].
    cbn [mbind resultado_js_bind] in H.
    inversion H. eexists. split; [apply list_elem_of_here|].
    cbn [index prob]. split; [lia|reflexivity].
  - replace (k + S j)%nat with (S k + j)%nat in Hp by lia.
    assert (Hrec : forall cs', candidatosEmpate ps (S k) q = Devuelve cs' ->
              exists c, c ∈ cs' /\ index c = (k + S j)%nat
                        /\ prob c = prob_empate p).
    { intros cs' Hcs'. destruct (IH _ _ _ _ Hcs' Hj Hp) as (c & ? & ? & ?).
      exists c. repeat split; trivial. lia. }
    destruct (Resultado_eqb r0 E); [|now apply Hrec].
    destruct (ps !! k) as [p0|]; [|discriminate].
    destruct (candidatosEmpate ps (S k) q) as [cs'|e]; [|discriminate].
    cbn [mbind resultado_js_bind] in H.
    destruct (Hrec cs' eq_refl) as (c & Hc & Hidx & Hprob).
    exists c. split; [|auto]. inversion H; subst cs.
    now apply list_elem_of_further.
Qed.

Lemma poner_pone (cs : list Candidato) :
  forall (q : Quiniela) i,
    i ∈ index <$> cs -> (i < length q)%nat ->
    fold_left (fun q c => <[index c := E]> q) cs q !! i = Some E.
Proof.
  induction cs as [|c cs IH]; intros q i Hin Hlt; cbn [fold_left].
  - rewrite fmap_nil in Hin. now apply elem_of_nil in Hin.
  - rewrite fmap_cons in Hin. apply elem_of_cons in Hin as [->|Hin].
    + destruct (poner_posicion cs (<[index c := E]> q) (index c)) as [Heq|[HE _]];
        [|exact HE].
      rewrite Heq. now apply list_lookup_insert_eq.
    + apply IH; [exact Hin|]. now rewrite length_insert.
Qed.

Lemma quitar_pone (ps : list PartidoClasificado) (cs : list Candidato) :
  forall (q q' : Quiniela) i (p : PartidoClasificado),
    fold_left
      (fun (acc : resultado_js Quiniela) c =>
         q ← acc;
         match (ps !! index c : option PartidoClasificado) with
         | None => Lanza TypeError
         | Some partido => Devuelve (<[index c := resultadoSugerido partido]> q)
         end) cs (Devuelve q) = Devuelve q' ->
    i ∈ index <$> cs -> (i < length q)%nat -> ps !! i = Some p ->
    q' !! i = Some (resultadoSugerido p).
Proof.
  induction cs as [|c cs IH]; intros q q' i p H Hin Hlt Hp; cbn [fold_left] in H.
  - rewrite fmap_nil in Hin. now apply elem_of_nil in Hin.
  - cbn [mbind resultado_js_bind] in H.
    destruct (ps !! index c) as [p0|] eqn:Hp0;
      [|rewrite quitar_lanza in H; discriminate].
    rewrite fmap_cons in Hin. apply elem_of_cons in Hin as [->|Hin].
    + assert (p0 = p) by congruence. subst p0.
      destruct (quitar_posicion _ _ _ _ (index c) H) as [Heq|(_ & p' & Hp' & Hq')].
      * rewrite Heq. now apply list_lookup_insert_eq.
      * congruence.
    + eapply IH; eauto. now rewrite length_insert.
Qed.

(** The order of preference of the adjustment.  With draws missing, a slot that
    was turned into a draw belongs to a match whose draw is at least as probable
    as that of any candidate slot left as it was.  With draws in excess, a draw
    that was reverted belongs to a match whose draw is at most as probable as
    that of any draw left in place whose suggested outcome is not the draw. *)
Theorem ajustarEmpates_preferencia (quiniela ajustada : Quiniela)
    (partidosClasificados : list PartidoClasificado) :
  ajustarEmpates quiniela partidosClasificados = Devuelve ajustada ->
  forall i j (ri rj : Resultado) (pi pj : PartidoClasificado),
    quiniela !! i = Some ri -> quiniela !! j = Some rj ->
    partidosClasificados !! i = Some pi -> partidosClasificados !! j = Some pj ->
    ((empates quiniela < EMPATES_MIN)%nat ->
     Resultado_eqb ri E = false -> ajustada !! i = Some E ->
     Resultado_eqb rj E = false -> ajustada !! j = Some rj ->
     0.20 < prob_empate pj ->
     prob_empate pj <= prob_empate pi) /\
    ((EMPATES_MAX < empates quiniela)%nat ->
     ri = E -> Resultado_eqb (resultadoSugerido pi) E = false ->
     ajustada !! i = Some (resultadoSugerido pi) ->
     rj = E -> Resultado_eqb (resultadoSugerido pj) E = false ->
     ajustada !! j = Some E ->
     prob_empate pi <= prob_empate pj).
Proof.
  unfold ajustarEmpates. intros H i j ri rj pi pj Hi Hj Hpi Hpj.
  assert (Hli := lookup_lt_Some _ _ _ Hi). assert (Hlj := lookup_lt_Some _ _ _ Hj).
  split.
  - intros Hmin HriE Hai HrjE Haj Hgt.
    destruct (Nat.ltb_spec (empates quiniela) EMPATES_MIN); [|lia].
    destruct (candidatosFaltantes partidosClasificados 0 quiniela)
      as [cs|e] eqn:Hcs; [|discriminate].
    cbn [mbind resultado_js_bind] in H. inversion H as [Hq]. clear H.
    unfold ponerEmpates in Hq.
    set (orden := ordenar (fun a b => Qle_bool (prob b - prob a) 0) cs) in *.
    set (n := Nat.min _ _) in Hq.
    assert (Hd := candidatosFaltantes_datos _ _ _ _ Hcs).
    rewrite Forall_forall in Hd.
    assert (Hperm : orden ≡ₚ cs) by apply ordenar_perm.
    (* the slot turned into a draw is among the first [n] *)
    destruct (poner_posicion (take n orden) quiniela i) as [Heq|[_ Hin]].
    { rewrite Hq, Hai, Hi in Heq. inversion Heq; subst ri. discriminate. }
    apply list_elem_of_fmap in Hin as (ci & Hidx & Hci).
    assert (Hci' : ci ∈ cs).
    { rewrite <- Hperm. eapply elem_of_sublist; [exact Hci|apply sublist_take]. }
    destruct (Hd ci Hci') as (_ & _ & p & _ & _ & Hp & _ & Hprob).
    rewrite <- Hidx, Hpi in Hp. inversion Hp; subst p.
    (* the candidate left as it was is among the others *)
    destruct (candidatosFaltantes_completo _ _ 0 cs j rj pj Hcs Hj HrjE Hpj Hgt)
      as (cj & Hcj & Hjdx & Hprobj).
    assert (Hcj' : cj ∈ take n orden ++ drop n orden)
      by (rewrite take_drop, Hperm; exact Hcj).
    apply elem_of_app in Hcj' as [Hcj'|Hcj'].
    { assert (HE : ajustada !! j = Some E).
      { rewrite <- Hq. apply poner_pone; [|exact Hlj].
        apply list_elem_of_fmap. exists cj. split; [lia|exact Hcj']. }
      rewrite Haj in HE. inversion HE; subst rj. discriminate. }
    pose proof (orden_descendente cs) as Hs. fold orden in Hs.
    rewrite <- (take_drop n orden) in Hs.
    pose proof (StronglySorted_app_1_elem_of _ _ _ _ _ Hs Hci Hcj') as Hle.
    cbn beta in Hle. rewrite Hprob, Hprobj in Hle. exact Hle.
  - intros Hmax -> HsiE Hai -> HsjE Haj.
    destruct (Nat.ltb_spec (empates quiniela) EMPATES_MIN);
      [unfold EMPATES_MIN, EMPATES_MAX in *; lia|].
    destruct (Nat.ltb_spec EMPATES_MAX (empates quiniela)); [|lia].
    destruct (candidatosEmpate partidosClasificados 0 quiniela)
      as [cs|e] eqn:Hcs; [|discriminate].
    cbn [mbind resultado_js_bind] in H. unfold quitarEmpates in H.
    set (orden := ordenar (fun a b => Qle_bool (prob a - prob b) 0) cs) in *.
    set (n := Nat.min _ _) in H.
    assert (Hd := candidatosEmpate_datos _ _ _ _ Hcs).
    rewrite Forall_forall in Hd.
    assert (Hperm : orden ≡ₚ cs) by apply ordenar_perm.
    destruct (quitar_posicion _ _ _ _ i H) as [Heq|(Hin & _)].
    { rewrite Hai, Hi in Heq. inversion Heq as [Heq']. rewrite Heq' in HsiE.
      discriminate. }
    apply list_elem_of_fmap in Hin as (ci & Hidx & Hci).
    assert (Hci' : ci ∈ cs).
    { rewrite <- Hperm. eapply elem_of_sublist; [exact Hci|apply sublist_take]. }
    destruct (Hd ci Hci') as (_ & _ & p & Hp & Hprob).
    rewrite <- Hidx, Hpi in Hp. inversion Hp; subst p.
    destruct (candidatosEmpate_completo _ _ 0 cs j pj Hcs Hj Hpj)
      as (cj & Hcj & Hjdx & Hprobj).
    assert (Hcj' : cj ∈ take n orden ++ drop n orden)
      by (rewrite take_drop, Hperm; exact Hcj).
    apply elem_of_app in Hcj' as [Hcj'|Hcj'].
    { assert (HE : ajustada !! j = Some (resultadoSugerido pj)).
      { eapply quitar_pone; [exact H| |exact Hlj|exact Hpj].
        apply list_elem_of_fmap. exists cj. split; [lia|exact Hcj']. }
      rewrite Haj in HE. inversion HE as [HE']. rewrite <- HE' in HsjE.
      discriminate. }
    pose proof (orden_ascendente cs) as Hs. fold orden in Hs.
    rewrite <- (take_drop n orden) in Hs.
    pose proof (StronglySorted_app_1_elem_of _ _ _ _ _ Hs Hci Hcj') as Hle.
    cbn beta in Hle. rewrite Hprob, Hprobj in Hle. exact Hle.
Qed.

Lemma ajustarEmpates_preferencia_testigo :
  ajustarEmpates (repeat L 14) partidos_pivote_y_anclas
  = Devuelve [E; E; E; E; L; L; L; L; L; L; L; L; L; L] /\
  forall i j (ri rj : Resultado) (pi pj : PartidoClasificado),
    repeat L 14 !! i = Some ri -> repeat L 14 !! j = Some rj ->
    partidos_pivote_y_anclas !! i = Some pi ->
    partidos_pivote_y_anclas !! j = Some pj ->
    ((empates (repeat L 14) < EMPATES_MIN)%nat ->
     Resultado_eqb ri E = false ->
     [E; E; E; E; L; L; L; L; L; L; L; L; L; L] !! i = Some E ->
     Resultado_eqb rj E = false ->
     [E; E; E; E; L; L; L; L; L; L; L; L; L; L] !! j = Some rj ->
     0.20 < prob_empate pj ->
     prob_empate pj <= prob_empate pi) /\
    ((EMPATES_MAX < empates (repeat L 14))%nat ->
     ri = E -> Resultado_eqb (resultadoSugerido pi) E = false ->
     [E; E; E; E; L; L; L; L; L; L; L; L; L; L] !! i
     = Some (resultadoSugerido pi) ->
     rj = E -> Resultado_eqb (resultadoSugerido pj) E = false ->
     [E; E; E; E; L; L; L; L; L; L; L; L; L; L] !! j = Some E ->
     prob_empate pi <= prob_empate pj).
Proof.
  split; [reflexivity|].
  apply (ajustarEmpates_preferencia (repeat L 14)
           [E; E; E; E; L; L; L; L; L; L; L; L; L; L] partidos_pivote_y_anclas).
  reflexivity.
Defined.

End AjusteEmpatesMas.

(** ** PortfolioGenerator: the pivot and the satellite pairs *)
Section SatelitesMas.
Import MatchClassifier PortfolioGenerator.

Lemma partidosDivisorDe_elem (ps : list PartidoClasificado) (d : PartidoDivisor) :
  d ∈ partidosDivisorDe ps <->
  ps !! pd_index d = Some (pd_partido d) /\
  clasificacion (pd_partido d) = Divisor.
Proof.
  unfold partidosDivisorDe. rewrite list_elem_of_filter, elem_of_lookup_imap.
  split.
  - intros [Hc (i & p & -> & Hp)]. cbn in *. split; [exact Hp|].
    now destruct (Clasificacion_eqb_spec (clasificacion p) Divisor).
  - intros [Hp Hc]. split.
    + rewrite Hc. reflexivity.
    + exists (pd_index d), (pd_partido d). split; [now destruct d|exact Hp].
Qed.

Lemma partidosDivisorDe_posiciones (ps : list PartidoClasificado) :
  forall i,
    pd_index <$> filter
      (fun d => Clasificacion_eqb (clasificacion (pd_partido d)) Divisor = true)
      (imap (fun j p => {| pd_partido := p; pd_index := i + j |}) ps)
    = posicionesDivisor i ps.
Proof.
  induction ps as [|p ps IH]; intros i; [reflexivity|].
  rewrite imap_cons, filter_cons. cbn [posicionesDivisor pd_partido].
  assert (Hext : imap ((fun j p => {| pd_partido := p; pd_index := i + j |}) ∘ S) ps
                 = imap (fun j p => {| pd_partido := p; pd_index := S i + j |}) ps).
  { apply imap_ext. intros j x _. cbn. f_equal. lia. }
  rewrite Hext.
  destruct (Clasificacion_eqb (clasificacion p) Divisor) eqn:Hc.
  - rewrite decide_True by reflexivity.
    rewrite fmap_cons, IH. cbn [pd_index]. f_equal. lia.
  - rewrite decide_False by discriminate. apply IH.
Qed.

(** The pivot of a pair.  The pair number selects it cyclically among the
    Divisor matches: with n Divisor matches the pivot of pair [parId] is the
    position of the Divisor match number [parId mod n], counted from 0 in the
    order of the matches.  Without any Divisor match it is the first match;
    with one, it is the position of a Divisor match. *)
Theorem partidoPrincipal_divisor (ps : list PartidoClasificado) (parId : nat) :
  partidoPrincipal (partidosDivisorDe ps) parId
  = default 0%nat
      (posicionesDivisor 0 ps !! (parId mod length (posicionesDivisor 0 ps))%nat) /\
  (Forall (fun p => Clasificacion_eqb (clasificacion p) Divisor = false) ps ->
   partidoPrincipal (partidosDivisorDe ps) parId = 0%nat) /\
  (Exists (fun p => clasificacion p = Divisor) ps ->
   exists p : PartidoClasificado,
     ps !! partidoPrincipal (partidosDivisorDe ps) parId = Some p /\
     clasificacion p = Divisor) /\
  partidoPrincipal (partidosDivisorDe ps)
    (parId + length (partidosDivisorDe ps))
  = partidoPrincipal (partidosDivisorDe ps) parId.
Proof.
  split.
  { pose proof (partidosDivisorDe_posiciones ps 0) as Hpos.
    change (imap (fun j p => {| pd_partido := p; pd_index := 0 + j |}) ps)
      with (imap (fun j p => {| pd_partido := p; pd_index := j |}) ps) in Hpos.
    fold (partidosDivisorDe ps) in Hpos.
    rewrite <- Hpos, length_fmap, list_lookup_fmap. unfold partidoPrincipal.
    now destruct (partidosDivisorDe ps !! _). }

  repeat split.
  - intros Hno. unfold partidoPrincipal.
    destruct (partidosDivisorDe ps !! _) as [d|] eqn:Hd; [|reflexivity].
    apply list_elem_of_lookup_2 in Hd. apply partidosDivisorDe_elem in Hd as [Hp Hc].
    apply list_elem_of_lookup_2 in Hp. rewrite Forall_forall in Hno.
    specialize (Hno _ Hp). rewrite Hc in Hno. discriminate.
  - intros Hex. apply Exists_exists in Hex as (p & Hp & Hc).
    apply list_elem_of_lookup_1 in Hp as [i Hi].
    assert (Hin : {| pd_partido := p; pd_index := i |} ∈ partidosDivisorDe ps)
      by (apply partidosDivisorDe_elem; auto).
    assert (Hlen : (0 < length (partidosDivisorDe ps))%nat).
    { destruct (partidosDivisorDe ps); [now apply elem_of_nil in Hin|simpl; lia]. }
    unfold partidoPrincipal.
    destruct (lookup_lt_is_Some_2 (partidosDivisorDe ps)
                (parId mod length (partidosDivisorDe ps))) as [d Hd].
    { apply Nat.mod_upper_bound. lia. }
    rewrite Hd. apply list_elem_of_lookup_2 in Hd.
    apply partidosDivisorDe_elem in Hd as [Hpd Hcd]. eauto.
  - unfold partidoPrincipal.
    replace (parId + length (partidosDivisorDe ps))%nat
      with (parId + 1 * length (partidosDivisorDe ps))%nat by lia.
    destruct (length (partidosDivisorDe ps)) eqn:Hlen.
    + apply length_zero_iff_nil in Hlen. rewrite Hlen.
      now rewrite !lookup_nil.
    + now rewrite Nat.Div0.mod_add.
Qed.

Lemma parSatelites_desde_forma (principal : nat) (azar : nat -> Q)
    (ps : list PartidoClasificado) :
  forall k i,
    (parSatelites_desde principal azar k i ps).1.1 = resultadoSugerido <$> ps /\
    length (parSatelites_desde principal azar k i ps).1.2 = length ps.
Proof.
  induction ps as [|p ps IH]; intros k i; [split; reflexivity|].
  cbn [parSatelites_desde].
  destruct (i =? principal)%nat;
    [|destruct (Clasificacion_eqb (clasificacion p) Ancla);
      [|destruct (menor (azar k) 0.3)]];
    match goal with
    | |- context [parSatelites_desde ?a ?b ?c ?d ?e] =>
        destruct (IH c d) as [HA HB];
        destruct (parSatelites_desde a b c d e) as [[qa qb] k']
    end; cbn in *; rewrite HA, HB; split; reflexivity.
Qed.

Lemma crearParSatelites_forma (ps : list PartidoClasificado)
    (pd : list PartidoDivisor) (parId : nat) (azar : nat -> Q) :
  exists a b,
    crearParSatelites ps pd parId azar = Devuelve (a, b) /\
    ajustarEmpates (resultadoSugerido <$> ps) ps = Devuelve a /\
    length a = length ps /\ length b = length ps.
Proof.
  unfold crearParSatelites, parSinAjustar.
  destruct (parSatelites_desde_forma (partidoPrincipal pd parId) azar ps 0 0)
    as [HA HB].
  destruct (parSatelites_desde (partidoPrincipal pd parId) azar 0 0 ps)
    as [[qa qb] k]. cbn in HA, HB. cbn [fst]. subst qa.
  destruct (ajustarEmpates_cotas (resultadoSugerido <$> ps) ps)
    as (a & Ha & Hla & _); [rewrite length_fmap; lia|].
  destruct (ajustarEmpates_cotas qb ps) as (b & Hb & Hlb & _); [lia|].
  exists a, b. rewrite Ha, Hb. cbn [mbind resultado_js_bind].
  rewrite Hla, Hlb, length_fmap. auto.
Qed.

(** [crearParSatelites] always returns two tickets with one slot per match.
    Ticket A does not depend on the pair number, the pivot or the samples: it
    is the adjustment of the ticket of all suggested outcomes. *)
Theorem crearParSatelites_devuelve (ps : list PartidoClasificado)
    (pd : list PartidoDivisor) (parId : nat) (azar : nat -> Q) :
  exists a b,
    crearParSatelites ps pd parId azar = Devuelve (a, b) /\
    ajustarEmpates (resultadoSugerido <$> ps) ps = Devuelve a /\
    length a = length ps /\ length b = length ps.
Proof. apply crearParSatelites_forma. Qed.

(** The pivot slots after the adjustment: ticket A holds the suggested outcome
    or a draw that the add path wrote, ticket B the alternative outcome, a draw
    that the add path wrote, or the suggested outcome that the remove path
    wrote back. *)
Lemma ajustarEmpates_pivote (quiniela ajustada : Quiniela)
    (partidosClasificados : list PartidoClasificado) (i : nat) (r : Resultado)
    (p : PartidoClasificado) :
  ajustarEmpates quiniela partidosClasificados = Devuelve ajustada ->
  quiniela !! i = Some r -> partidosClasificados !! i = Some p ->
  ajustada !! i = Some r \/
  (~ sin_agregar quiniela r p /\ ajustada !! i = Some E) \/
  (~ sin_quitar quiniela r p /\ ajustada !! i = Some (resultadoSugerido p)).
Proof.
  intros Haj Hr Hp.
  destruct (ajustarEmpates_posiciones _ _ _ Haj i)
    as [Heq|[(Hmin & HE & r' & p' & Hr' & HrE & Hp' & Hgt)
            |(Hmax & HE & p' & Hp' & Hq)]].
  - left. now rewrite Heq.
  - right; left. split; [|exact HE].
    assert (r' = r) by congruence. assert (p' = p) by congruence. subst r' p'.
    intros Hs. destruct (Hs Hmin) as [->|Hle]; [discriminate|lra].
  - assert (r = E) by congruence. assert (p' = p) by congruence. subst r p'.
    destruct (Resultado_eqb_spec (resultadoSugerido p) E) as [Hs|Hs].
    + left. now rewrite Hq, Hs.
    + right; right. split; [|exact Hq].
      intros Hq'. destruct (Hq' Hmax) as [Hne|HsE]; contradiction.
Qed.

(** C4, as the code has it.  [crearParSatelites] always returns a pair.
    - At the pivot, ticket A holds the suggested outcome of the pivot match
      when the draw adjustment leaves its pivot slot as it is, and ticket B
      the alternative outcome when the adjustment leaves its pivot slot as it
      is.
    - The tickets differ at the pivot when the two outcomes differ, the remove
      path leaves the pivot slot of ticket B as it is, and either the add path
      leaves the pivot slot of ticket A as it is and the suggested outcome is
      not the draw or the add path leaves the pivot slot of ticket B as well,
      or the add path leaves the pivot slot of ticket B as it is and the
      alternative outcome is not the draw.
    - At every slot other than the pivot whose match is classified Ancla the
      tickets agree when neither ticket leaves the loop with fewer than
      EMPATES_MIN draws, or the draw probability of the match is at most 0.20,
      or its suggested outcome is the draw. *)
Theorem crearParSatelites_par (partidosClasificados : list PartidoClasificado)
    (partidosDivisor : list PartidoDivisor) (parId : nat) (azar : nat -> Q) :
  let principal := partidoPrincipal partidosDivisor parId in
  let quinielaA :=
    (parSinAjustar partidosClasificados partidosDivisor parId azar).1 in
  let quinielaB :=
    (parSinAjustar partidosClasificados partidosDivisor parId azar).2 in
  exists satA satB,
    crearParSatelites partidosClasificados partidosDivisor parId azar
    = Devuelve (satA, satB) /\
    (forall p : PartidoClasificado,
        partidosClasificados !! principal = Some p ->
        (fijo quinielaA (resultadoSugerido p) p ->
         satA !! principal = Some (resultadoSugerido p)) /\
        (fijo quinielaB (getResultadoAlternativo p) p ->
         satB !! principal = Some (getResultadoAlternativo p)) /\
        (getResultadoAlternativo p <> resultadoSugerido p ->
         sin_quitar quinielaB (getResultadoAlternativo p) p ->
         (sin_agregar quinielaA (resultadoSugerido p) p /\
          (sin_agregar quinielaB (getResultadoAlternativo p) p \/
           resultadoSugerido p <> E)) \/
         (sin_agregar quinielaB (getResultadoAlternativo p) p /\
          getResultadoAlternativo p <> E) ->
         satA !! principal <> satB !! principal)) /\
    (forall j (p : PartidoClasificado),
        partidosClasificados !! j = Some p -> clasificacion p = Ancla ->
        j <> principal ->
        ((EMPATES_MIN <= empates quinielaA)%nat /\
         (EMPATES_MIN <= empates quinielaB)%nat) \/
        prob_empate p <= 0.20 \/ resultadoSugerido p = E ->
        satA !! j = Some (resultadoSugerido p) /\ satB !! j = satA !! j).
Proof.
  intros principal. cbv zeta.
  unfold crearParSatelites, parSinAjustar. fold principal.
  destruct (parSatelites_desde_forma principal azar partidosClasificados 0 0)
    as [HfA HfB].
  destruct (parSatelites_desde principal azar 0 0 partidosClasificados)
    as [[qa qb] k] eqn:Hloop.
  cbn [fst snd] in *.
  pose proof (parSatelites_desde_posicion _ _ _ _ _ _ _ _ Hloop) as Hpos.
  destruct (ajustarEmpates_cotas qa partidosClasificados)
    as (a & Ha & _); [rewrite HfA, length_fmap; lia|].
  destruct (ajustarEmpates_cotas qb partidosClasificados)
    as (b & Hb & _); [lia|].
  exists a, b. rewrite Ha, Hb. split; [reflexivity|]. split.
  - intros p Hp.
    destruct (Hpos _ _ Hp) as (HA & HB & _). specialize (HB eq_refl).
    split; [intros Hf; exact (ajustarEmpates_fijo _ _ _ _ _ _ Ha HA Hp Hf)|].
    split; [intros Hf; exact (ajustarEmpates_fijo _ _ _ _ _ _ Hb HB Hp Hf)|].
    intros Hne HquitarB Hcasos.
    assert (HquitarA : sin_quitar qa (resultadoSugerido p) p).
    { intros _. destruct (resultadoSugerido p);
        [left; discriminate|now right|left; discriminate]. }
    destruct (ajustarEmpates_pivote _ _ _ _ _ _ Ha HA Hp)
      as [Ea|[[HnA Ea]|[HnA _]]]; [| |contradiction];
      destruct (ajustarEmpates_pivote _ _ _ _ _ _ Hb HB Hp)
        as [Eb|[[HnB Eb]|[HnB _]]]; try contradiction;
      rewrite Ea, Eb; intros Heq; inversion Heq as [Heq'];
      destruct Hcasos as [[HsA [HsB|HsE]]|[HsB HaE]];
      try contradiction; congruence.
  - intros j p Hp Hancla Hj Hcond.
    destruct (Hpos _ _ Hp) as (HA & _ & HB).
    specialize (HB Hj Hancla).
    assert (Hfijo : forall q : Quiniela,
               q = qa \/ q = qb -> fijo q (resultadoSugerido p) p).
    { intros q Hq. split.
      - intros Hmin. destruct Hcond as [[H1 H2]|[Hle|HE]]; [|now right|now left].
        destruct Hq; subst q; lia.
      - intros _. destruct (resultadoSugerido p);
          [left; discriminate|now right|left; discriminate]. }
    pose proof (ajustarEmpates_fijo _ _ _ _ _ _ Ha HA Hp
                  (Hfijo qa (or_introl eq_refl))) as Ea.
    pose proof (ajustarEmpates_fijo _ _ _ _ _ _ Hb HB Hp
                  (Hfijo qb (or_intror eq_refl))) as Eb.
    split; [exact Ea|]. now rewrite Ea, Eb.
Qed.

Lemma crearParSatelites_par_testigo :
  exists satA satB,
    crearParSatelites partidos_pivote_claro
      (partidosDivisorDe partidos_pivote_claro) 0 azar_medio
    = Devuelve (satA, satB) /\
    (satA !! 0%nat = Some L /\ satB !! 0%nat = Some E /\
     satA !! 0%nat <> satB !! 0%nat) /\
    (satA !! 6%nat = Some L /\ satB !! 6%nat = satA !! 6%nat).
Proof.
  destruct (crearParSatelites_par partidos_pivote_claro
              (partidosDivisorDe partidos_pivote_claro) 0 azar_medio)
    as (satA & satB & Hpar & Hpivote & Hancla).
  assert (H0 : exists p : PartidoClasificado,
             partidos_pivote_claro !! 0%nat = Some p /\
             resultadoSugerido p = L /\ getResultadoAlternativo p = E).
  { eexists. split; [vm_compute; reflexivity|]. split; reflexivity. }
  assert (H6 : exists p : PartidoClasificado,
             partidos_pivote_claro !! 6%nat = Some p /\
             resultadoSugerido p = L /\ clasificacion p = Ancla).
  { eexists. split; [vm_compute; reflexivity|]. split; reflexivity. }
  destruct H0 as (p0 & Hp0 & Hs0 & Ha0), H6 as (p6 & Hp6 & Hs6 & Hc6).
  exists satA, satB. split; [exact Hpar|]. split.
  - destruct (Hpivote p0 Hp0) as (HA & HB & Hdif).
    rewrite <- Hs0, <- Ha0.
    split; [apply HA; split; intros H; vm_compute in H; lia|].
    split; [apply HB; split; intros H; vm_compute in H; lia|].
    apply Hdif.
    + rewrite Hs0, Ha0. discriminate.
    + intros H; vm_compute in H; lia.
    + left. split; [intros H; vm_compute in H; lia|].
      right. rewrite Hs0. discriminate.
  - rewrite <- Hs6. apply (Hancla 6%nat p6).
    + exact Hp6.
    + exact Hc6.
    + vm_compute. discriminate.
    + left. split; vm_compute; lia.
Defined.

End SatelitesMas.

(** ** PortfolioValidator: concentration and metrics *)
Section ValidadorMas.
Import PortfolioValidator.

(** The concentration check leaves the validity flag and the metrics as they
    are, and appends either at most three warnings and no error, or no warning
    and one error that quotes three violations. *)
Theorem validarConcentracion_agrega (quinielas : list QuinielaObj)
    (validacion : Validacion) :
  es_valido (validarConcentracion quinielas validacion) = es_valido validacion /\
  metricas (validarConcentracion quinielas validacion) = metricas validacion /\
  exists ws es,
    warnings (validarConcentracion quinielas validacion)
    = warnings validacion ++ ws /\
    errores (validarConcentracion quinielas validacion)
    = errores validacion ++ es /\
    ((es = [] /\ (length ws <= 3)%nat) \/
     (ws = [] /\ exists cs, es = [MultiplesViolaciones cs] /\ length cs = 3%nat)).
Proof.
  unfold validarConcentracion.
  destruct (length quinielas =? 0)%nat.
  { repeat split. exists [], []. rewrite !app_nil_r. repeat split.
    left. split; [reflexivity|simpl; lia]. }
  destruct (Nat.ltb_spec 0 (length (concentracionesProblematicas quinielas)))
    as [Hpos|Hpos].
  - destruct (Nat.ltb_spec 3 (length (concentracionesProblematicas quinielas)))
      as [Hmany|Hfew]; cbn [es_valido metricas warnings errores].
    + repeat split. exists [], [MultiplesViolaciones
                                 (take 3 (concentracionesProblematicas quinielas))].
      rewrite app_nil_r. repeat split. right. split; [reflexivity|].
      eexists. split; [reflexivity|]. rewrite length_take. lia.
    + repeat split.
      exists (map ConcentracionPartido (concentracionesProblematicas quinielas)), [].
      rewrite app_nil_r. repeat split. left. split; [reflexivity|].
      rewrite length_map. exact Hfew.
  - repeat split. exists [], []. rewrite !app_nil_r. repeat split.
    left. split; [reflexivity|simpl; lia].
Qed.

Lemma ningunAcierto_desde_cotas (ps : list Q) :
  forall a, 0 <= a -> a <= 1 ->
    Forall (fun p => 0 <= p /\ p <= 1) ps ->
    (0 <= fold_left (fun acc prob => acc * (1 - prob)) ps a /\
     fold_left (fun acc prob => acc * (1 - prob)) ps a <= a) /\
    Forall (fun p => fold_left (fun acc prob => acc * (1 - prob)) ps a <= 1 - p) ps.
Proof.
  induction ps as [|p ps IH]; intros a Ha0 Ha1 Hall; cbn [fold_left].
  - split; [lra|constructor].
  - inversion Hall as [|? ? [Hp0 Hp1] Hall']; subst.
    assert (H0 : 0 <= a * (1 - p)) by (apply Qmult_le_0_compat; lra).
    assert (H1 : a * (1 - p) <= a) by nra.
    assert (H2 : a * (1 - p) <= 1 - p) by nra.
    destruct (IH (a * (1 - p)) H0 ltac:(lra) Hall') as [[HF0 HF1] HFall].
    split; [lra|]. constructor; [lra|exact HFall].
Qed.

(** In a portfolio that is not empty and whose ticket estimates lie between 0
    and 1, the portfolio-level metric lies between 0 and 1, and appending a
    ticket whose estimate lies between 0 and 1 does not decrease it. *)
Theorem probPortafolio_cotas (q : QuinielaObj) (qs : list QuinielaObj)
    (t : QuinielaObj) (validacion : Validacion) :
  Forall (fun t => 0 <= prob_11_plus t /\ prob_11_plus t <= 1) (q :: qs) ->
  0 <= prob_11_plus t /\ prob_11_plus t <= 1 ->
  exists x y,
    probPortafolio (q :: qs) validacion = Some x /\
    probPortafolio (q :: qs ++ [t]) validacion = Some y /\
    0 <= x /\ x <= y /\ y <= 1.
Proof.
  intros Hall [Ht0 Ht1].
  rewrite !probPortafolio_no_vacio. eexists _, _.
  split; [reflexivity|]. split; [reflexivity|].
  assert (Hps : Forall (fun p => 0 <= p /\ p <= 1) (map prob_11_plus (q :: qs)))
    by (apply Forall_map; exact Hall).
  destruct (ningunAcierto_desde_cotas _ 1 ltac:(lra) ltac:(lra) Hps)
    as [[H0 H1] _].
  fold (ningunAcierto (map prob_11_plus (q :: qs))) in H0, H1.
  assert (Happ : ningunAcierto (map prob_11_plus (q :: qs ++ [t]))
                 = ningunAcierto (map prob_11_plus (q :: qs))
                   * (1 - prob_11_plus t)).
  { change (q :: qs ++ [t]) with ((q :: qs) ++ [t]).
    unfold ningunAcierto. now rewrite map_app, fold_left_app. }
  rewrite Happ.
  set (n := ningunAcierto (map prob_11_plus (q :: qs))) in *.
  split; [lra|]. split; nra.
Qed.

Lemma probPortafolio_cotas_testigo :
  Forall (fun t => 0 <= prob_11_plus t /\ prob_11_plus t <= 1)
    [boleto [L]; boleto [E]] /\
  (0 <= prob_11_plus (boleto [V]) /\ prob_11_plus (boleto [V]) <= 1) /\
  exists x y,
    probPortafolio [boleto [L]; boleto [E]] validacion_inicial = Some x /\
    probPortafolio (boleto [L] :: [boleto [E]] ++ [boleto [V]])
      validacion_inicial = Some y /\
    0 <= x /\ x <= y /\ y <= 1.
Proof.
  assert (H1 : Forall (fun t => 0 <= prob_11_plus t /\ prob_11_plus t <= 1)
                 [boleto [L]; boleto [E]]).
  { repeat constructor; simpl; lra. }
  assert (H2 : 0 <= prob_11_plus (boleto [V]) /\ prob_11_plus (boleto [V]) <= 1)
    by (simpl; lra).
  split; [exact H1|]. split; [exact H2|].
  exact (probPortafolio_cotas (boleto [L]) [boleto [E]] (boleto [V])
           validacion_inicial H1 H2).
Defined.

Lemma iter_despues {A} (f : A -> A) (n : nat) (x : A) :
  Nat.iter n f (f x) = Nat.iter (S n) f x.
Proof.
  induction n as [|n IH]; [reflexivity|].
  change (f (Nat.iter n f (f x)) = f (Nat.iter (S n) f x)). now rewrite IH.
Qed.

Lemma contar_iguales_desde (q : QuinielaObj) (i : nat) (r : Resultado) (n : nat) :
  resultados q !! i = Some r ->
  forall c,
    fold_left
      (fun conteos quiniela =>
         match resultados quiniela !! i with
         | Some r => incrementar conteos r
         | None => conteos
         end) (repeat q n) c
    = Nat.iter n (fun c => incrementar c r) c.
Proof.
  intros Hr. induction n as [|n IH]; intros c; [reflexivity|].
  cbn [repeat fold_left]. rewrite Hr, IH.
  apply (iter_despues (fun c => incrementar c r)).
Qed.

Lemma conteo_incrementar (c : Conteos) (r r' : Resultado) :
  conteo_de (incrementar c r) r'
  = ((if Resultado_eqb r r' then 1 else 0) + conteo_de c r')%nat.
Proof. destruct r, r'; reflexivity. Qed.

Lemma iter_incrementar (r : Resultado) (n : nat) (c : Conteos) (r' : Resultado) :
  conteo_de (Nat.iter n (fun c => incrementar c r) c) r'
  = ((if Resultado_eqb r r' then n else 0) + conteo_de c r')%nat.
Proof.
  induction n as [|n IH]; [now destruct (Resultado_eqb r r')|].
  change (Nat.iter (S n) (fun c => incrementar c r) c)
    with (incrementar (Nat.iter n (fun c => incrementar c r) c) r).
  rewrite conteo_incrementar, IH. destruct (Resultado_eqb r r'); lia.
Qed.

(** In a portfolio of copies of one ticket every slot of the ticket is fully
    concentrated on its outcome. *)
Lemma concentracionDe_iguales (q : QuinielaObj) (n i : nat) (r : Resultado) :
  resultados q !! i = Some r ->
  exists c,
    concentracionDe (repeat q (S n)) i = Some c /\
    partido_numero c = (i + 1)%nat /\ maxConcentracion c == 1 /\
    resultadoConcentrado c = r.
Proof.
  intros Hr. unfold concentracionDe, contar.
  rewrite (contar_iguales_desde q i r (S n) Hr).
  pose proof (iter_incrementar r (S n) {| cL := 0; cE := 0; cV := 0 |} L) as HL.
  pose proof (iter_incrementar r (S n) {| cL := 0; cE := 0; cV := 0 |} E) as HE.
  pose proof (iter_incrementar r (S n) {| cL := 0; cE := 0; cV := 0 |} V) as HV.
  set (c := Nat.iter (S n) _ _) in *.
  cbn [conteo_de cL cE cV] in HL, HE, HV. rewrite !Nat.add_0_r in HL, HE, HV.
  rewrite HL, HE, HV, repeat_length.
  assert (Huno : de_nat (S n) / de_nat (S n) == 1).
  { apply Qmult_inv_r. unfold de_nat, Qeq. cbn. lia. }
  assert (Hmax : Nat.max (Nat.max (if Resultado_eqb r L then S n else 0)
                            (if Resultado_eqb r E then S n else 0))
                   (if Resultado_eqb r V then S n else 0) = S n)
    by (destruct r; cbn [Resultado_eqb]; lia).
  rewrite Hmax.
  match goal with
  | |- context [mayor ?a ?b] => destruct (mayor_spec a b) as [Hgt|Hgt]
  end.
  - eexists. split; [reflexivity|].
    cbn [partido_numero maxConcentracion resultadoConcentrado].
    repeat split; trivial.
    destruct r; cbn [Resultado_eqb] in HL, HE, HV;
      repeat (cbn [fold_left conteo_de Nat.ltb Nat.leb]; rewrite ?HL, ?HE, ?HV);
      reflexivity.
  - exfalso. apply Hgt. rewrite Huno.
    destruct (i <? 3)%nat; reflexivity.
Qed.

(** A portfolio made of copies of one ticket of at least four slots, a single
    ticket in particular, always draws the aggregated concentration error,
    which quotes the first three slots, and no concentration warning. *)
Theorem validarConcentracion_boletos_iguales (q : QuinielaObj) (n : nat)
    (validacion : Validacion) :
  (4 <= length (resultados q))%nat ->
  exists cs,
    errores (validarConcentracion (repeat q (S n)) validacion)
    = errores validacion ++ [MultiplesViolaciones cs] /\
    warnings (validarConcentracion (repeat q (S n)) validacion)
    = warnings validacion /\
    partido_numero <$> cs = [1; 2; 3]%nat /\
    Forall (fun c => maxConcentracion c == 1) cs.
Proof.
  intros Hlen.
  destruct (lookup_lt_is_Some_2 (resultados q) 0) as [r0 H0]; [lia|].
  destruct (lookup_lt_is_Some_2 (resultados q) 1) as [r1 H1]; [lia|].
  destruct (lookup_lt_is_Some_2 (resultados q) 2) as [r2 H2]; [lia|].
  destruct (lookup_lt_is_Some_2 (resultados q) 3) as [r3 H3]; [lia|].
  destruct (concentracionDe_iguales q n 0 r0 H0) as (c0 & Hc0 & Hn0 & Hm0 & _).
  destruct (concentracionDe_iguales q n 1 r1 H1) as (c1 & Hc1 & Hn1 & Hm1 & _).
  destruct (concentracionDe_iguales q n 2 r2 H2) as (c2 & Hc2 & Hn2 & Hm2 & _).
  destruct (concentracionDe_iguales q n 3 r3 H3) as (c3 & Hc3 & _).
  assert (Hp : exists resto,
             concentracionesProblematicas (repeat q (S n))
             = c0 :: c1 :: c2 :: c3 :: resto).
  { unfold concentracionesProblematicas.
    change (seq 0 14) with (0 :: 1 :: 2 :: 3 :: seq 4 10)%nat.
    rewrite !omap_cons, Hc0, Hc1, Hc2, Hc3. eexists. reflexivity. }
  destruct Hp as [resto Hp].
  exists [c0; c1; c2]. unfold validarConcentracion.
  rewrite Hp, repeat_length. cbn [Nat.eqb length Nat.ltb Nat.leb take].
  cbn [errores warnings fmap list_fmap]. rewrite Hn0, Hn1, Hn2.
  repeat split. repeat constructor; assumption.
Qed.

Lemma validarConcentracion_boletos_iguales_testigo :
  (4 <= length (resultados (boleto (repeat L 14))))%nat /\
  exists cs,
    errores (validarConcentracion (repeat (boleto (repeat L 14)) 1)
               validacion_inicial)
    = errores validacion_inicial ++ [MultiplesViolaciones cs] /\
    warnings (validarConcentracion (repeat (boleto (repeat L 14)) 1)
                validacion_inicial)
    = warnings validacion_inicial /\
    partido_numero <$> cs = [1; 2; 3]%nat /\
    Forall (fun c => maxConcentracion c == 1) cs.
Proof.
  split.
  - vm_compute. lia.
  - apply (validarConcentracion_boletos_iguales (boleto (repeat L 14)) 0
             validacion_inicial).
    vm_compute. lia.
Defined.

End ValidadorMas.

(** ** PortfolioGenerator: shuffle and variation *)
Section VariacionProps.
Import MatchClassifier PortfolioGenerator Generacion.

Lemma azar_medio_valido : muestras_validas azar_medio.
Proof. intros k. unfold azar_medio. split; lra. Qed.

(** For a sample in [0, 1) the position drawn for [i] is at most [i]. *)
Lemma indiceAleatorio_cota (m : Q) (i : nat) :
  0 <= m -> m < 1 -> (indiceAleatorio m i <= i)%nat.
Proof.
  intros H0 H1. unfold indiceAleatorio.
  set (x := m * inject_Z (Z.of_nat (i + 1))).
  assert (Hpos : 0 <= inject_Z (Z.of_nat (i + 1))).
  { change 0 with (inject_Z 0). rewrite <- Zle_Qle. lia. }
  assert (Hx1 : x < inject_Z (Z.of_nat (i + 1))).
  { unfold x.
    assert (0 < inject_Z (Z.of_nat (i + 1))).
    { change 0 with (inject_Z 0). rewrite <- Zlt_Qlt. lia. }
    nra. }
  pose proof (Qfloor_le x) as Hfl.
  assert (Hlt : (Qfloor x < Z.of_nat (i + 1))%Z).
  { rewrite Zlt_Qlt. lra. }
  lia.
Qed.

Lemma insert_perm {A} (l : list A) (i : nat) (x y : A) :
  l !! i = Some x -> x :: <[i:=y]> l ≡ₚ y :: l.
Proof.
  revert i. induction l as [|z l IH]; intros i Hi; [destruct i; discriminate|].
  destruct i as [|i]; simpl in *.
  - inversion Hi; subst. apply Permutation_swap.
  - rewrite Permutation_swap, (IH i Hi). apply Permutation_swap.
Qed.

Lemma intercambiar_perm {A} (i j : nat) (l : list A) : intercambiar i j l ≡ₚ l.
Proof.
  unfold intercambiar.
  destruct (l !! i) as [a|] eqn:Hi; [|reflexivity].
  destruct (l !! j) as [b|] eqn:Hj; [|reflexivity].
  assert (H1 : a :: <[i:=b]> l ≡ₚ b :: l) by now apply insert_perm.
  assert (Hj' : <[i:=b]> l !! j = Some b).
  { destruct (decide (i = j)) as [->|Hne].
    - apply list_lookup_insert_eq. now apply lookup_lt_Some in Hi.
    - now rewrite list_lookup_insert_ne. }
  assert (H2 : b :: <[j:=a]> (<[i:=b]> l) ≡ₚ a :: <[i:=b]> l)
    by now apply insert_perm.
  rewrite H1 in H2. now apply Permutation_cons_inv in H2.
Qed.

Lemma shuffle_desde_perm {A} (azar : nat -> Q) (i : nat) :
  forall k (l : list A),
    (shuffle_desde azar i k l).1 ≡ₚ l /\
    (shuffle_desde azar i k l).2 = (k + i)%nat.
Proof.
  induction i as [|i IH]; intros k l; cbn [shuffle_desde].
  - split; [reflexivity|simpl; lia].
  - destruct (IH (S k) (intercambiar (S i) (indiceAleatorio (azar k) (S i)) l))
      as [Hp Hk].
    split; [now rewrite Hp, intercambiar_perm|rewrite Hk; lia].
Qed.

(** For samples in [0, 1), [shuffleArray] returns a permutation of the array
    and draws one sample less than the array has elements. *)
Theorem shuffleArray_permutacion {A} (array : list A) (azar : nat -> Q) (k : nat) :
  muestras_validas azar ->
  (shuffleArray array azar k).1 ≡ₚ array /\
  (shuffleArray array azar k).2 = (k + (length array - 1))%nat.
Proof. intros _. apply shuffle_desde_perm. Qed.

Lemma shuffleArray_permutacion_testigo :
  muestras_validas azar_medio /\
  (shuffleArray [1; 2; 3; 4; 5]%nat azar_medio 0).1 ≡ₚ [1; 2; 3; 4; 5]%nat /\
  (shuffleArray [1; 2; 3; 4; 5]%nat azar_medio 0).2
  = (0 + (length [1; 2; 3; 4; 5]%nat - 1))%nat.
Proof.
  split; [exact azar_medio_valido|].
  exact (shuffleArray_permutacion [1; 2; 3; 4; 5]%nat azar_medio 0
           azar_medio_valido).
Defined.

Lemma noAnclas_elem (ps : list PartidoClasificado) :
  forall i j, j ∈ noAnclas i ps ->
    (i <= j)%nat /\
    exists p : PartidoClasificado,
      ps !! (j - i)%nat = Some p /\
      Clasificacion_eqb (clasificacion p) Ancla = false.
Proof.
  induction ps as [|p ps IH]; intros i j Hj; cbn [noAnclas] in Hj.
  - now apply elem_of_nil in Hj.
  - assert (Hrec : j ∈ noAnclas (S i) ps ->
              (i <= j)%nat /\
              exists p0 : PartidoClasificado,
                (p :: ps) !! (j - i)%nat = Some p0 /\
                Clasificacion_eqb (clasificacion p0) Ancla = false).
    { intros H. destruct (IH _ _ H) as (Hle & p0 & Hp0 & Hc).
      split; [lia|]. exists p0.
      replace (j - i)%nat with (S (j - S i)) by lia. auto. }
    destruct (Clasificacion_eqb (clasificacion p) Ancla) eqn:Hc; [now apply Hrec|].
    apply elem_of_cons in Hj as [->|Hj]; [|now apply Hrec].
    split; [lia|]. exists p. rewrite Nat.sub_diag. auto.
Qed.

Lemma cambiar_posicion (ps : list PartidoClasificado) (idxs : list nat) :
  forall (q : Quiniela) i,
    cambiar ps idxs q !! i = q !! i \/
    (i ∈ idxs /\
     exists p : PartidoClasificado,
       ps !! i = Some p /\
       cambiar ps idxs q !! i = Some (getResultadoAlternativo p)).
Proof.
  unfold cambiar.
  induction idxs as [|idx idxs IH]; intros q i; cbn [fold_left]; [now left|].
  destruct (ps !! idx) as [p|] eqn:Hp.
  - destruct (IH (<[idx := getResultadoAlternativo p]> q) i)
      as [Heq|(Hin & p' & Hp' & Hq')].
    + destruct (decide (i = idx)) as [->|Hne].
      * destruct (decide (idx < length q)%nat) as [Hlt|Hge].
        -- right. split; [apply list_elem_of_here|]. exists p.
           split; [exact Hp|]. rewrite Heq. now apply list_lookup_insert_eq.
        -- left. rewrite Heq. rewrite list_insert_ge by lia. reflexivity.
      * left. rewrite Heq. now rewrite list_lookup_insert_ne.
    + right. split; [now apply list_elem_of_further|]. exists p'. auto.
  - destruct (IH q i) as [Heq|(Hin & p' & Hp' & Hq')]; [now left|].
    right. split; [now apply list_elem_of_further|]. exists p'. auto.
Qed.

Lemma cambiar_length (ps : list PartidoClasificado) (idxs : list nat) :
  forall q : Quiniela, length (cambiar ps idxs q) = length q.
Proof.
  unfold cambiar.
  induction idxs as [|idx idxs IH]; intros q; cbn [fold_left]; [reflexivity|].
  destruct (ps !! idx); rewrite IH; [apply length_insert|reflexivity].
Qed.

Lemma cambios_refl (q : Quiniela) : cambios q q = 0%nat.
Proof.
  induction q as [|a q IH]; [reflexivity|].
  cbn [cambios]. rewrite IH. now destruct a.
Qed.

Lemma cambios_insert (q : Quiniela) :
  forall (q' : Quiniela) i x,
    (cambios q (<[i:=x]> q') <= S (cambios q q'))%nat.
Proof.
  induction q as [|a q IH]; intros q' i x.
  - destruct (<[i:=x]> q'); simpl; lia.
  - destruct q' as [|b q']; [simpl; lia|].
    destruct i as [|i]; cbn [cambios].
    + change (<[0%nat:=x]> (b :: q')) with (x :: q'). cbn [cambios].
      destruct (Resultado_eqb a x), (Resultado_eqb a b); lia.
    + change (<[S i:=x]> (b :: q')) with (b :: <[i:=x]> q'). cbn [cambios].
      specialize (IH q' i x). lia.
Qed.

Lemma cambios_cambiar (ps : list PartidoClasificado) (idxs : list nat)
    (q : Quiniela) :
  forall q' : Quiniela,
    (cambios q (cambiar ps idxs q') <= cambios q q' + length idxs)%nat.
Proof.
  unfold cambiar.
  induction idxs as [|idx idxs IH]; intros q'; cbn [fold_left length]; [lia|].
  destruct (ps !! idx) as [p|].
  - specialize (IH (<[idx := getResultadoAlternativo p]> q')).
    pose proof (cambios_insert q q' idx (getResultadoAlternativo p)). lia.
  - specialize (IH q'). lia.
Qed.

(** For samples in [0, 1) and a ticket with a slot for each match, the
    variation keeps the length of the ticket, leaves the slots of the Ancla
    matches as they are, gives every slot it rewrites the alternative outcome
    of its match, and rewrites at most [2 + variacion] slots. *)
Theorem aplicarVariacion_cambios (quiniela : Quiniela)
    (partidosClasificados : list PartidoClasificado) (variacion : nat)
    (azar : nat -> Q) (k : nat) :
  muestras_validas azar ->
  length quiniela = length partidosClasificados ->
  let variada :=
    (aplicarVariacion quiniela partidosClasificados variacion azar k).1 in
  length variada = length quiniela /\
  (forall i,
      variada !! i = quiniela !! i \/
      exists p : PartidoClasificado,
        partidosClasificados !! i = Some p /\
        Clasificacion_eqb (clasificacion p) Ancla = false /\
        variada !! i = Some (getResultadoAlternativo p)) /\
  (cambios quiniela variada <= 2 + variacion)%nat.
Proof.
  intros _ Hlen. unfold aplicarVariacion.
  pose proof (shuffle_desde_perm azar
                (length (noAnclas 0 partidosClasificados) - 1) k
                (noAnclas 0 partidosClasificados)) as [Hperm _].
  unfold shuffleArray.
  destruct (shuffle_desde azar _ k (noAnclas 0 partidosClasificados))
    as [shuffled k'].
  cbn [fst] in *. cbv zeta. split; [apply cambiar_length|]. split.
  - intros i.
    destruct (cambiar_posicion partidosClasificados
                (take (Nat.min (2 + variacion)
                         (length (noAnclas 0 partidosClasificados))) shuffled)
                quiniela i) as [Heq|(Hin & p & Hp & Hq)]; [now left|right].
    exists p. split; [exact Hp|]. split; [|exact Hq].
    assert (Hi : i ∈ noAnclas 0 partidosClasificados).
    { rewrite <- Hperm. eapply elem_of_sublist; [exact Hin|apply sublist_take]. }
    destruct (noAnclas_elem _ _ _ Hi) as (_ & p' & Hp' & Hc).
    rewrite Nat.sub_0_r in Hp'. congruence.
  - pose proof (cambios_cambiar partidosClasificados
                  (take (Nat.min (2 + variacion)
                           (length (noAnclas 0 partidosClasificados))) shuffled)
                  quiniela quiniela) as Hc.
    rewrite cambios_refl, length_take in Hc. lia.
Qed.

Lemma aplicarVariacion_cambios_testigo :
  muestras_validas azar_medio /\
  length (crearQuinielaBase partidos_mixtos) = length partidos_mixtos /\
  (let variada :=
     (aplicarVariacion (crearQuinielaBase partidos_mixtos) partidos_mixtos 1
        azar_medio 0).1 in
   length variada = length (crearQuinielaBase partidos_mixtos) /\
   (forall i,
       variada !! i = crearQuinielaBase partidos_mixtos !! i \/
       exists p : PartidoClasificado,
         partidos_mixtos !! i = Some p /\
         Clasificacion_eqb (clasificacion p) Ancla = false /\
         variada !! i = Some (getResultadoAlternativo p)) /\
   (cambios (crearQuinielaBase partidos_mixtos) variada <= 2 + 1)%nat).
Proof.
  assert (H : length (crearQuinielaBase partidos_mixtos) = length partidos_mixtos)
    by reflexivity.
  split; [exact azar_medio_valido|]. split; [exact H|].
  exact (aplicarVariacion_cambios (crearQuinielaBase partidos_mixtos)
           partidos_mixtos 1 azar_medio 0 azar_medio_valido H).
Defined.

End VariacionProps.

(** ** PortfolioGenerator: estimate, shares and ticket objects *)
Section GeneracionProps.
Import MatchClassifier PortfolioGenerator Generacion.

Lemma cuenta_cons (r x : Resultado) (q : Quiniela) :
  cuenta r (x :: q) = ((if Resultado_eqb x r then 1 else 0) + cuenta r q)%nat.
Proof.
  unfold cuenta. rewrite filter_cons.
  destruct (decide (Resultado_eqb x r = true)) as [H|H].
  - now rewrite H.
  - destruct (Resultado_eqb x r); [congruence|reflexivity].
Qed.

Lemma cuenta_total (q : Quiniela) :
  (cuenta L q + cuenta E q + cuenta V q = length q)%nat.
Proof.
  induction q as [|x q IH]; [reflexivity|].
  rewrite !cuenta_cons. cbn [length]. destruct x; cbn; lia.
Qed.

Lemma cociente_cotas (c n : nat) :
  (c <= n)%nat -> (0 < n)%nat ->
  0 <= inject_Z (Z.of_nat c) / inject_Z (Z.of_nat n) /\
  inject_Z (Z.of_nat c) / inject_Z (Z.of_nat n) <= 1 /\
  (inject_Z (Z.of_nat c) / inject_Z (Z.of_nat n) == 0 <-> c = 0%nat).
Proof.
  intros Hc Hn.
  assert (Hn' : 0 < inject_Z (Z.of_nat n)).
  { change 0 with (inject_Z 0). rewrite <- Zlt_Qlt. lia. }
  assert (Hc0 : 0 <= inject_Z (Z.of_nat c)).
  { change 0 with (inject_Z 0). rewrite <- Zle_Qle. lia. }
  assert (Hcn : inject_Z (Z.of_nat c) <= inject_Z (Z.of_nat n)).
  { rewrite <- Zle_Qle. lia. }
  set (a := inject_Z (Z.of_nat c)) in *.
  set (b := inject_Z (Z.of_nat n)) in *.
  split; [apply Qle_shift_div_l; [exact Hn'|rewrite Qmult_0_l; exact Hc0]|].
  split; [apply Qle_shift_div_r; [exact Hn'|rewrite Qmult_1_l; exact Hcn]|].
  split.
  - intros Hx.
    assert (Hz : a == inject_Z 0).
    { assert (He : a == a / b * b) by (field; lra).
      rewrite He, Hx. ring. }
    unfold a, Qeq in Hz. cbn [Qnum Qden inject_Z] in Hz. lia.
  - intros ->. unfold a, Qdiv. cbn [Z.of_nat]. ring.
Qed.

Lemma cuenta_cero (x : Resultado) (q : Quiniela) :
  cuenta x q = 0%nat <-> x ∉ q.
Proof.
  induction q as [|y q IH]; [split; [intros _; apply not_elem_of_nil|reflexivity]|].
  rewrite cuenta_cons, not_elem_of_cons.
  destruct (Resultado_eqb_spec y x) as [->|Hne]; split.
  - intros H. lia.
  - intros [H _]. contradiction.
  - intros H. split; [congruence|]. apply IH. lia.
  - intros [_ H]. apply IH in H. lia.
Qed.

Lemma cuenta_cota (x : Resultado) (q : Quiniela) : (cuenta x q <= length q)%nat.
Proof. unfold cuenta. apply length_filter. Qed.

(** The shares of an empty ticket are not finite; those of any other ticket
    are finite and lie between zero and one, and the share of an outcome is
    zero exactly when no slot of the ticket holds the outcome. *)
Theorem calcularDistribucion_cotas :
  calcularDistribucion []
  = {| dist_L := NoFinito; dist_E := NoFinito; dist_V := NoFinito |} /\
  forall (r : Resultado) (q : Quiniela),
    exists l e v,
      calcularDistribucion (r :: q)
      = {| dist_L := Finito l; dist_E := Finito e; dist_V := Finito v |} /\
      (0 <= l /\ l <= 1 /\ (l == 0 <-> L ∉ r :: q)) /\
      (0 <= e /\ e <= 1 /\ (e == 0 <-> E ∉ r :: q)) /\
      (0 <= v /\ v <= 1 /\ (v == 0 <-> V ∉ r :: q)).
Proof.
  split; [reflexivity|]. intros r q.
  unfold calcularDistribucion, dividir.
  assert (Hn : (0 < length (r :: q))%nat) by (simpl; lia).
  destruct (Qeq_bool (inject_Z (Z.of_nat (length (r :: q)))) 0) eqn:Hz.
  { apply Qeq_bool_eq in Hz. unfold Qeq in Hz.
    cbn [Qnum Qden inject_Z length] in Hz. lia. }
  do 3 eexists. split; [reflexivity|].
  repeat split;
    match goal with
    | |- context [cuenta ?x (r :: q)] =>
        destruct (cociente_cotas (cuenta x (r :: q)) (length (r :: q))
                    (cuenta_cota x (r :: q)) Hn) as (H0 & H1 & Hiff)
    end; trivial;
    try (intros H; apply cuenta_cero, Hiff, H);
    try (intros H; apply Hiff, cuenta_cero, H).
Qed.

Lemma aciertosDesde_devuelve (ps : list PartidoClasificado) (azar : nat -> Q)
    (q : Quiniela) :
  forall i k,
    (i + length q <= length ps)%nat ->
    exists a,
      aciertosDesde ps azar i k q = Devuelve (a, (k + length q)%nat) /\
      (a <= length q)%nat.
Proof.
  induction q as [|r q IH]; intros i k Hlen.
  - exists 0%nat. cbn. rewrite Nat.add_0_r. auto.
  - cbn [length] in Hlen. cbn [aciertosDesde].
    destruct (lookup_lt_is_Some_2 ps i) as [p Hp]; [lia|].
    rewrite Hp.
    destruct (IH (S i) (S k)) as (a & Ha & Hle); [lia|].
    rewrite Ha. cbn [mbind resultado_js_bind fst snd length].
    eexists. split.
    + f_equal. f_equal. lia.
    + destruct (menor _ _); lia.
Qed.

Lemma aciertosDesde_lanza (ps : list PartidoClasificado) (azar : nat -> Q)
    (q : Quiniela) :
  forall i k,
    (i <= length ps)%nat -> (length ps < i + length q)%nat ->
    aciertosDesde ps azar i k q = Lanza TypeError.
Proof.
  induction q as [|r q IH]; intros i k Hi Hlen; [simpl in Hlen; lia|].
  cbn [length] in Hlen. cbn [aciertosDesde].
  destruct (ps !! i) as [p|] eqn:Hp; [|reflexivity].
  apply lookup_lt_Some in Hp.
  rewrite IH by lia. reflexivity.
Qed.

Lemma simulaciones_devuelve (ps : list PartidoClasificado) (azar : nat -> Q)
    (q : Quiniela) (sims : nat) :
  (length q <= length ps)%nat ->
  forall k,
    exists c,
      simulaciones sims ps azar k q = Devuelve (c, (k + sims * length q)%nat) /\
      (c <= sims)%nat /\ ((length q < 11)%nat -> c = 0%nat).
Proof.
  intros Hlen. induction sims as [|sims IH]; intros k.
  - exists 0%nat. cbn. rewrite Nat.add_0_r. auto.
  - cbn [simulaciones].
    destruct (aciertosDesde_devuelve ps azar q 0 k) as (a & Ha & Hle); [lia|].
    rewrite Ha. cbn [mbind resultado_js_bind fst snd].
    destruct (IH (k + length q)%nat) as (c & Hc & Hcs & Hc0).
    rewrite Hc. cbn [mbind resultado_js_bind fst snd].
    eexists. split; [f_equal; f_equal; lia|].
    destruct (Nat.leb_spec 11 a); split; lia.
Qed.

Lemma calcularProb11Plus_aux (quiniela : Quiniela)
    (partidosClasificados : list PartidoClasificado) (azar : nat -> Q) (k : nat) :
  (length quiniela <= length partidosClasificados)%nat ->
  exists p,
    calcularProb11Plus quiniela partidosClasificados azar k
    = Devuelve (p, (k + 1000 * length quiniela)%nat) /\
    0 <= p <= 1 /\
    ((length quiniela < 11)%nat -> p == 0).
Proof.
  intros Hlen. unfold calcularProb11Plus.
  destruct (simulaciones_devuelve partidosClasificados azar quiniela
              numSimulaciones Hlen k) as (c & Hc & Hcs & Hc0).
  rewrite Hc. cbn [mbind resultado_js_bind fst snd].
  eexists. split; [reflexivity|].
  assert (Hn : 0 < inject_Z (Z.of_nat numSimulaciones)) by reflexivity.
  split; [split|].
  - apply Qle_shift_div_l; [exact Hn|]. rewrite Qmult_0_l.
    change 0 with (inject_Z 0). rewrite <- Zle_Qle. lia.
  - apply Qle_shift_div_r; [exact Hn|]. rewrite Qmult_1_l.
    rewrite <- Zle_Qle. lia.
  - intros H11. rewrite (Hc0 H11). reflexivity.
Qed.

(** For a ticket with no more slots than there are matches, the estimate is
    returned, is a frequency between zero and one, is zero when the ticket has
    fewer than eleven slots, and costs a thousand samples per slot. *)
Theorem calcularProb11Plus_frecuencia (quiniela : Quiniela)
    (partidosClasificados : list PartidoClasificado) (azar : nat -> Q) (k : nat) :
  (length quiniela <= length partidosClasificados)%nat ->
  exists p,
    calcularProb11Plus quiniela partidosClasificados azar k
    = Devuelve (p, (k + 1000 * length quiniela)%nat) /\
    0 <= p <= 1 /\
    ((length quiniela < 11)%nat -> p == 0).
Proof. apply calcularProb11Plus_aux. Qed.

Lemma calcularProb11Plus_frecuencia_testigo :
  (length (crearQuinielaBase partidos_mixtos) <= length partidos_mixtos)%nat /\
  exists p,
    calcularProb11Plus (crearQuinielaBase partidos_mixtos) partidos_mixtos
      azar_medio 0
    = Devuelve (p, (0 + 1000 * length (crearQuinielaBase partidos_mixtos))%nat) /\
    0 <= p <= 1 /\
    ((length (crearQuinielaBase partidos_mixtos) < 11)%nat -> p == 0).
Proof.
  assert (H : (length (crearQuinielaBase partidos_mixtos)
               <= length partidos_mixtos)%nat) by (vm_compute; lia).
  split; [exact H|].
  exact (calcularProb11Plus_frecuencia (crearQuinielaBase partidos_mixtos)
           partidos_mixtos azar_medio 0 H).
Defined.

(** For a ticket with more slots than there are matches, the estimate throws
    a TypeError in its first simulation. *)
Theorem calcularProb11Plus_sin_partido (quiniela : Quiniela)
    (partidosClasificados : list PartidoClasificado) (azar : nat -> Q) (k : nat) :
  (length partidosClasificados < length quiniela)%nat ->
  calcularProb11Plus quiniela partidosClasificados azar k = Lanza TypeError.
Proof.
  intros Hlen. unfold calcularProb11Plus, numSimulaciones.
  cbn [simulaciones].
  rewrite aciertosDesde_lanza by lia. reflexivity.
Qed.

Lemma calcularProb11Plus_sin_partido_testigo :
  (length (take 2 partidos_mixtos) < length [L; E; V])%nat /\
  calcularProb11Plus [L; E; V] (take 2 partidos_mixtos) azar_medio 0
  = Lanza TypeError.
Proof.
  assert (H : (length (take 2 partidos_mixtos) < length [L; E; V])%nat)
    by (vm_compute; lia).
  split; [exact H|].
  exact (calcularProb11Plus_sin_partido [L; E; V] (take 2 partidos_mixtos)
           azar_medio 0 H).
Defined.

Lemma construir_forma (ident : IdQuiniela) (t : Tipo) (par : option nat)
    (q : Quiniela) (ps : list PartidoClasificado) (azar : nat -> Q) (k : nat) :
  length q = length ps ->
  exists g,
    construir ident t par q ps azar k
    = Devuelve (g, (k + 1000 * length ps)%nat) /\
    gen_id g = ident /\ par_id g = par /\
    resultados (gen_quiniela g) = q /\
    boleto_de t (length ps) g.
Proof.
  intros Hlen. unfold construir.
  destruct (calcularProb11Plus_aux q ps azar k) as (p & Hp & Hr & _); [lia|].
  rewrite Hp. cbn [mbind resultado_js_bind fst snd].
  eexists. split; [now rewrite Hlen|].
  unfold boleto_de. cbn. auto 10.
Qed.

Lemma aplicarVariacion_length (q : Quiniela) (ps : list PartidoClasificado)
    (v : nat) (azar : nat -> Q) (k : nat) :
  length (aplicarVariacion q ps v azar k).1 = length q.
Proof.
  unfold aplicarVariacion.
  destruct (shuffleArray (noAnclas 0 ps) azar k) as [shuffled k'].
  apply cambiar_length.
Qed.

Lemma generarCoreDesde_paso (ps : list PartidoClasificado) (azar : nat -> Q)
    (faltan i k : nat) :
  generarCoreDesde (S faltan) i ps azar k
  = (let '(quiniela, k1) :=
       if (0 <? i)%nat
       then aplicarVariacion (crearQuinielaBase ps) ps i azar k
       else (crearQuinielaBase ps, k) in
     quiniela ← ajustarEmpates quiniela ps;
     qk ← construir (IdCore (i + 1)) Core None quiniela ps azar k1;
     rk ← generarCoreDesde faltan (S i) ps azar qk.2;
     Devuelve (qk.1 :: rk.1, rk.2)).
Proof. reflexivity. Qed.

Lemma generarCoreDesde_forma (ps : list PartidoClasificado) (azar : nat -> Q)
    (faltan : nat) :
  forall i k,
    exists qs k',
      generarCoreDesde faltan i ps azar k = Devuelve (qs, k') /\
      gen_id <$> qs = (fun j => IdCore (j + 1)) <$> seq i faltan /\
      Forall (boleto_de Core (length ps)) qs.
Proof.
  induction faltan as [|faltan IH]; intros i k.
  - exists [], k. cbn. auto.
  - rewrite generarCoreDesde_paso.
    assert (Hq : exists q1 k1,
               (if (0 <? i)%nat
                then aplicarVariacion (crearQuinielaBase ps) ps i azar k
                else (crearQuinielaBase ps, k)) = (q1, k1) /\
               length q1 = length ps).
    { destruct (0 <? i)%nat.
      - pose proof (aplicarVariacion_length (crearQuinielaBase ps) ps i azar k)
          as Hl.
        destruct (aplicarVariacion (crearQuinielaBase ps) ps i azar k)
          as [q1 k1].
        exists q1, k1. split; [reflexivity|].
        cbn [fst] in Hl. rewrite Hl. apply crearQuinielaBase_desde_length.
      - eexists _, _. split; [reflexivity|].
        apply crearQuinielaBase_desde_length. }
    destruct Hq as (q1 & k1 & Hq & Hl1). rewrite Hq.
    destruct (ajustarEmpates_cotas q1 ps) as (adj & Hadj & Hladj & _); [lia|].
    rewrite Hadj. cbn [mbind resultado_js_bind].
    destruct (construir_forma (IdCore (i + 1)) Core None adj ps azar k1)
      as (g & Hg & Hid & _ & _ & Hb); [lia|].
    rewrite Hg. cbn [mbind resultado_js_bind fst snd].
    destruct (IH (S i) (k1 + 1000 * length ps)%nat) as (qs & k' & Hqs & Hids & Hall).
    rewrite Hqs. cbn [mbind resultado_js_bind fst snd].
    exists (g :: qs), k'. split; [reflexivity|]. split.
    + cbn [seq]. rewrite !fmap_cons, Hid, Hids. reflexivity.
    + now constructor.
Qed.

(** For samples in [0, 1), [generateCoreQuinielas] returns four Core tickets,
    numbered from one to four, each with one slot per match and with derived
    fields that agree with its outcomes; the first is the adjusted base
    ticket, whatever the samples. *)
Theorem generateCoreQuinielas_cuatro
    (partidosClasificados : list PartidoClasificado) (azar : nat -> Q) (k : nat) :
  muestras_validas azar ->
  exists qs k',
    generateCoreQuinielas partidosClasificados azar k = Devuelve (qs, k') /\
    gen_id <$> qs = [IdCore 1; IdCore 2; IdCore 3; IdCore 4] /\
    Forall (boleto_de Core (length partidosClasificados)) qs /\
    exists g,
      qs !! 0%nat = Some g /\
      ajustarEmpates (crearQuinielaBase partidosClasificados) partidosClasificados
      = Devuelve (resultados (gen_quiniela g)).
Proof.
  intros _. unfold generateCoreQuinielas. rewrite generarCoreDesde_paso.
  change (0 <? 0)%nat with false. cbv iota.
  destruct (ajustarEmpates_cotas (crearQuinielaBase partidosClasificados)
              partidosClasificados) as (adj & Hadj & Hladj & _).
  { unfold crearQuinielaBase. now rewrite crearQuinielaBase_desde_length. }
  rewrite Hadj. cbn [mbind resultado_js_bind].
  destruct (construir_forma (IdCore (0 + 1)) Core None adj partidosClasificados
              azar k) as (g & Hg & Hid & _ & Hres & Hb).
  { rewrite Hladj. apply crearQuinielaBase_desde_length. }
  rewrite Hg. cbn [mbind resultado_js_bind fst snd].
  destruct (generarCoreDesde_forma partidosClasificados azar 3 1
              (k + 1000 * length partidosClasificados)%nat)
    as (qs & k' & Hqs & Hids & Hall).
  rewrite Hqs. cbn [mbind resultado_js_bind fst snd].
  exists (g :: qs), k'. split; [reflexivity|]. split; [|split].
  - rewrite fmap_cons, Hid, Hids. reflexivity.
  - now constructor.
  - exists g. split; [reflexivity|]. now rewrite Hres.
Qed.

Lemma generateCoreQuinielas_cuatro_testigo :
  muestras_validas azar_medio /\
  exists qs k',
    generateCoreQuinielas partidos_mixtos azar_medio 0 = Devuelve (qs, k') /\
    gen_id <$> qs = [IdCore 1; IdCore 2; IdCore 3; IdCore 4] /\
    Forall (boleto_de Core (length partidos_mixtos)) qs /\
    exists g,
      qs !! 0%nat = Some g /\
      ajustarEmpates (crearQuinielaBase partidos_mixtos) partidos_mixtos
      = Devuelve (resultados (gen_quiniela g)).
Proof.
  split; [exact azar_medio_valido|].
  exact (generateCoreQuinielas_cuatro partidos_mixtos azar_medio 0
           azar_medio_valido).
Defined.

Lemma variarDesde_length (azar : nat -> Q) (ps : list PartidoClasificado) :
  forall i k (q : Quiniela), length (variarDesde azar i k ps q).1 = length q.
Proof.
  induction ps as [|p ps IH]; intros i k q; [reflexivity|].
  cbn [variarDesde].
  destruct (negb (Clasificacion_eqb (clasificacion p) Ancla));
    [destruct (menor (azar k) 0.4)|]; rewrite IH;
    [apply length_insert|reflexivity|reflexivity].
Qed.

Lemma crearSateliteIndividual_forma (ps : list PartidoClasificado)
    (sateliteId : nat) (azar : nat -> Q) (k : nat) :
  exists g k',
    crearSateliteIndividual ps sateliteId azar k = Devuelve (g, k') /\
    gen_id g = IdSat (sateliteId + 1) /\ par_id g = None /\
    boleto_de Satelite (length ps) g.
Proof.
  unfold crearSateliteIndividual.
  pose proof (variarDesde_length azar ps 0 k (crearQuinielaBase ps)) as Hl.
  destruct (variarDesde azar 0 k ps (crearQuinielaBase ps)) as [q1 k1].
  cbn [fst] in Hl.
  assert (Hl1 : length q1 = length ps).
  { rewrite Hl. apply crearQuinielaBase_desde_length. }
  destruct (ajustarEmpates_cotas q1 ps) as (adj & Hadj & Hladj & _); [lia|].
  rewrite Hadj. cbn [mbind resultado_js_bind].
  destruct (construir_forma (IdSat (sateliteId + 1)) Satelite None adj ps azar k1)
    as (g & Hg & Hid & Hpar & _ & Hb); [lia|].
  exists g. eexists. split; [exact Hg|]. auto.
Qed.

Lemma crearParSatelitesObj_forma (ps : list PartidoClasificado)
    (pd : list PartidoDivisor) (parId : nat) (azar : nat -> Q) (k : nat) :
  exists a b k',
    crearParSatelitesObj ps pd parId azar k = Devuelve (a, b, k') /\
    gen_id a = IdSatA (parId * 2 + 1) /\ gen_id b = IdSatB (parId * 2 + 1) /\
    par_id a = Some parId /\ par_id b = Some parId /\
    boleto_de Satelite (length ps) a /\ boleto_de Satelite (length ps) b /\
    ajustarEmpates (resultadoSugerido <$> ps) ps
    = Devuelve (resultados (gen_quiniela a)).
Proof.
  unfold crearParSatelitesObj.
  destruct (crearParSatelites_forma ps pd parId (fun n => azar (k + n)%nat))
    as (qa & qb & Hab & HA & Hla & Hlb).
  rewrite Hab. cbn [mbind resultado_js_bind fst snd].
  match goal with
  | |- context [construir _ _ _ qa ps azar ?k1] =>
      destruct (construir_forma (IdSatA (parId * 2 + 1)) Satelite (Some parId)
                  qa ps azar k1) as (a & Ha & Hida & Hpa & Hra & Hba); [lia|]
  end.
  rewrite Ha. cbn [mbind resultado_js_bind fst snd].
  match goal with
  | |- context [construir _ _ _ qb ps azar ?k2] =>
      destruct (construir_forma (IdSatB (parId * 2 + 1)) Satelite (Some parId)
                  qb ps azar k2) as (b & Hb & Hidb & Hpb & Hrb & Hbb); [lia|]
  end.
  rewrite Hb. cbn [mbind resultado_js_bind fst snd].
  exists a, b. eexists. split; [reflexivity|].
  rewrite Hra. auto 10.
Qed.

Lemma div2_despues (j : nat) : (S (S j) / 2 = S (j / 2))%nat.
Proof.
  replace (S (S j)) with (j + 1 * 2)%nat by lia.
  rewrite Nat.div_add by lia. lia.
Qed.

Lemma paresDesde_forma (ps : list PartidoClasificado)
    (pd : list PartidoDivisor) (azar : nat -> Q) (faltan : nat) :
  forall par k,
    exists qs k',
      paresDesde faltan par ps pd azar k = Devuelve (qs, k') /\
      length qs = (2 * faltan)%nat /\
      Forall (boleto_de Satelite (length ps)) qs /\
      (forall j g, qs !! j = Some g -> par_id g = Some (par + j / 2)%nat) /\
      (forall j g, qs !! (2 * j)%nat = Some g ->
         ajustarEmpates (resultadoSugerido <$> ps) ps
         = Devuelve (resultados (gen_quiniela g))).
Proof.
  induction faltan as [|faltan IH]; intros par k.
  - exists [], k. cbn. repeat split; auto; intros j g H; discriminate.
  - cbn [paresDesde].
    destruct (crearParSatelitesObj_forma ps pd par azar k)
      as (a & b & k1 & Hab & _ & _ & Hpa & Hpb & Hba & Hbb & HA).
    rewrite Hab. cbn [mbind resultado_js_bind fst snd].
    destruct (IH (S par) k1) as (qs & k' & Hqs & Hlen & Hall & Hpar & Hrep).
    rewrite Hqs. cbn [mbind resultado_js_bind fst snd].
    exists (a :: b :: qs), k'. split; [reflexivity|].
    split; [cbn [length]; lia|]. split.
    { constructor; [exact Hba|constructor; [exact Hbb|exact Hall]]. }
    split.
    + intros [|[|j]] g Hg.
      * inversion Hg; subst. rewrite Hpa. f_equal. cbn. lia.
      * inversion Hg; subst. rewrite Hpb. f_equal. cbn. lia.
      * cbn [lookup list_lookup] in Hg. rewrite (Hpar _ _ Hg), div2_despues.
        f_equal. lia.
    + intros [|j] g Hg.
      * inversion Hg; subst. exact HA.
      * replace (2 * S j)%nat with (S (S (2 * j))) in Hg by lia.
        cbn [lookup list_lookup] in Hg. now apply (Hrep j).
Qed.

Lemma generateSatelliteQuinielas_forma (ps : list PartidoClasificado)
    (quinielasCore : list QuinielaGenerada) (numSatelites : nat)
    (azar : nat -> Q) (k : nat) :
  exists qs k',
    generateSatelliteQuinielas ps quinielasCore numSatelites azar k
    = Devuelve (qs, k') /\
    length qs = numSatelites /\
    Forall (boleto_de Satelite (length ps)) qs /\
    (forall j g, qs !! j = Some g ->
       par_id g = if (j <? 2 * (numSatelites / 2))%nat
                  then Some (j / 2)%nat else None) /\
    (forall j g, (j < numSatelites / 2)%nat -> qs !! (2 * j)%nat = Some g ->
       ajustarEmpates (resultadoSugerido <$> ps) ps
       = Devuelve (resultados (gen_quiniela g))).
Proof.
  unfold generateSatelliteQuinielas.
  destruct (paresDesde_forma ps (partidosDivisorDe ps) azar (numSatelites / 2) 0 k)
    as (sk & k1 & Hsk & Hlen & Hall & Hpar & Hrep).
  rewrite Hsk. cbn [mbind resultado_js_bind fst snd].
  pose proof (Nat.div_mod_eq numSatelites 2) as Hdm.
  pose proof (Nat.mod_upper_bound numSatelites 2) as Hub.
  destruct (Nat.eqb_spec (numSatelites mod 2) 1) as [Hodd|Heven].
  - destruct (crearSateliteIndividual_forma ps (length sk) azar k1)
      as (e & k2 & He & _ & Hpe & Hbe).
    rewrite He. cbn [mbind resultado_js_bind fst snd].
    exists (sk ++ [e]), k2. split; [reflexivity|].
    split; [rewrite length_app; cbn [length]; lia|].
    split; [apply Forall_app; split; [exact Hall|now constructor]|]. split.
    + intros j g Hg. destruct (Nat.ltb_spec j (2 * (numSatelites / 2))) as [Hj|Hj].
      * rewrite lookup_app_l in Hg by lia. now rewrite (Hpar _ _ Hg).
      * rewrite lookup_app_r in Hg by lia.
        destruct (j - length sk)%nat; [|discriminate].
        inversion Hg; subst. exact Hpe.
    + intros j g Hj Hg. rewrite lookup_app_l in Hg by lia. now apply (Hrep j).
  - exists sk, k1. split; [reflexivity|]. split; [lia|]. split; [exact Hall|].
    split.
    + intros j g Hg. pose proof (lookup_lt_Some _ _ _ Hg) as Hj.
      destruct (Nat.ltb_spec j (2 * (numSatelites / 2))); [|lia].
      now rewrite (Hpar _ _ Hg).
    + intros j g _ Hg. now apply (Hrep j).
Qed.

(** [generateSatelliteQuinielas] returns as many Satelite tickets as asked
    for, each with one slot per match and with derived fields that agree with
    its outcomes.  The tickets come in pairs that carry the number of their
    pair, and a last ticket without pair when the number asked for is odd. *)
Theorem generateSatelliteQuinielas_cantidad
    (partidosClasificados : list PartidoClasificado)
    (quinielasCore : list QuinielaGenerada) (numSatelites : nat)
    (azar : nat -> Q) (k : nat) :
  exists qs k',
    generateSatelliteQuinielas partidosClasificados quinielasCore numSatelites
      azar k = Devuelve (qs, k') /\
    length qs = numSatelites /\
    Forall (boleto_de Satelite (length partidosClasificados)) qs /\
    (forall j g, qs !! j = Some g ->
       par_id g = if (j <? 2 * (numSatelites / 2))%nat
                  then Some (j / 2)%nat else None).
Proof.
  destruct (generateSatelliteQuinielas_forma partidosClasificados quinielasCore
              numSatelites azar k) as (qs & k' & H1 & H2 & H3 & H4 & _).
  exists qs, k'. auto.
Qed.

(** The first ticket of every pair of satellites has the same outcomes,
    whatever the pair, the samples and the Core tickets: the adjusted ticket
    of all suggested outcomes. *)
Theorem generateSatelliteQuinielas_A_repetida
    (partidosClasificados : list PartidoClasificado)
    (quinielasCore : list QuinielaGenerada) (numSatelites : nat)
    (azar : nat -> Q) (k : nat) :
  exists qs k',
    generateSatelliteQuinielas partidosClasificados quinielasCore numSatelites
      azar k = Devuelve (qs, k') /\
    forall j g, (j < numSatelites / 2)%nat -> qs !! (2 * j)%nat = Some g ->
      ajustarEmpates (resultadoSugerido <$> partidosClasificados)
        partidosClasificados
      = Devuelve (resultados (gen_quiniela g)).
Proof.
  destruct (generateSatelliteQuinielas_forma partidosClasificados quinielasCore
              numSatelites azar k) as (qs & k' & H1 & _ & _ & _ & H5).
  exists qs, k'. auto.
Qed.

End GeneracionProps.

(** ** PortfolioValidator: the whole report *)
Section InformeProps.
Import PortfolioValidator Informes.

(** The concentration check pushes the same messages after those of any
    report. *)
Lemma validarConcentracion_marco (quinielas : list QuinielaObj)
    (validacion : Validacion) :
  validarConcentracion quinielas validacion
  = {| es_valido := es_valido validacion;
       warnings := warnings validacion
                   ++ warnings (validarConcentracion quinielas validacion_inicial);
       errores := errores validacion
                  ++ errores (validarConcentracion quinielas validacion_inicial);
       metricas := metricas validacion |}.
Proof.
  unfold validarConcentracion, validacion_inicial.
  destruct validacion as [v ws es ms].
  destruct (length quinielas =? 0)%nat;
    [|destruct (0 <? length (concentracionesProblematicas quinielas))%nat;
      [destruct (3 <? length (concentracionesProblematicas quinielas))%nat|]];
    cbn [es_valido warnings errores metricas app]; now rewrite ?app_nil_r.
Qed.

Lemma agrega_nada (inf inf' : Informe) :
  inf_es_valido inf' = inf_es_valido inf ->
  inf_warnings inf' = inf_warnings inf ->
  inf_errores inf' = inf_errores inf ->
  agrega inf inf' [] [].
Proof. intros H1 H2 H3. unfold agrega. now rewrite !app_nil_r. Qed.

Lemma agrega_trans (a b c : Informe) (ws1 es1 ws2 es2 : list Aviso) :
  agrega a b ws1 es1 -> agrega b c ws2 es2 ->
  agrega a c (ws1 ++ ws2) (es1 ++ es2).
Proof.
  intros (H1 & H2 & H3) (H4 & H5 & H6). unfold agrega.
  rewrite H4, H5, H6, H1, H2, H3, !app_assoc. auto.
Qed.

Lemma revisarProporcion_agrega (r : Resultado) (p : numero) (inf : Informe) :
  agrega inf (revisarProporcion r p inf) (avisoDe r p).1 (avisoDe r p).2 /\
  inf_metricas (revisarProporcion r p inf) = inf_metricas inf.
Proof.
  unfold revisarProporcion, avisoDe.
  destruct p as [p|]; [|split; [now apply agrega_nada|reflexivity]].
  destruct (RANGOS_HISTORICOS r) as [minVal maxVal] eqn:Hr. cbn [fst snd].
  destruct (menor p minVal); [destruct (mayor (minVal - p) 0.03)|
    destruct (mayor p maxVal); [destruct (mayor (p - maxVal) 0.03)|]];
    (split; [|reflexivity]); unfold agrega; cbn; rewrite ?app_nil_r; auto.
Qed.

Lemma validarDistribucionGlobal_agrega (qs : list QuinielaObj) (inf : Informe) :
  agrega inf (validarDistribucionGlobal qs inf)
    (avisosDistribucion qs).1 (avisosDistribucion qs).2 /\
  distribucion_global (inf_metricas (validarDistribucionGlobal qs inf))
  = Some (proporcionGlobal qs L, proporcionGlobal qs E, proporcionGlobal qs V).
Proof.
  unfold validarDistribucionGlobal, avisosDistribucion. cbv zeta.
  match goal with
  | |- context [revisarProporcion L ?dL ?inf0] =>
      destruct (revisarProporcion_agrega L dL inf0) as [HL HmL];
      set (i1 := revisarProporcion L dL inf0) in *
  end.
  match goal with
  | |- context [revisarProporcion E ?dE i1] =>
      destruct (revisarProporcion_agrega E dE i1) as [HE HmE];
      set (i2 := revisarProporcion E dE i1) in *
  end.
  match goal with
  | |- context [revisarProporcion V ?dV i2] =>
      destruct (revisarProporcion_agrega V dV i2) as [HV HmV];
      set (i3 := revisarProporcion V dV i2) in *
  end.
  split.
  - pose proof (agrega_trans _ _ _ _ _ _ _ HL (agrega_trans _ _ _ _ _ _ _ HE HV))
      as H.
    unfold agrega in *. cbn [fst snd inf_es_valido inf_warnings inf_errores] in *.
    exact H.
  - rewrite HmV, HmE, HmL. reflexivity.
Qed.

Lemma problematicasDesde_length (qs : list QuinielaObj) :
  forall i,
    length (problematicasDesde i qs)
    = length (filter (fun q => fuera_de_rango q = true) qs).
Proof.
  induction qs as [|q qs IH]; intros i; [reflexivity|].
  cbn [problematicasDesde]. rewrite filter_cons.
  destruct (decide (fuera_de_rango q = true)) as [Hf|Hf];
    unfold fuera_de_rango in Hf;
    destruct (empates (resultados q) <? EMPATES_MIN)%nat;
    [|destruct (EMPATES_MAX <? empates (resultados q))%nat| |
      destruct (EMPATES_MAX <? empates (resultados q))%nat];
    cbn [orb] in Hf; try discriminate; try congruence;
    cbn [length]; now rewrite IH.
Qed.

Lemma muchas_sii (a n : nat) :
  mayor (de_nat a) (de_nat n * 0.1) = true <-> (n < 10 * a)%nat.
Proof.
  unfold de_nat.
  assert (H10 : inject_Z (10 * Z.of_nat a) == 10 * inject_Z (Z.of_nat a))
    by (rewrite inject_Z_mult; reflexivity).
  destruct (mayor_spec (inject_Z (Z.of_nat a)) (inject_Z (Z.of_nat n) * 0.1))
    as [H|H]; split; intros Hx; try discriminate; try reflexivity.
  - assert (Hq : inject_Z (Z.of_nat n) < inject_Z (10 * Z.of_nat a))
      by (rewrite H10; lra).
    rewrite <- Zlt_Qlt in Hq. lia.
  - exfalso. apply H.
    assert (Hq : inject_Z (Z.of_nat n) < inject_Z (10 * Z.of_nat a))
      by (rewrite <- Zlt_Qlt; lia).
    rewrite H10 in Hq. lra.
Qed.

Lemma validarEmpatesIndividuales_agrega (qs : list QuinielaObj) (inf : Informe) :
  exists ws es,
    agrega inf (validarEmpatesIndividuales qs inf) ws es /\
    ((length qs < 10 * length (filter (fun q => fuera_de_rango q = true) qs))%nat ->
     ws = [] /\ length es = 1%nat) /\
    ((10 * length (filter (fun q => fuera_de_rango q = true) qs) <= length qs)%nat ->
     es = [] /\
     length ws = length (filter (fun q => fuera_de_rango q = true) qs)) /\
    distribucion_global (inf_metricas (validarEmpatesIndividuales qs inf))
    = distribucion_global (inf_metricas inf).
Proof.
  unfold validarEmpatesIndividuales. cbv zeta.
  rewrite <- (problematicasDesde_length qs 0).
  set (ps := problematicasDesde 0 qs).
  destruct (Nat.ltb_spec 0 (length ps)) as [Hpos|Hcero].
  - destruct (mayor (de_nat (length ps)) (de_nat (length qs) * 0.1)) eqn:Hm.
    + apply muchas_sii in Hm.
      exists [], [MuchasFuera (take 5 ps)].
      split; [unfold agrega; cbn; now rewrite app_nil_r|].
      split; [auto|]. split; [lia|reflexivity].
    + assert (Hle : (10 * length ps <= length qs)%nat).
      { destruct (Nat.le_gt_cases (10 * length ps) (length qs)) as [H|H];
          [exact H|].
        apply muchas_sii in H. congruence. }
      exists (EmpatesFuera <$> ps), [].
      split; [unfold agrega; cbn; now rewrite app_nil_r|].
      split; [lia|]. split; [|reflexivity].
      intros _. now rewrite length_fmap.
  - exists [], []. split; [now apply agrega_nada|].
    split; [lia|]. split; [|reflexivity].
    intros _. split; [reflexivity|]. cbn. lia.
Qed.

Lemma validarConcentracionInforme_agrega (qs : list QuinielaObj) (inf : Informe) :
  exists ws es,
    agrega inf (validarConcentracionInforme qs inf) ws es /\
    inf_metricas (validarConcentracionInforme qs inf) = inf_metricas inf.
Proof.
  unfold validarConcentracionInforme. cbv zeta.
  rewrite validarConcentracion_marco.
  cbn [es_valido warnings errores parteDe app].
  eexists _, _. split; [|reflexivity].
  unfold agrega. cbn. auto.
Qed.

Lemma calcularMetricas_marco (qs : list QuinielaObj) (v : Validacion) :
  es_valido (calcularMetricas qs v) = es_valido v.
Proof. unfold calcularMetricas. now destruct (map prob_11_plus qs). Qed.

Lemma calcularMetricasInforme_agrega (qs : list QuinielaObj) (inf : Informe) :
  agrega inf (calcularMetricasInforme qs inf) [] [] /\
  distribucion_global (inf_metricas (calcularMetricasInforme qs inf))
  = distribucion_global (inf_metricas inf).
Proof.
  unfold calcularMetricasInforme. cbv zeta. split; [|reflexivity].
  apply agrega_nada; cbn [inf_es_valido inf_warnings inf_errores];
    [now rewrite calcularMetricas_marco|reflexivity|reflexivity].
Qed.

(** The report after the four checks: the flag is still set, and the messages
    are those of the shares, then those of the draws, then those of the
    concentration. *)
Lemma revisado_forma (qs : list QuinielaObj) :
  exists wsE esE wsC esC,
    inf_es_valido (revisado qs) = true /\
    inf_warnings (revisado qs) = (avisosDistribucion qs).1 ++ wsE ++ wsC /\
    inf_errores (revisado qs) = (avisosDistribucion qs).2 ++ esE ++ esC /\
    ((length qs < 10 * length (filter (fun q => fuera_de_rango q = true) qs))%nat ->
     wsE = [] /\ length esE = 1%nat) /\
    ((10 * length (filter (fun q => fuera_de_rango q = true) qs) <= length qs)%nat ->
     esE = [] /\
     length wsE = length (filter (fun q => fuera_de_rango q = true) qs)) /\
    distribucion_global (inf_metricas (revisado qs))
    = Some (proporcionGlobal qs L, proporcionGlobal qs E, proporcionGlobal qs V).
Proof.
  unfold revisado.
  destruct (validarDistribucionGlobal_agrega qs informe_inicial) as [H1 M1].
  set (i1 := validarDistribucionGlobal qs informe_inicial) in *.
  destruct (validarEmpatesIndividuales_agrega qs i1)
    as (wsE & esE & H2 & Hmuchas & Hpocas & M2).
  set (i2 := validarEmpatesIndividuales qs i1) in *.
  destruct (validarConcentracionInforme_agrega qs i2) as (wsC & esC & H3 & M3).
  set (i3 := validarConcentracionInforme qs i2) in *.
  destruct (calcularMetricasInforme_agrega qs i3) as [H4 M4].
  set (i4 := calcularMetricasInforme qs i3) in *.
  exists wsE, esE, wsC, esC.
  destruct H1 as (V1 & W1 & E1), H2 as (V2 & W2 & E2),
    H3 as (V3 & W3 & E3), H4 as (V4 & W4 & E4).
  split; [now rewrite V4, V3, V2, V1|].
  split; [rewrite W4, W3, W2, W1, app_nil_r; cbn; now rewrite <- !app_assoc|].
  split; [rewrite E4, E3, E2, E1, app_nil_r; cbn; now rewrite <- !app_assoc|].
  split; [exact Hmuchas|]. split; [exact Hpocas|].
  now rewrite M4, M3, M2, M1.
Qed.

Lemma validatePortfolio_veredicto (qs : list QuinielaObj) :
  validatePortfolio qs
  = if (length qs =? 0)%nat then
      {| inf_es_valido := false;
         inf_warnings := [];
         inf_errores := [SinQuinielas];
         inf_metricas := inf_metricas informe_inicial |}
    else if (0 <? length (inf_errores (revisado qs)))%nat then
      {| inf_es_valido := false;
         inf_warnings := inf_warnings (revisado qs);
         inf_errores := inf_errores (revisado qs);
         inf_metricas := inf_metricas (revisado qs) |}
    else if (3 <? length (inf_warnings (revisado qs)))%nat then
      {| inf_es_valido := false;
         inf_warnings := inf_warnings (revisado qs);
         inf_errores := inf_errores (revisado qs) ++ [DemasiadasAdvertencias];
         inf_metricas := inf_metricas (revisado qs) |}
    else revisado qs.
Proof. reflexivity. Qed.

(** The report is valid exactly when it holds no error; a valid report is
    that of a portfolio with a ticket and holds at most three warnings. *)
Theorem validatePortfolio_valido_sii (quinielas : list QuinielaObj) :
  (inf_es_valido (validatePortfolio quinielas) = true
   <-> inf_errores (validatePortfolio quinielas) = []) /\
  (inf_es_valido (validatePortfolio quinielas) = true ->
   (0 < length quinielas)%nat /\
   (length (inf_warnings (validatePortfolio quinielas)) <= 3)%nat).
Proof.
  rewrite validatePortfolio_veredicto.
  destruct (revisado_forma quinielas) as (wsE & esE & wsC & esC & Hv & _).
  destruct (Nat.eqb_spec (length quinielas) 0) as [Hn|Hn];
    [cbn; split; [split|]; discriminate|].
  destruct (Nat.ltb_spec 0 (length (inf_errores (revisado quinielas))))
    as [He|He].
  { cbn [inf_es_valido inf_errores inf_warnings].
    split; [split|]; try discriminate.
    intros H. rewrite H in He. cbn in He. lia. }
  destruct (Nat.ltb_spec 3 (length (inf_warnings (revisado quinielas))))
    as [Hw|Hw].
  { cbn [inf_es_valido inf_errores inf_warnings].
    split; [split|]; try discriminate.
    intros H. now apply app_eq_nil in H as [_ H]. }
  split; [split|]; intros _.
  - destruct (inf_errores (revisado quinielas)); [reflexivity|cbn in He; lia].
  - exact Hv.
  - split; lia.
Qed.

(** A portfolio with four or more tickets outside the range of draws, or with
    more than one in ten, is not valid. *)
Theorem validatePortfolio_empates_fuera (quinielas : list QuinielaObj) :
  (4 <= length (filter (fun q => fuera_de_rango q = true) quinielas) \/
   length quinielas
   < 10 * length (filter (fun q => fuera_de_rango q = true) quinielas))%nat ->
  inf_es_valido (validatePortfolio quinielas) = false.
Proof.
  intros Hf. rewrite validatePortfolio_veredicto.
  destruct (revisado_forma quinielas)
    as (wsE & esE & wsC & esC & _ & Hw & He & Hmuchas & Hpocas & _).
  destruct (length quinielas =? 0)%nat; [reflexivity|].
  destruct (Nat.ltb_spec 0 (length (inf_errores (revisado quinielas))))
    as [Hpos|Hcero]; [reflexivity|].
  destruct (Nat.ltb_spec 3 (length (inf_warnings (revisado quinielas))))
    as [Hmas|Hmenos]; [reflexivity|].
  exfalso. rewrite He, !length_app in Hcero. rewrite Hw, !length_app in Hmenos.
  destruct (Nat.le_gt_cases
              (10 * length (filter (fun q => fuera_de_rango q = true) quinielas))
              (length quinielas)) as [Hp|Hm].
  - destruct (Hpocas Hp) as [_ Hl]. lia.
  - destruct (Hmuchas Hm) as [_ Hl]. lia.
Qed.

Lemma validatePortfolio_empates_fuera_testigo :
  (4 <= length (filter (fun q => fuera_de_rango q = true) portafolio_un_boleto) \/
   length portafolio_un_boleto
   < 10 * length (filter (fun q => fuera_de_rango q = true) portafolio_un_boleto))%nat /\
  inf_es_valido (validatePortfolio portafolio_un_boleto) = false.
Proof.
  assert (H : (4 <= length (filter (fun q => fuera_de_rango q = true)
                              portafolio_un_boleto) \/
               length portafolio_un_boleto
               < 10 * length (filter (fun q => fuera_de_rango q = true)
                                portafolio_un_boleto))%nat)
    by (right; vm_compute; lia).
  split; [exact H|].
  exact (validatePortfolio_empates_fuera portafolio_un_boleto H).
Defined.

Lemma avisoDe_grave (r : Resultado) (p : Q) :
  p < (RANGOS_HISTORICOS r).1 - 0.03 \/ (RANGOS_HISTORICOS r).2 + 0.03 < p ->
  exists lado, (avisoDe r (Finito p)).2 = [DistribucionFuera r p lado true].
Proof.
  assert (Hr : (RANGOS_HISTORICOS r).1 < (RANGOS_HISTORICOS r).2)
    by (destruct r; reflexivity).
  intros H. unfold avisoDe.
  destruct (menor_spec p (RANGOS_HISTORICOS r).1) as [Hmin|Hmin].
  - destruct (mayor_spec ((RANGOS_HISTORICOS r).1 - p) 0.03) as [Hd|Hd];
      [now exists Minimo|exfalso; lra].
  - destruct (mayor_spec p (RANGOS_HISTORICOS r).2) as [Hmax|Hmax];
      [|exfalso; lra].
    destruct (mayor_spec (p - (RANGOS_HISTORICOS r).2) 0.03) as [Hd|Hd];
      [now exists Maximo|exfalso; lra].
Qed.

Lemma proporcionGlobal_finita (qs : list QuinielaObj) (r : Resultado) :
  (0 < length qs)%nat -> proporcionGlobal qs r = Finito (proporcionDe qs r).
Proof.
  intros Hn. unfold proporcionGlobal, proporcionDe, dividir.
  destruct (Qeq_bool (de_nat (length qs) * 14) 0) eqn:Hz; [|reflexivity].
  apply Qeq_bool_eq in Hz.
  assert (0 < de_nat (length qs)).
  { unfold de_nat. change 0 with (inject_Z 0). rewrite <- Zlt_Qlt. lia. }
  lra.
Qed.

(** A share of an outcome, among fourteen predictions per ticket, that is
    more than 0.03 under its historical minimum or over its maximum is
    reported as an error, and the portfolio is not valid. *)
Theorem validatePortfolio_distribucion_grave (quinielas : list QuinielaObj)
    (r : Resultado) :
  (0 < length quinielas)%nat ->
  proporcionDe quinielas r < (RANGOS_HISTORICOS r).1 - 0.03 \/
  (RANGOS_HISTORICOS r).2 + 0.03 < proporcionDe quinielas r ->
  inf_es_valido (validatePortfolio quinielas) = false /\
  exists lado,
    DistribucionFuera r (proporcionDe quinielas r) lado true
    ∈ inf_errores (validatePortfolio quinielas).
Proof.
  intros Hn Hp. rewrite validatePortfolio_veredicto.
  destruct (revisado_forma quinielas)
    as (wsE & esE & wsC & esC & _ & _ & He & _).
  destruct (avisoDe_grave r _ Hp) as [lado Hlado].
  assert (Hin : DistribucionFuera r (proporcionDe quinielas r) lado true
                ∈ inf_errores (revisado quinielas)).
  { rewrite He. apply elem_of_app. left.
    unfold avisosDistribucion. cbn [snd].
    rewrite <- (proporcionGlobal_finita quinielas r Hn) in Hlado.
    destruct r; rewrite !elem_of_app, Hlado;
      [left|right; left|right; right]; apply list_elem_of_here. }
  destruct (Nat.eqb_spec (length quinielas) 0) as [H0|_]; [lia|].
  destruct (Nat.ltb_spec 0 (length (inf_errores (revisado quinielas))))
    as [Hpos|Hcero].
  - cbn [inf_es_valido inf_errores]. split; [reflexivity|]. now exists lado.
  - exfalso. destruct (inf_errores (revisado quinielas));
      [now apply elem_of_nil in Hin|cbn in Hcero; lia].
Qed.

Lemma validatePortfolio_distribucion_grave_testigo :
  (0 < length portafolio_un_boleto)%nat /\
  (proporcionDe portafolio_un_boleto L < (RANGOS_HISTORICOS L).1 - 0.03 \/
   (RANGOS_HISTORICOS L).2 + 0.03 < proporcionDe portafolio_un_boleto L) /\
  inf_es_valido (validatePortfolio portafolio_un_boleto) = false /\
  exists lado,
    DistribucionFuera L (proporcionDe portafolio_un_boleto L) lado true
    ∈ inf_errores (validatePortfolio portafolio_un_boleto).
Proof.
  assert (H1 : (0 < length portafolio_un_boleto)%nat) by (vm_compute; lia).
  assert (H2 : proporcionDe portafolio_un_boleto L < (RANGOS_HISTORICOS L).1 - 0.03 \/
               (RANGOS_HISTORICOS L).2 + 0.03 < proporcionDe portafolio_un_boleto L)
    by (right; reflexivity).
  split; [exact H1|]. split; [exact H2|].
  exact (validatePortfolio_distribucion_grave portafolio_un_boleto L H1 H2).
Defined.

Lemma incrementar_total (l : Quiniela) :
  forall c,
    (cL (fold_left incrementar l c) + cE (fold_left incrementar l c)
     + cV (fold_left incrementar l c)
     = cL c + cE c + cV c + length l)%nat.
Proof.
  induction l as [|r l IH]; intros c; cbn [fold_left length]; [lia|].
  rewrite IH. destruct r; cbn; lia.
Qed.

Lemma contarTodos_total (qs : list QuinielaObj) :
  (cL (contarTodos qs) + cE (contarTodos qs) + cV (contarTodos qs)
   = casillas qs)%nat.
Proof.
  unfold contarTodos, casillas.
  assert (H : forall c,
             (cL (fold_left (fun conteos quiniela =>
                               fold_left incrementar (resultados quiniela) conteos)
                    qs c)
              + cE (fold_left (fun conteos quiniela =>
                                 fold_left incrementar (resultados quiniela) conteos)
                      qs c)
              + cV (fold_left (fun conteos quiniela =>
                                 fold_left incrementar (resultados quiniela) conteos)
                      qs c)
              = cL c + cE c + cV c
                + list_sum (map (fun q => length (resultados q)) qs))%nat).
  { induction qs as [|q qs IH]; intros c; cbn [fold_left map list_sum fold_right]; [lia|].
    fold (list_sum (map (fun q => length (resultados q)) qs)).
    rewrite IH, incrementar_total. lia. }
  rewrite H. cbn. lia.
Qed.

(** The shares that the report records for a portfolio with a ticket are
    finite and not negative, and at most one when no ticket has more than
    fourteen slots. *)
Theorem validatePortfolio_distribucion_cotas (quinielas : list QuinielaObj) :
  (0 < length quinielas)%nat ->
  exists l e v,
    distribucion_global (inf_metricas (validatePortfolio quinielas))
    = Some (Finito l, Finito e, Finito v) /\
    0 <= l /\ 0 <= e /\ 0 <= v /\
    (Forall (fun q => (length (resultados q) <= 14)%nat) quinielas ->
     l <= 1 /\ e <= 1 /\ v <= 1).
Proof.
  intros Hn.
  destruct (revisado_forma quinielas)
    as (wsE & esE & wsC & esC & _ & _ & _ & _ & _ & Hm).
  rewrite !proporcionGlobal_finita in Hm by exact Hn.
  exists (proporcionDe quinielas L), (proporcionDe quinielas E),
    (proporcionDe quinielas V).
  assert (Hpos : 0 < de_nat (length quinielas) * 14).
  { unfold de_nat.
    assert (0 < inject_Z (Z.of_nat (length quinielas))).
    { change 0 with (inject_Z 0). rewrite <- Zlt_Qlt. lia. }
    lra. }
  assert (H0 : forall r, 0 <= proporcionDe quinielas r).
  { intros r. unfold proporcionDe. apply Qle_shift_div_l; [exact Hpos|].
    rewrite Qmult_0_l. unfold de_nat. change 0 with (inject_Z 0).
    rewrite <- Zle_Qle. lia. }
  split; [|split; [apply H0|split; [apply H0|split; [apply H0|]]]].
  - rewrite validatePortfolio_veredicto.
    destruct (Nat.eqb_spec (length quinielas) 0) as [Hz|_]; [lia|].
    destruct (0 <? length (inf_errores (revisado quinielas)))%nat;
      [exact Hm|].
    destruct (3 <? length (inf_warnings (revisado quinielas)))%nat; exact Hm.
  - intros Hall.
    assert (Hc : (casillas quinielas <= length quinielas * 14)%nat).
    { unfold casillas. clear -Hall.
      induction Hall as [|q qs Hq _ IH]; [simpl; lia|].
      cbn [map list_sum fold_right length].
      fold (list_sum (map (fun q => length (resultados q)) qs)). lia. }
    pose proof (contarTodos_total quinielas) as Ht.
    assert (H1 : forall r, proporcionDe quinielas r <= 1).
    { intros r. unfold proporcionDe. apply Qle_shift_div_r; [exact Hpos|].
      rewrite Qmult_1_l. unfold de_nat.
      assert (He : inject_Z (Z.of_nat (length quinielas)) * 14
                   == inject_Z (Z.of_nat (length quinielas * 14))).
      { rewrite Nat2Z.inj_mul, inject_Z_mult. reflexivity. }
      rewrite He, <- Zle_Qle. destruct r; cbn [conteo_de]; lia. }
    repeat split; apply H1.
Qed.

Lemma validatePortfolio_distribucion_cotas_testigo :
  (0 < length portafolio_historico)%nat /\
  exists l e v,
    distribucion_global (inf_metricas (validatePortfolio portafolio_historico))
    = Some (Finito l, Finito e, Finito v) /\
    0 <= l /\ 0 <= e /\ 0 <= v /\
    (Forall (fun q => (length (resultados q) <= 14)%nat) portafolio_historico ->
     l <= 1 /\ e <= 1 /\ v <= 1).
Proof.
  assert (H : (0 < length portafolio_historico)%nat) by (vm_compute; lia).
  split; [exact H|].
  exact (validatePortfolio_distribucion_cotas portafolio_historico H).
Defined.

End InformeProps.
